(** * Silex element model ([src/js/model/element.js]): a shallow embedding

    The file follows the JavaScript source function by function.

    - JavaScript strings are sequences of UTF-16 code units: [list N].
    - The regular expressions of the source are interpreted by a small
      backtracking matcher with the priorities of the ECMAScript
      semantics (greedy and lazy stars over one-character atoms are all
      the source uses), and [String.prototype.replace] with a global
      pattern is written out, [$]-substitutions included.
    - The DOM is a store of nodes addressed by identity, with parent
      pointers and ordered child lists, so that [===] on elements is
      equality of identities and mutation is visible through every alias.
    - The collaborators of the class ([this.model.file], [this.model.page],
      [this.model.property], [this.model.body], [this.view.stage],
      [silex.utils.*]) live in other files: their queries are fields of
      the record [Collab], their commands are recorded in the trace. *)

From Stdlib Require Import NArith ZArith Ascii String List Bool Lia DecimalString.
From stdpp Require Import base option list gmap.
Import ListNotations.

Set Default Proof Using "Type".
Local Open Scope N_scope.

(* ================================================================== *)
(** * JavaScript strings *)
(* ================================================================== *)

Module Js.

(** A string literal of the source, as code units. *)
Definition lit (s : string) : list N :=
  map N_of_ascii (list_ascii_of_string s).

(** The double quote character. *)
Definition dq : N := 34.

(** [Canonicalize] of the ECMAScript pattern semantics for the [i] flag
    without the [u] flag, as far as a comparison against an ASCII pattern
    character can see it: ASCII letters fold to upper case, and a code
    unit at or above 128 never folds to an ASCII one. *)
Definition canon (c : N) : N :=
  if (97 <=? c) && (c <=? 122) then c - 32 else c.

(** Line terminators, which [.] does not match. *)
Definition is_line_terminator (c : N) : bool :=
  (c =? 10) || (c =? 13) || (c =? 8232) || (c =? 8233).

(** [WhiteSpace] and [LineTerminator] code units, stripped by [trim]. *)
Definition is_js_whitespace (c : N) : bool :=
  (c =? 9) || (c =? 10) || (c =? 11) || (c =? 12) || (c =? 13) || (c =? 32)
  || (c =? 160) || (c =? 5760) || ((8192 <=? c) && (c <=? 8202))
  || (c =? 8232) || (c =? 8233) || (c =? 8239) || (c =? 8287)
  || (c =? 12288) || (c =? 65279).

(** ASCII whitespace, the separators of a DOM token list. *)
Definition is_ascii_whitespace (c : N) : bool :=
  (c =? 9) || (c =? 10) || (c =? 12) || (c =? 13) || (c =? 32).

Definition eqs (a b : list N) : bool := bool_decide (a = b).

(** [s.split(' ')]: every separator cuts, empty pieces are kept. *)
Fixpoint split_on (sep : N) (s : list N) : list (list N) :=
  match s with
  | [] => [[]]
  | c :: s' =>
      if c =? sep then [] :: split_on sep s'
      else match split_on sep s' with
           | t :: ts => (c :: t) :: ts
           | [] => [[c]]
           end
  end.

(** [a.join(' ')] on an array of strings. *)
Fixpoint join (sep : list N) (l : list (list N)) : list N :=
  match l with
  | [] => []
  | [t] => t
  | t :: ts => t ++ sep ++ join sep ts
  end.

Fixpoint trim_start (s : list N) : list N :=
  match s with
  | c :: s' => if is_js_whitespace c then trim_start s' else s
  | [] => []
  end.

Definition trim_end (s : list N) : list N :=
  reverse (trim_start (reverse s)).

(** [s.trim()] *)
Definition trim (s : list N) : list N := trim_end (trim_start s).

(** [a.startsWith(p)] on code units. *)
Fixpoint starts_with (p s : list N) : bool :=
  match p, s with
  | [], _ => true
  | a :: p', c :: s' => (a =? c) && starts_with p' s'
  | _ :: _, [] => false
  end.

(** Same, both sides under [canon]. *)
Fixpoint starts_with_ci (p s : list N) : bool :=
  match p, s with
  | [], _ => true
  | a :: p', c :: s' => (canon a =? canon c) && starts_with_ci p' s'
  | _ :: _, [] => false
  end.

(** [s.indexOf(p)], [None] for -1. *)
Fixpoint index_of (p s : list N) : option nat :=
  if starts_with p s then Some 0%nat
  else match s with
       | [] => None
       | _ :: s' => S <$> index_of p s'
       end.

(** [p] occurs in [s]. *)
Definition includes (p s : list N) : bool :=
  match index_of p s with Some _ => true | None => false end.

(** [p] occurs in [s], letter case ignored. *)
Fixpoint includes_ci (p s : list N) : bool :=
  starts_with_ci p s ||
  match s with
  | [] => false
  | _ :: s' => includes_ci p s'
  end.

(** [s.substr(start)] with [start] as [indexOf] returns it: -1 counts
    from the end. *)
Definition substr_from (start : option nat) (s : list N) : list N :=
  match start with
  | Some i => drop i s
  | None => drop (length s - 1) s
  end.

(** The non-empty pieces of a text between single spaces. *)
Definition pieces (s : list N) : list (list N) :=
  filter (λ t, t ≠ []) (split_on 32 s).

(** A text in which the space is the only whitespace. *)
Definition only_space_whitespace (s : list N) : Prop :=
  Forall (λ c, is_js_whitespace c = true → c = 32) s.

End Js.

(* ================================================================== *)
(** * Regular expressions of the source *)
(* ================================================================== *)

Module Regex.

Inductive atom :=
  | Chr (c : N)            (** a pattern character *)
  | Dot                    (** [.] *)
  | Class (cs : list N).   (** [[...]] *)

Inductive item :=
  | One (a : atom)
  | StarGreedy (a : atom)  (** [a*] *)
  | StarLazy (a : atom).   (** [a*?] *)

(** A pattern of the source is a sequence of items; [ignore_case] is the
    [i] flag. All patterns of the source carry the [g] flag. *)
Record regex := { items : list item; ignore_case : bool }.

Definition chars (s : list N) : list item := map (fun c => One (Chr c)) s.

Definition atom_match (ic : bool) (a : atom) (c : N) : bool :=
  match a with
  | Chr p => if ic then Js.canon p =? Js.canon c else p =? c
  | Dot => negb (Js.is_line_terminator c)
  | Class cs =>
      if ic then existsb (fun p => Js.canon p =? Js.canon c) cs
      else existsb (fun p => p =? c) cs
  end.

(** [a*] followed by the continuation [k]: the longest run first. *)
Fixpoint star_greedy (p : N -> bool) (k : list N -> option (list N))
    (s : list N) : option (list N) :=
  match s with
  | c :: s' =>
      if p c then
        match star_greedy p k s' with
        | Some r => Some r
        | None => k s
        end
      else k s
  | [] => k []
  end.

(** [a*?] followed by the continuation [k]: the shortest run first. *)
Fixpoint star_lazy (p : N -> bool) (k : list N -> option (list N))
    (s : list N) : option (list N) :=
  match k s with
  | Some r => Some r
  | None =>
      match s with
      | c :: s' => if p c then star_lazy p k s' else None
      | [] => None
      end
  end.

(** Match the items at the start of [s]; the result is what follows the
    match. *)
Fixpoint match_items (ic : bool) (r : list item) (s : list N)
    : option (list N) :=
  match r with
  | [] => Some s
  | One a :: r' =>
      match s with
      | c :: s' => if atom_match ic a c then match_items ic r' s' else None
      | [] => None
      end
  | StarGreedy a :: r' => star_greedy (atom_match ic a) (match_items ic r') s
  | StarLazy a :: r' => star_lazy (atom_match ic a) (match_items ic r') s
  end.

Definition match_at (re : regex) (s : list N) : option (list N) :=
  match_items (ignore_case re) (items re) s.

(** [re.test(s)]: a match at some position. *)
Fixpoint test (re : regex) (s : list N) : bool :=
  match match_at re s with
  | Some _ => true
  | None => match s with [] => false | _ :: s' => test re s' end
  end.

(** [GetSubstitution] for a pattern without capture groups: [$$], [$&],
    [$`] and [$'] are expanded, every other [$] stands for itself.
    [before] is the text before the match, [matched] the match, [after]
    the text behind it. *)
Fixpoint substitution (before matched after repl : list N) : list N :=
  match repl with
  | 36 :: rest =>
      match rest with
      | 36 :: rest' => 36 :: substitution before matched after rest'
      | 38 :: rest' => matched ++ substitution before matched after rest'
      | 96 :: rest' => before ++ substitution before matched after rest'
      | 39 :: rest' => after ++ substitution before matched after rest'
      | _ => 36 :: substitution before matched after rest
      end
  | c :: rest => c :: substitution before matched after rest
  | [] => []
  end.

(** A replacement text without [$]: it stands for itself. *)
Definition plain (repl : list N) : Prop := Forall (λ c, c ≠ 36) repl.

(** [s.replace(re, repl)] for a global [re]. [seen] is the text already
    passed, reversed; [skip] counts the code units of [s] that still
    belong to the last match. After an empty match the search moves one
    code unit on. *)
Fixpoint replace_from (re : regex) (repl : list N) (seen s : list N)
    (skip : nat) : list N :=
  match s with
  | [] =>
      match skip, match_at re [] with
      | O, Some _ => substitution (rev seen) [] [] repl
      | _, _ => []
      end
  | c :: s' =>
      match skip with
      | S k => replace_from re repl (c :: seen) s' k
      | O =>
          match match_at re s with
          | Some rest =>
              let n := (length s - length rest)%nat in
              let out := substitution (rev seen) (take n s) rest repl in
              match n with
              | O => out ++ c :: replace_from re repl (c :: seen) s' O
              | S m => out ++ replace_from re repl (c :: seen) s' m
              end
          | None => c :: replace_from re repl (c :: seen) s' O
          end
      end
  end.

Definition replace (re : regex) (repl s : list N) : list N :=
  replace_from re repl [] s O.

End Regex.

(* ================================================================== *)
(** * The DOM store *)
(* ================================================================== *)

Module Dom.

(** The document of the browser, as far as the source uses it. The
    operations follow the DOM standard and the helpers of the Closure
    Library ([goog.dom], [goog.dom.classlist]) that wrap them. *)

(** A node of the document. [nodeType] is 1 for an element and 3 for a
    text node; [attributes] is the attribute list of an element, in the
    order the attributes were set; [nodeValue] is the data of a text
    node. *)
Record node := Node {
  nodeType : N;
  tagName : list N;
  attributes : list (list N * list N);
  nodeValue : list N;
  parentNode : option nat;
  childNodes : list nat
}.

Definition set_attributes (f : list (list N * list N) -> list (list N * list N))
    (n : node) : node :=
  Node (nodeType n) (tagName n) (f (attributes n)) (nodeValue n)
       (parentNode n) (childNodes n).

Definition set_parentNode (p : option nat) (n : node) : node :=
  Node (nodeType n) (tagName n) (attributes n) (nodeValue n) p (childNodes n).

Definition set_childNodes (f : list nat -> list nat) (n : node) : node :=
  Node (nodeType n) (tagName n) (attributes n) (nodeValue n)
       (parentNode n) (f (childNodes n)).

(** A detached element as [document.createElement(tag)] returns it. *)
Definition new_element (tag : list N) : node := Node 1 tag [] [] None [].

(** A detached text node. *)
Definition new_text (data : list N) : node := Node 3 [] [] data None [].

(** ** Attributes *)

Fixpoint attr_get (name : list N) (l : list (list N * list N))
    : option (list N) :=
  match l with
  | [] => None
  | (k, v) :: l' => if Js.eqs k name then Some v else attr_get name l'
  end.

Fixpoint attr_set (name value : list N) (l : list (list N * list N))
    : list (list N * list N) :=
  match l with
  | [] => [(name, value)]
  | (k, v) :: l' =>
      if Js.eqs k name then (k, value) :: l'
      else (k, v) :: attr_set name value l'
  end.

Fixpoint attr_remove (name : list N) (l : list (list N * list N))
    : list (list N * list N) :=
  match l with
  | [] => []
  | (k, v) :: l' =>
      if Js.eqs k name then attr_remove name l'
      else (k, v) :: attr_remove name l'
  end.

(** [el.getAttribute(name)]: [None] is [null]. *)
Definition getAttribute (d : gmap nat node) (el : nat) (name : list N)
    : option (list N) :=
  n ← d !! el; attr_get name (attributes n).

(** [el.setAttribute(name, value)] *)
Definition setAttribute (d : gmap nat node) (el : nat) (name value : list N)
    : gmap nat node :=
  alter (set_attributes (attr_set name value)) el d.

(** [el.removeAttribute(name)] *)
Definition removeAttribute (d : gmap nat node) (el : nat) (name : list N)
    : gmap nat node :=
  alter (set_attributes (attr_remove name)) el d.

(** ** Classes *)

Definition class_attr : list N := Js.lit "class".

(** [el.className]: the class attribute, the empty string without one. *)
Definition className (d : gmap nat node) (el : nat) : list N :=
  default [] (getAttribute d el class_attr).

(** The pieces of a string between runs of ASCII whitespace. *)
Fixpoint ws_tokens (s : list N) : list (list N) :=
  match s with
  | [] => []
  | c :: s' =>
      if Js.is_ascii_whitespace c then ws_tokens s'
      else match s' with
           | [] => [[c]]
           | c' :: _ =>
               if Js.is_ascii_whitespace c' then [c] :: ws_tokens s'
               else match ws_tokens s' with
                    | t :: ts => (c :: t) :: ts
                    | [] => [[c]]
                    end
           end
  end.

(** The ordered set parser of a DOM token list. *)
Definition token_set (s : list N) : list (list N) := remove_dups (ws_tokens s).

(** The ordered set serializer. *)
Definition serialize (ts : list (list N)) : list N := Js.join [32] ts.

(** The tokens of [el.classList]. *)
Definition classList (d : gmap nat node) (el : nat) : list (list N) :=
  token_set (className d el).

(** [el.classList.contains(c)] *)
Definition hasClass (d : gmap nat node) (el : nat) (c : list N) : bool :=
  bool_decide (c ∈ classList d el).

(** [el.classList.add(c)] (and [goog.dom.classlist.add(el, c)]): the
    token is appended when it is new, and the attribute is rewritten from
    the token set. The source adds its own constants and class names
    built from them, all of them tokens. *)
Definition classList_add (d : gmap nat node) (el : nat) (c : list N)
    : gmap nat node :=
  let ts := classList d el in
  setAttribute d el class_attr
    (serialize (if bool_decide (c ∈ ts) then ts else ts ++ [c])).

(** [el.classList.remove(c)]: without a class attribute and with nothing
    left to write the attribute is not created. *)
Definition classList_remove (d : gmap nat node) (el : nat) (c : list N)
    : gmap nat node :=
  let ts := filter (λ t, t ≠ c) (classList d el) in
  match getAttribute d el class_attr, ts with
  | None, [] => d
  | _, _ => setAttribute d el class_attr (serialize ts)
  end.

(** ** The tree *)

Definition children (d : gmap nat node) (x : nat) : list nat :=
  match d !! x with Some n => childNodes n | None => [] end.

Definition parent (d : gmap nat node) (x : nat) : option nat :=
  n ← d !! x; parentNode n.

(** [a] is [x] or an ancestor of [x], following at most [fuel] parent
    pointers. *)
Fixpoint is_ancestor_upto (fuel : nat) (d : gmap nat node) (a x : nat) : bool :=
  if decide (a = x) then true
  else match fuel with
       | O => false
       | S f =>
           match parent d x with
           | Some p => is_ancestor_upto f d a p
           | None => false
           end
       end.

(** [goog.dom.contains(a, x)]: [a] is [x] or an ancestor of [x]. A chain
    of parents is never longer than the store. *)
Definition contains (d : gmap nat node) (a x : nat) : bool :=
  is_ancestor_upto (size d) d a x.

(** The descendants of [x] in document order, [x] itself excluded, down
    to depth [fuel]. *)
Fixpoint descendants_upto (fuel : nat) (d : gmap nat node) (x : nat)
    : list nat :=
  match fuel with
  | O => []
  | S f => flat_map (λ c, c :: descendants_upto f d c) (children d x)
  end.

Definition descendants (d : gmap nat node) (x : nat) : list nat :=
  descendants_upto (size d) d x.

Definition is_element (d : gmap nat node) (x : nat) : bool :=
  match d !! x with
  | Some n => nodeType n =? 1
  | None => false
  end.

(** [goog.dom.getElementsByClass(c, root)]: the elements below [root]
    with the class. *)
Definition getElementsByClass (d : gmap nat node) (c : list N) (root : nat)
    : list nat :=
  filter (λ x, is_element d x && hasClass d x c = true) (descendants d root).

Definition tag_is (d : gmap nat node) (x : nat) (tag : list N) : bool :=
  match d !! x with
  | Some n => Js.eqs (map Js.canon (tagName n)) (map Js.canon tag)
  | None => false
  end.

(** [goog.dom.getElementsByTagNameAndClass(tag, c, root)] *)
Definition getElementsByTagNameAndClass (d : gmap nat node)
    (tag c : list N) (root : nat) : list nat :=
  filter (λ x, is_element d x && tag_is d x tag && hasClass d x c = true)
    (descendants d root).

(** Take [x] out of the child list of its parent. *)
Definition detach (d : gmap nat node) (x : nat) : gmap nat node :=
  match parent d x with
  | Some p =>
      alter (set_parentNode None) x
        (alter (set_childNodes (filter (λ c, c ≠ x))) p d)
  | None => d
  end.

(** [goog.dom.removeNode(x)] *)
Definition removeNode (d : gmap nat node) (x : nat) : gmap nat node :=
  detach d x.

(** A node that may have children: an element, a document or a document
    fragment. *)
Definition can_parent (d : gmap nat node) (p : nat) : bool :=
  match d !! p with
  | Some n => (nodeType n =? 1) || (nodeType n =? 9) || (nodeType n =? 11)
  | None => false
  end.

Fixpoint insert_before_ref (x : nat) (ref : nat) (l : list nat) : list nat :=
  match l with
  | [] => [x]
  | c :: l' => if decide (c = ref) then x :: c :: l'
               else c :: insert_before_ref x ref l'
  end.

(** The node after [x] among its siblings. *)
Fixpoint next_in (x : nat) (l : list nat) : option nat :=
  match l with
  | [] => None
  | c :: l' => if decide (c = x) then head l' else next_in x l'
  end.

Definition nextSibling (d : gmap nat node) (x : nat) : option nat :=
  p ← parent d x; next_in x (children d p).

(** [p.insertBefore(x, ref)]; [ref = None] is [null] and appends. [None]
    as a result is a thrown [DOMException]: [p] cannot have children,
    [x] is [p] or an ancestor of [p], or [ref] is not a child of [p].
    Inserting a node before itself inserts it before its next sibling. *)
Definition insertBefore (d : gmap nat node) (p x : nat) (ref : option nat)
    : option (gmap nat node) :=
  if negb (can_parent d p) then None
  else if contains d x p then None
  else if match ref with
          | Some r => negb (bool_decide (parent d r = Some p))
          | None => false
          end then None
  else
    let ref' := if bool_decide (ref = Some x) then nextSibling d x else ref in
    let d1 := detach d x in
    let place := match ref' with
                 | Some r => insert_before_ref x r
                 | None => λ l, l ++ [x]
                 end in
    Some (alter (set_parentNode (Some p)) x
            (alter (set_childNodes place) p d1)).

(** [p.appendChild(x)] (and [goog.dom.appendChild(p, x)]) *)
Definition appendChild (d : gmap nat node) (p x : nat)
    : option (gmap nat node) :=
  insertBefore d p x None.

(** ** Well-formed documents *)

(** What every document satisfies at a node [x]: its parent can have
    children and lists [x] among them, [x] is not its own ancestor,
    every child of [x] points back to [x], and no child is listed
    twice. *)
Definition wf_node (d : gmap nat node) (x : nat) (n : node) : bool :=
  match parentNode n with
  | Some p =>
      can_parent d p && bool_decide (x ∈ children d p)
      && negb (contains d x p)
  | None => true
  end
  && forallb (λ c, bool_decide (parent d c = Some x)) (childNodes n)
  && bool_decide (NoDup (childNodes n)).

Definition wf_dom (d : gmap nat node) : Prop :=
  forallb (λ xn, wf_node d xn.1 xn.2) (map_to_list d) = true.

(** Two stores with the same tree: they differ in attributes only. *)
Definition same_tree (d d' : gmap nat node) : Prop :=
  size d' = size d
  ∧ ∀ y, parent d' y = parent d y
         ∧ children d' y = children d y
         ∧ can_parent d' y = can_parent d y
         ∧ is_element d' y = is_element d y
         ∧ ∀ tag, tag_is d' y tag = tag_is d y tag.

(** What a node is apart from its place in the tree. *)
Definition node_data (n : node) : N * list N * list (list N * list N) * list N :=
  (nodeType n, tagName n, attributes n, nodeValue n).

(** The child list [insertBefore] leaves at the parent. *)
Definition placed (d : gmap nat node) (p x : nat) (ref : option nat)
    : list nat :=
  match (if bool_decide (ref = Some x) then nextSibling d x else ref) with
  | Some r => insert_before_ref x r (children (detach d x) p)
  | None => children (detach d x) p ++ [x]
  end.

(** A token of a class list: not empty and without whitespace. *)
Definition is_token (t : list N) : Prop :=
  t ≠ [] ∧ Forall (λ c, Js.is_ascii_whitespace c = false) t.

(** ** Names and tokens given by a caller *)

(** ASCII lower case: the attribute operations of an HTML element apply
    it to the name they are given. *)
Definition ascii_lower (s : list N) : list N :=
  map (λ c, if (65 <=? c) && (c <=? 90) then c + 32 else c) s.

(** [el.setAttribute(name, value)] for a name of a caller: a name that
    fails the name test [ok] of the browser is refused with an
    [InvalidCharacterError], [None]; the others are put in lower
    case. *)
Definition setAttribute_checked (ok : list N → bool) (d : gmap nat node)
    (el : nat) (name value : list N) : option (gmap nat node) :=
  if ok name then Some (setAttribute d el (ascii_lower name) value) else None.

(** [el.classList.add(c)] (and [goog.dom.classlist.add(el, c)]) for a
    string of a caller: the empty string is refused with a
    [SyntaxError] and a string with ASCII whitespace with an
    [InvalidCharacterError], [None]. *)
Definition classList_add_checked (d : gmap nat node) (el : nat) (c : list N)
    : option (gmap nat node) :=
  if bool_decide (c = []) || existsb Js.is_ascii_whitespace c then None
  else Some (classList_add d el c).

End Dom.

(* ================================================================== *)
(** * Collaborators and the state of the editor *)
(* ================================================================== *)

(** An optional string argument as JavaScript passes it. *)
Inductive jsval :=
  | Undefined
  | Null
  | Str (s : list N).

(** [a !== b] *)
Definition strict_neq (a b : jsval) : bool :=
  match a, b with
  | Undefined, Undefined => false
  | Null, Null => false
  | Str s, Str t => negb (Js.eqs s t)
  | _, _ => true
  end.

(** [goog.isDefAndNotNull(v)] *)
Definition isDefAndNotNull (v : jsval) : bool :=
  match v with Str _ => true | _ => false end.

(** The truth value of an optional string: [undefined], [null] and the
    empty string are falsy. *)
Definition truthy (v : jsval) : bool :=
  match v with Str (_ :: _) => true | _ => false end.

(** The text of an argument that is a string. *)
Definition string_of (v : jsval) : list N :=
  match v with Str s => s | _ => [] end.

(** What the class reads from the files that are not part of this one.
    Queries are fields; the constants of other classes are fields too. *)
Record Collab := {
  (** [this.model.file.getUrl()], [None] when no file is open *)
  file_getUrl : option (list N);
  (** [silex.utils.Url.getBaseUrl()] *)
  Url_getBaseUrl : list N;
  (** [silex.utils.Url.relative2Absolute(html, base)] *)
  Url_relative2Absolute : list N -> list N -> list N;
  (** [silex.utils.Url.absolute2Relative(html, base)] *)
  Url_absolute2Relative : list N -> list N -> list N;
  (** [silex.utils.Dom.removeCacheControl(html)] *)
  Dom_removeCacheControl : list N -> list N;
  (** the query parameter [removeCacheControl] strips *)
  Dom_CACHE_CONTROL_PARAM_NAME : list N;
  (** [goog.string.toSelectorCase(name)] *)
  goog_string_toSelectorCase : list N -> list N;
  (** [this.model.page.getPages()] *)
  page_getPages : list (list N);
  (** [this.model.page.isInPage(el)] *)
  page_isInPage : nat -> bool;
  (** [this.model.page.getPagesForElement(el)] *)
  page_getPagesForElement : nat -> list (list N);
  (** [this.model.property.getSilexId(el)] *)
  property_getSilexId : nat -> option (list N);
  (** [this.model.body.getBodyElement()] *)
  body_getBodyElement : nat;
  (** [silex.utils.Style.SILEX_CLASS_NAMES] *)
  Style_SILEX_CLASS_NAMES : list (list N);
  (** [silex.view.Stage.BACKGROUND_CLASS_NAME] *)
  Stage_BACKGROUND_CLASS_NAME : list N;
  (** [silex.model.Body.EDITABLE_CLASS_NAME] *)
  Body_EDITABLE_CLASS_NAME : list N;
  (** [this.view.stage.getScrollX()], [getScrollY()], whole pixels *)
  stage_getScrollX : Z;
  stage_getScrollY : Z
}.

(** What the class tells its collaborators, its callers and the console:
    the trace holds these, the most recent first. *)
Inductive event :=
  | ConsoleError (msg : list N) (el : nat)
  | PropertySetStyle (el : nat) (style : gmap (list N) (list N))
  | PropertyInitSilexId (el : nat)
  | BodySetEditable (el : nat) (editable : bool)
  | BodySetSelection
  | Callback (cb : nat) (el img : nat)
  | ErrorCallback (cb : nat) (el : nat) (msg : list N).

(** A [goog.net.ImageLoader] that was started: the element and the two
    optional callbacks its listeners closed over, and the image the
    loader is fetching. A callback is known by a name of the caller. *)
Record loader := Loader {
  ld_element : nat;
  ld_image : nat;
  ld_callback : option nat;
  ld_errorCallback : option nat
}.

(** The state the class works on: the document, the next identity for
    a new node, the style objects of the property store, the image
    loaders in flight and the trace. *)
Record world := World {
  w_dom : gmap nat Dom.node;
  w_fresh : nat;
  w_styles : gmap nat (gmap (list N) (list N));
  w_loaders : list loader;
  w_trace : list event
}.

Definition set_dom (d : gmap nat Dom.node) (w : world) : world :=
  World d (w_fresh w) (w_styles w) (w_loaders w) (w_trace w).

Definition set_loaders (l : list loader) (w : world) : world :=
  World (w_dom w) (w_fresh w) (w_styles w) l (w_trace w).

Definition emit (e : event) (w : world) : world :=
  World (w_dom w) (w_fresh w) (w_styles w) (w_loaders w) (e :: w_trace w).

(** A new node gets the next identity. *)
Definition alloc (n : Dom.node) (w : world) : nat * world :=
  (w_fresh w,
   World (<[w_fresh w := n]> (w_dom w)) (S (w_fresh w)) (w_styles w)
         (w_loaders w) (w_trace w)).

(** Modelled from the spec: the property store of
    [this.model.property] is not in this file; section 6 of the spec
    gives it as [getStyleObject(node) -> map] and [setStyle(node, map)],
    a map from nodes to style objects that is read, compared and written
    in one step. [getStyleObject(el)] is [None] for no object. *)
Definition property_getStyleObject (w : world) (el : nat)
    : option (gmap (list N) (list N)) :=
  w_styles w !! el.

(** Modelled from the spec: [this.model.property.setStyle(el,
    styleObject)] stores the object for the node; it is the one store
    write, and the trace records it. *)
Definition property_setStyle (el : nat) (style : gmap (list N) (list N))
    (w : world) : world :=
  World (w_dom w) (w_fresh w) (<[el := style]> (w_styles w)) (w_loaders w)
        (PropertySetStyle el style :: w_trace w).

(** The number of property-store writes recorded in a trace. *)
Fixpoint store_writes (t : list event) : nat :=
  match t with
  | [] => O
  | PropertySetStyle _ _ :: t' => S (store_writes t')
  | _ :: t' => store_writes t'
  end.

(** [silex.model.DomDirection] *)
Inductive DomDirection := UP | DOWN | TOP | BOTTOM.

(* ================================================================== *)
(** * [silex.model.Element] *)
(* ================================================================== *)

Module Element.

Import Regex.

(** ** Constants of the class *)

Definition MIN_HEIGHT : Z := 20.
Definition MIN_WIDTH : Z := 20.
Definition LOADING_ELEMENT_CSS_CLASS : list N := Js.lit "loading-image".
Definition TYPE_CONTAINER : list N := Js.lit "container".
Definition TYPE_IMAGE : list N := Js.lit "image".
Definition TYPE_TEXT : list N := Js.lit "text".
Definition TYPE_HTML : list N := Js.lit "html".
Definition TYPE_ATTR : list N := Js.lit "data-silex-type".
Definition ELEMENT_CONTENT_CLASS_NAME : list N := Js.lit "silex-element-content".
Definition LINK_ATTR : list N := Js.lit "data-silex-href".
Definition SELECTED_CLASS_NAME : list N := Js.lit "silex-selected".
Definition JUST_ADDED_CLASS_NAME : list N := Js.lit "silex-just-added".

(** ** The patterns and replacement texts of the two HTML transforms *)

(** [class=] followed by the quoted marker class of user scripts *)
Definition script_class : list N :=
  Js.lit "class=" ++ [Js.dq] ++ Js.lit "silex-script" ++ [Js.dq].

(** The pattern of [prepareHtmlForEdit], flags [gi]: [<script], [.*],
    the marker class, [.*?], [>]. *)
Definition script_re : regex :=
  {| items := chars (Js.lit "<script") ++ [StarGreedy Dot]
              ++ chars script_class ++ [StarLazy Dot] ++ chars (Js.lit ">");
     ignore_case := true |}.

(** The type attribute of a script that does not run *)
Definition type_notjavascript : list N :=
  Js.lit "type=" ++ [Js.dq] ++ Js.lit "text/notjavascript" ++ [Js.dq].

(** The type attribute of a script that runs *)
Definition type_javascript : list N :=
  Js.lit "type=" ++ [Js.dq] ++ Js.lit "text/javascript" ++ [Js.dq].

(** The tag every user script is rewritten to while editing *)
Definition script_disabled : list N :=
  Js.lit "<script " ++ type_notjavascript ++ Js.lit " " ++ script_class
  ++ Js.lit ">".

(** The tag of a user script that runs, the disabled tag with the type
    put back *)
Definition script_enabled : list N :=
  Js.lit "<script " ++ type_javascript ++ Js.lit " " ++ script_class
  ++ Js.lit ">".

(** The pattern of [unprepareHtmlForEdit], flags [gi] *)
Definition notjavascript_re : regex :=
  {| items := chars type_notjavascript; ignore_case := true |}.

(** The pattern the source builds with [new RegExp(..., 'g')] from a
    string literal: the backslashes of the literal are gone before the
    pattern is read, so every [.] outside the class is the wildcard. *)
Definition static_re : regex :=
  {| items :=
       concat (replicate 5 [One Dot; One Dot; One (Chr 47)])
       ++ [StarGreedy (Class [46; 46; 47])] ++ chars (Js.lit "static/");
     ignore_case := false |}.

Section WithCollaborators.

Variable E : Collab.

(** [this.model.file.getUrl()] as a condition *)
Definition has_url : bool :=
  match file_getUrl E with
  | Some (_ :: _) => true
  | _ => false
  end.

Definition file_url : list N := default [] (file_getUrl E).

(** [prepareHtmlForEdit(rawHtml)] *)
Definition prepareHtmlForEdit (rawHtml : list N) : list N :=
  let rawHtml := replace script_re script_disabled rawHtml in
  if has_url then
    Url_relative2Absolute E rawHtml (Url_getBaseUrl E ++ file_url)
  else rawHtml.

(** [unprepareHtmlForEdit(rawHtml)] *)
Definition unprepareHtmlForEdit (rawHtml : list N) : list N :=
  let rawHtml := replace notjavascript_re type_javascript rawHtml in
  let rawHtml := Dom_removeCacheControl E rawHtml in
  if has_url then
    let baseUrl := Url_getBaseUrl E in
    let rawHtml := Url_absolute2Relative E rawHtml (baseUrl ++ file_url) in
    let staticUrl :=
      Js.substr_from (Js.index_of (Js.lit "//") baseUrl) baseUrl
      ++ Js.lit "static/" in
    replace static_re staticUrl rawHtml
  else rawHtml.

(** [removeCacheControl] leaves a text without its parameter alone. *)
Definition removeCacheControl_spec : Prop :=
  ∀ html, Js.includes (Dom_CACHE_CONTROL_PARAM_NAME E) html = false →
          Dom_removeCacheControl E html = html.

(** With a file open, the two URL helpers undo each other on [html]
    and the absolute form holds neither marker. *)
Definition url_helpers_invert (html : list N) : Prop :=
  let base := Url_getBaseUrl E ++ file_url in
  let absolute := Url_relative2Absolute E html base in
  Js.includes_ci (Js.lit "notjavascript") absolute = false
  ∧ Js.includes (Dom_CACHE_CONTROL_PARAM_NAME E) absolute = false
  ∧ Url_absolute2Relative E absolute base = html.

(** [getTabs(num)] *)
Fixpoint getTabs (num : nat) : list N :=
  match num with
  | O => []
  | S n => getTabs n ++ Js.lit "    "
  end.

(** [getType(element)] *)
Definition getType (d : gmap nat Dom.node) (element : nat) : option (list N) :=
  Dom.getAttribute d element TYPE_ATTR.

(** [getStyle(element, styleName)] *)
Definition getStyle (w : world) (element : nat) (styleName : list N)
    : option (list N) :=
  let cssName := goog_string_toSelectorCase E styleName in
  match property_getStyleObject w element with
  | Some styleObject =>
      match styleObject !! cssName with
      | Some (c :: v) => Some (unprepareHtmlForEdit (c :: v))
      | _ => None
      end
  | None => None
  end.

(** [styleObject[styleName]] *)
Definition style_get (styleObject : gmap (list N) (list N)) (name : list N)
    : jsval :=
  match styleObject !! name with
  | Some v => Str v
  | None => Undefined
  end.

(** [setStyle(element, styleName, opt_styleValue)] *)
Definition setStyle (w : world) (element : nat) (styleName : list N)
    (opt_styleValue : jsval) : world :=
  let styleName := goog_string_toSelectorCase E styleName in
  let styleObject := default ∅ (property_getStyleObject w element) in
  let w :=
    if strict_neq (style_get styleObject styleName) opt_styleValue then
      let value :=
        if isDefAndNotNull opt_styleValue
        then prepareHtmlForEdit (string_of opt_styleValue)
        else [] in
      property_setStyle element (<[styleName := value]> styleObject) w
    else w in
  set_dom (Dom.classList_remove (w_dom w) element JUST_ADDED_CLASS_NAME) w.

(** [getContentNode(element)] *)
Definition getContentNode (d : gmap nat Dom.node) (element : nat) : nat :=
  match Dom.getElementsByClass d ELEMENT_CONTENT_CLASS_NAME element with
  | [content] => content
  | _ => element
  end.

(** The test both sibling scans apply to a child: an element node with
    the type attribute. *)
Definition is_silex_element (d : gmap nat Dom.node) (el : nat) : bool :=
  match d !! el with
  | Some n => (Dom.nodeType n =? 1) && bool_decide (is_Some (getType d el))
  | None => false
  end.

(** A candidate is visible in the current page or not paged at all. *)
Definition is_candidate (el : nat) : bool :=
  page_isInPage E el || bool_decide (length (page_getPagesForElement E el) = O).

(** The loop of both scans over the children in the order visited:
    [res] is the last candidate seen, returned on reaching [element];
    [None] after the loop is [null]. *)
Fixpoint scan (d : gmap nat Dom.node) (element : nat) (l : list nat)
    (res : option nat) : option nat :=
  match l with
  | [] => None
  | el :: l' =>
      if is_silex_element d el then
        if decide (el = element) then res
        else scan d element l' (if is_candidate el then Some el else res)
      else scan d element l' res
  end.

(** [getPreviousElement(element)]. The outer [None] is the [TypeError]
    of reading [childNodes] of a missing parent, the inner one [null]. *)
Definition getPreviousElement (d : gmap nat Dom.node) (element : nat)
    : option (option nat) :=
  p ← Dom.parent d element;
  Some (scan d element (Dom.children d p) None).

(** [getNextElement(element)]: the same loop from the last child down. *)
Definition getNextElement (d : gmap nat Dom.node) (element : nat)
    : option (option nat) :=
  p ← Dom.parent d element;
  Some (scan d element (rev (Dom.children d p)) None).

(** The [switch] of [move]. [None] is a thrown exception. *)
Definition move_dom (d : gmap nat Dom.node) (element : nat)
    (direction : DomDirection) : option (gmap nat Dom.node) :=
  match direction with
  | UP =>
      sibling ← getNextElement d element;
      match sibling with
      | Some s => p ← Dom.parent d element; Dom.insertBefore d p s (Some element)
      | None => Some d
      end
  | DOWN =>
      sibling ← getPreviousElement d element;
      match sibling with
      | Some s =>
          p ← Dom.parent d element;
          Dom.insertBefore d p s (Dom.nextSibling d element)
      | None => Some d
      end
  | TOP =>
      p ← Dom.parent d element; Dom.appendChild d p element
  | BOTTOM =>
      p ← Dom.parent d element;
      Dom.insertBefore d p element (head (Dom.children d p))
  end.

(** [move(element, direction)] *)
Definition move (w : world) (element : nat) (direction : DomDirection)
    : option world :=
  d ← move_dom (w_dom w) element direction;
  Some (set_dom (Dom.classList_remove d element JUST_ADDED_CLASS_NAME) w).

(** ** Images *)

(** The image a [goog.net.ImageLoader] of the Closure Library creates
    for [addImage(id, url)]: an [img] that carries the identifier as its
    [id] and the address as its [src]. *)
Definition ImageLoader_image (id url : list N) : Dom.node :=
  Dom.Node 1 (Js.lit "img") [(Js.lit "id", id); (Js.lit "src", url)] [] None [].

Definition msg_not_an_image : list N := Js.lit "The element is not an image.".
Definition msg_load_error : list N :=
  Js.lit "An error occured while loading the image.".
Definition msg_could_not_delete : list N :=
  Js.lit "could not delete" ++ [32]
  ++ Js.lit "because it is not in the stage element".

(** [opt_errorCallback(element, msg)] when the callback is given *)
Definition call_errorCallback (cb : option nat) (element : nat)
    (msg : list N) (w : world) : world :=
  match cb with
  | Some f => emit (ErrorCallback f element msg) w
  | None => w
  end.

(** [setImageUrl(element, url, opt_callback, opt_errorCallback)] up to
    [imageLoader.start()]: the two listeners are the record added to
    [w_loaders]. [getContentNode] returns a node, so the branch taken
    when [img] is falsy is never entered and is left out. *)
Definition setImageUrl (w : world) (element : nat) (url : list N)
    (opt_callback opt_errorCallback : option nat) : world :=
  if bool_decide (Dom.getAttribute (w_dom w) element TYPE_ATTR = Some TYPE_IMAGE)
  then
    let d := Dom.classList_add (w_dom w) element LOADING_ELEMENT_CSS_CLASS in
    let imgTags :=
      Dom.getElementsByTagNameAndClass d (Js.lit "img")
        ELEMENT_CONTENT_CLASS_NAME element in
    let d := match imgTags with
             | t :: _ => Dom.removeNode d t
             | [] => d
             end in
    let '(img, w) := alloc (ImageLoader_image url url) (set_dom d w) in
    set_loaders
      (w_loaders w ++ [Loader element img opt_callback opt_errorCallback]) w
  else
    call_errorCallback opt_errorCallback element msg_not_an_image
      (emit (ConsoleError msg_not_an_image element) w).

(** The listener of [goog.events.EventType.LOAD]; the image of the
    loader is [e.target]. [None] is an exception of [appendChild]. *)
Definition on_load (w : world) (ld : loader) : option world :=
  let element := ld_element ld in
  let img := ld_image ld in
  let w := match ld_callback ld with
           | Some f => emit (Callback f element img) w
           | None => w
           end in
  d ← Dom.appendChild (w_dom w) element img;
  let d := Dom.classList_add d img ELEMENT_CONTENT_CLASS_NAME in
  let d := Dom.removeAttribute d img (Js.lit "id") in
  let d := Dom.classList_remove d element LOADING_ELEMENT_CSS_CLASS in
  Some (emit BodySetSelection (set_dom d w)).

(** The listener of [goog.net.EventType.ERROR] *)
Definition on_error (w : world) (ld : loader) : world :=
  call_errorCallback (ld_errorCallback ld) (ld_element ld) msg_load_error
    (emit (ConsoleError msg_load_error (ld_element ld)) w).

(** The [k]-th loader in flight delivers its image: both its listeners
    were registered with [listenOnce] and it holds one image, so it is
    done afterwards. *)
Definition load_completes (w : world) (k : nat) : option world :=
  ld ← w_loaders w !! k;
  on_load (set_loaders (delete k (w_loaders w)) w) ld.

(** The [k]-th loader in flight fails. *)
Definition load_fails (w : world) (k : nat) : option world :=
  ld ← w_loaders w !! k;
  Some (on_error (set_loaders (delete k (w_loaders w)) w) ld).

(** ** Adding and removing *)

(** [removeElement(element)] *)
Definition removeElement (w : world) (element : nat) : world :=
  if negb (bool_decide (body_getBodyElement E = element))
     && Dom.contains (w_dom w) (body_getBodyElement E) element
  then set_dom (Dom.removeNode (w_dom w) element) w
  else emit (ConsoleError msg_could_not_delete element) w.

(** [addElement(container, element)] *)
Definition addElement (w : world) (container element : nat) : option world :=
  d ← Dom.appendChild (w_dom w) container element;
  Some (set_dom (Dom.classList_add d element JUST_ADDED_CLASS_NAME) w).

(** [createContainerElement()] *)
Definition createContainerElement (w : world) : nat * world :=
  let '(element, w) := alloc (Dom.new_element (Js.lit "div")) w in
  (element,
   set_dom (Dom.setAttribute (w_dom w) element TYPE_ATTR TYPE_CONTAINER) w).

(** [createTextElement()]; the assignment to [innerHTML] makes the one
    text node of the literal. *)
Definition createTextElement (w : world) : option (nat * world) :=
  let '(element, w) := alloc (Dom.new_element (Js.lit "div")) w in
  let w := set_dom (Dom.setAttribute (w_dom w) element TYPE_ATTR TYPE_TEXT) w in
  let '(textContent, w) := alloc (Dom.new_element (Js.lit "div")) w in
  let '(text, w) := alloc (Dom.new_text (Js.lit "New text box")) w in
  d ← Dom.appendChild (w_dom w) textContent text;
  d ← Dom.appendChild d element textContent;
  let d := Dom.classList_add d textContent ELEMENT_CONTENT_CLASS_NAME in
  let d := Dom.classList_add d textContent (Js.lit "normal") in
  Some (element, set_dom d w).

(** [createHtmlElement()]; the assignment to [innerHTML] makes the
    paragraph of the literal and its text node. *)
Definition createHtmlElement (w : world) : option (nat * world) :=
  let '(element, w) := alloc (Dom.new_element (Js.lit "div")) w in
  let w := set_dom (Dom.setAttribute (w_dom w) element TYPE_ATTR TYPE_HTML) w in
  let '(htmlContent, w) := alloc (Dom.new_element (Js.lit "div")) w in
  let '(para, w) := alloc (Dom.new_element (Js.lit "p")) w in
  let '(text, w) := alloc (Dom.new_text (Js.lit "New HTML box")) w in
  d ← Dom.appendChild (w_dom w) para text;
  d ← Dom.appendChild d htmlContent para;
  d ← Dom.appendChild d element htmlContent;
  let d := Dom.classList_add d htmlContent ELEMENT_CONTENT_CLASS_NAME in
  Some (element, set_dom d w).

(** [createImageElement()] *)
Definition createImageElement (w : world) : nat * world :=
  let '(element, w) := alloc (Dom.new_element (Js.lit "div")) w in
  (element,
   set_dom (Dom.setAttribute (w_dom w) element TYPE_ATTR TYPE_IMAGE) w).

(** A whole number of pixels as the text [n + 'px'] *)
Definition px (n : Z) : list N :=
  Js.lit (DecimalString.NilZero.string_of_int (Z.to_int n)) ++ Js.lit "px".

(** [createElement(type)]. With a type that is none of the four the
    element stays [null] and the first use of it throws: [None]. *)
Definition createElement (w : world) (type : list N) : option (nat * world) :=
  let bodyElement := body_getBodyElement E in
  let container :=
    default bodyElement
      (head (Dom.getElementsByClass (w_dom w) (Stage_BACKGROUND_CLASS_NAME E)
               bodyElement)) in
  let offsetX := (100 + stage_getScrollX E)%Z in
  let offsetY := (100 + stage_getScrollY E)%Z in
  let styleObject : gmap (list N) (list N) :=
    <[Js.lit "height" := Js.lit "100px"]>
      (<[Js.lit "width" := Js.lit "100px"]>
         (<[Js.lit "top" := px offsetY]>
            (<[Js.lit "left" := px offsetX]> ∅))) in
  let white := <[Js.lit "backgroundColor" := Js.lit "#FFFFFF"]> styleObject in
  '(element, styleObject, w) ←
    (if Js.eqs type TYPE_CONTAINER then
       let '(element, w) := createContainerElement w in
       Some (element, white, w)
     else if Js.eqs type TYPE_TEXT then
       '(element, w) ← createTextElement w; Some (element, styleObject, w)
     else if Js.eqs type TYPE_HTML then
       '(element, w) ← createHtmlElement w; Some (element, white, w)
     else if Js.eqs type TYPE_IMAGE then
       let '(element, w) := createImageElement w in
       Some (element, styleObject, w)
     else None);
  let w := set_dom (Dom.classList_add (w_dom w) element
                      (Body_EDITABLE_CLASS_NAME E)) w in
  let w := emit (PropertyInitSilexId element) w in
  let w := property_setStyle element styleObject w in
  let w := emit (BodySetEditable element true) w in
  let w := set_dom (Dom.classList_add (w_dom w) element
                      (type ++ Js.lit "-element")) w in
  w ← addElement w container element;
  Some (element, w).

(** A state of the editor as every session has it: the document is
    well formed, the identities from [w_fresh] on are not in use, and
    the body can have children. *)
Definition wf_world (w : world) : Prop :=
  Dom.wf_dom (w_dom w)
  ∧ (∀ y, (w_fresh w ≤ y)%nat → w_dom w !! y = None)
  ∧ Dom.can_parent (w_dom w) (body_getBodyElement E) = true.

(** ** Links and class names *)

(** [setLink(element, opt_link)] *)
Definition setLink (d : gmap nat Dom.node) (element : nat) (opt_link : jsval)
    : gmap nat Dom.node :=
  if truthy opt_link
  then Dom.setAttribute d element LINK_ATTR (string_of opt_link)
  else Dom.removeAttribute d element LINK_ATTR.

(** [getLink(element)] *)
Definition getLink (d : gmap nat Dom.node) (element : nat) : option (list N) :=
  Dom.getAttribute d element LINK_ATTR.

(** [goog.array.contains(arr, name)] *)
Definition array_contains (arr : list (list N)) (name : list N) : bool :=
  bool_decide (name ∈ arr).

(** The test of [getClassName] and [setClassName]: an internal class, a
    page name or the identifier of the element. *)
Definition is_internal_class (element : nat) (name : list N) : bool :=
  array_contains (Style_SILEX_CLASS_NAMES E) name
  || array_contains (page_getPages E) name
  || bool_decide (property_getSilexId E element = Some name).

(** The function [getClassName] maps over the names: it returns nothing,
    [None], for the names of the test. *)
Definition public_name (element : nat) (name : list N) : option (list N) :=
  if is_internal_class element name then None else Some name.

(** [arr.join(' ')] on an array with [undefined] entries, which are
    joined as empty strings. *)
Definition array_join (sep : list N) (arr : list (option (list N))) : list N :=
  Js.join sep (map (default []) arr).

(** [getClassName(element)] *)
Definition getClassName (d : gmap nat Dom.node) (element : nat) : list N :=
  Js.trim
    (array_join [32]
       (map (public_name element) (Js.split_on 32 (Dom.className d element)))).

(** The function [setClassName] maps over the names: it returns the
    names of the test and nothing for the others. *)
Definition kept_name (element : nat) (name : list N) : option (list N) :=
  if is_internal_class element name then Some name else None.

(** The [goog.array.forEach] of [setClassName] over the pieces of the
    new class names: a piece is trimmed and, unless empty, added to the
    class list. [None] is the exception of [classList.add]. *)
Fixpoint add_class_names (d : gmap nat Dom.node) (element : nat)
    (names : list (list N)) : option (gmap nat Dom.node) :=
  match names with
  | [] => Some d
  | name :: rest =>
      match Js.trim name with
      | [] => add_class_names d element rest
      | c :: name' =>
          d ← Dom.classList_add_checked d element (c :: name');
          add_class_names d element rest
      end
  end.

(** [setClassName(element, opt_className)] *)
Definition setClassName (d : gmap nat Dom.node) (element : nat)
    (opt_className : jsval) : option (gmap nat Dom.node) :=
  let classNamesToKeep :=
    map (kept_name element) (Js.split_on 32 (Dom.className d element)) in
  let d :=
    Dom.setAttribute d element Dom.class_attr
      (array_join [32] classNamesToKeep) in
  if truthy opt_className
  then add_class_names d element (Js.split_on 32 (string_of opt_className))
  else Some d.

(** ** Properties and the image address *)

(** The test of [el.setAttribute] for the name it is given, a rule of
    the browser. *)
Variable attribute_name_ok : list N → bool.

(** [setProperty(element, propertyName, opt_propertyValue,
    opt_applyToContent)]. [None] is the exception of [setAttribute]. *)
Definition setProperty (d : gmap nat Dom.node) (element : nat)
    (propertyName : list N) (opt_propertyValue : jsval)
    (opt_applyToContent : bool) : option (gmap nat Dom.node) :=
  let element :=
    if opt_applyToContent then getContentNode d element else element in
  if isDefAndNotNull opt_propertyValue
  then Dom.setAttribute_checked attribute_name_ok d element propertyName
         (string_of opt_propertyValue)
  else Some (Dom.removeAttribute d element (Dom.ascii_lower propertyName)).

(** [getImageUrl(element)]: the address and the world with what was
    logged. The attribute [src] may be missing, and [null] is returned
    then. As in [setImageUrl] the branch of a falsy [img] is never
    entered. *)
Definition getImageUrl (w : world) (element : nat) : jsval * world :=
  if bool_decide (Dom.getAttribute (w_dom w) element TYPE_ATTR = Some TYPE_IMAGE)
  then
    let img := getContentNode (w_dom w) element in
    (match Dom.getAttribute (w_dom w) img (Js.lit "src") with
     | Some url => Str url
     | None => Null
     end, w)
  else (Str [], emit (ConsoleError msg_not_an_image element) w).

(** [silex.utils.Url.addUrlKeyword(url)], of another file *)
Variable Url_addUrlKeyword : list N → list N.

(** [setBgImage(element, url)]; the selection is set to itself to have
    the tools redrawn. *)
Definition setBgImage (w : world) (element : nat) (url : jsval) : world :=
  let w :=
    if truthy url
    then setStyle w element (Js.lit "backgroundImage")
           (Str (Url_addUrlKeyword (string_of url)))
    else setStyle w element (Js.lit "backgroundImage") Undefined in
  emit BodySetSelection w.

(** ** Words for the statements *)

(** A child that both sibling scans remember: it passes the test of a
    Silex element and is a candidate. *)
Definition visible_sibling (d : gmap nat Dom.node) (el : nat) : bool :=
  is_silex_element d el && is_candidate el.

(** The names [setClassName] adds for a text of class names: the pieces
    between single spaces, trimmed, the empty ones left out. *)
Definition new_class_names (className : list N) : list (list N) :=
  filter (λ t, t ≠ []) (map Js.trim (Js.split_on 32 className)).

End WithCollaborators.

End Element.

(* ================================================================== *)
(** * Concrete sessions *)
(* ================================================================== *)

Module Scenario.

Import Element.

(** An editor with no file open, no pages and nothing scrolled. No
    cache-control parameter is ever added to the texts of these
    sessions, so [removeCacheControl] finds nothing to strip. The body
    is node 0. *)
Definition no_file : Collab := {|
  file_getUrl := None;
  Url_getBaseUrl := Js.lit "http://localhost:6805/";
  Url_relative2Absolute := λ html _, html;
  Url_absolute2Relative := λ html _, html;
  Dom_removeCacheControl := λ html, html;
  Dom_CACHE_CONTROL_PARAM_NAME := Js.lit "silex-cache-control";
  goog_string_toSelectorCase := λ name, name;
  page_getPages := [];
  page_isInPage := λ _, false;
  page_getPagesForElement := λ _, [];
  property_getSilexId := λ _, None;
  body_getBodyElement := 0%nat;
  Style_SILEX_CLASS_NAMES := [];
  Stage_BACKGROUND_CLASS_NAME := Js.lit "background";
  Body_EDITABLE_CLASS_NAME := Js.lit "editable-style";
  stage_getScrollX := 0%Z;
  stage_getScrollY := 0%Z
|}.

(** A user script without a type attribute *)
Definition bare_script : list N :=
  Js.lit "<script " ++ script_class ++ Js.lit ">".

(** ** A page with four siblings *)

Definition page1 : list N := Js.lit "page1".
Definition page2 : list N := Js.lit "page2".

(** The pages of the four siblings, as the page registry reports them:
    A (node 2) is on page1, B (node 3) on page1 and page2, C (node 4) on
    no page, D (node 5) on page1. *)
Definition pages_of (el : nat) : list (list N) :=
  match el with
  | 2 => [page1]
  | 3 => [page1; page2]
  | 5 => [page1]
  | _ => []
  end%nat.

(** The editor with two pages, page1 open: an element is in the open
    page when page1 is among its pages. *)
Definition paged : Collab := {|
  file_getUrl := None;
  Url_getBaseUrl := Js.lit "http://localhost:6805/";
  Url_relative2Absolute := λ html _, html;
  Url_absolute2Relative := λ html _, html;
  Dom_removeCacheControl := λ html, html;
  Dom_CACHE_CONTROL_PARAM_NAME := Js.lit "silex-cache-control";
  goog_string_toSelectorCase := λ name, name;
  page_getPages := [page1; page2];
  page_isInPage := λ el, bool_decide (page1 ∈ pages_of el);
  page_getPagesForElement := pages_of;
  property_getSilexId := λ el,
    match el with
    | 2 => Some (Js.lit "silex-id-2")
    | _ => None
    end%nat;
  body_getBodyElement := 0%nat;
  Style_SILEX_CLASS_NAMES := [Js.lit "editable-style"; Js.lit "silex-selected"];
  Stage_BACKGROUND_CLASS_NAME := Js.lit "background";
  Body_EDITABLE_CLASS_NAME := Js.lit "editable-style";
  stage_getScrollX := 0%Z;
  stage_getScrollY := 0%Z
|}.

Definition silex_div (type class : list N) (parent : nat)
    (children : list nat) : Dom.node :=
  Dom.Node 1 (Js.lit "div")
    [(TYPE_ATTR, type); (Dom.class_attr, class)] [] (Some parent) children.

(** The body (node 0) holds a container (node 1) whose children are A,
    B, C and D in this order. *)
Definition four_siblings : gmap nat Dom.node :=
  list_to_map [
    (0, Dom.Node 1 (Js.lit "body") [] [] None [1]);
    (1, silex_div TYPE_CONTAINER (Js.lit "background") 0 [2; 3; 4; 5]);
    (2, silex_div TYPE_TEXT (Js.lit "editable-style page1 silex-id-2 big") 1 []);
    (3, silex_div TYPE_TEXT (Js.lit "page1 page2") 1 []);
    (4, silex_div TYPE_IMAGE (Js.lit "") 1 []);
    (5, silex_div TYPE_HTML (Js.lit "a page1 b") 1 [])
  ]%nat.

Definition four_siblings_world : world :=
  World four_siblings 6 ∅ [] [].

(** ** Styles *)

Definition color : list N := Js.lit "color".
Definition red : list N := Js.lit "red".

(** Sibling B already has the color red in the property store. *)
Definition already_red : world :=
  World four_siblings 6 {[ 3%nat := {[ color := red ]} ]} [] [].

(** The color of sibling B was cleared: the store holds the empty
    string for it. *)
Definition cleared_color : world :=
  World four_siblings 6 {[ 3%nat := {[ color := [] ]} ]} [] [].

(** ** Class attributes *)

(** One element whose class attribute is a tab followed by the name of
    a page. *)
Definition tabbed : gmap nat Dom.node :=
  {[ 0%nat := Dom.Node 1 (Js.lit "div")
                [(Dom.class_attr, 9 :: page1)] [] None [] ]}.

(** ** Two loads of one image element *)

(** The scenario after [createElement('image')]: the new element is
    node 6, the last child of the container. *)
Definition image_world : world :=
  default four_siblings_world
    (snd <$> createElement paged four_siblings_world TYPE_IMAGE).

(** [setImageUrl] is called twice on the new element before any image
    arrives; the loaders fetch the images 7 and 8 and will call back 1
    and 2. *)
Definition two_loads : world :=
  setImageUrl
    (setImageUrl image_world 6 (Js.lit "a.png") (Some 1%nat) None)
    6 (Js.lit "b.png") (Some 2%nat) None.

(** The image of the second call arrives first. *)
Definition second_loaded : world :=
  default two_loads (load_completes two_loads 1).

(** Then the image of the first call arrives. *)
Definition first_loaded_late : world :=
  default second_loaded (load_completes second_loaded 0).

(** ** The browser and the URL helper of the sessions *)

(** The name test of [setAttribute] in the DOM standard: a name is not
    empty and holds no ASCII whitespace, no NUL, and none of [/], [=]
    and [>]. *)
Definition attribute_name_ok (name : list N) : bool :=
  negb (bool_decide (name = []))
  && forallb (λ c, negb (Js.is_ascii_whitespace c || (c =? 0) || (c =? 47)
                         || (c =? 61) || (c =? 62))) name.

(** [addUrlKeyword] wraps an address in the [url(...)] of CSS. *)
Definition addUrlKeyword (url : list N) : list N :=
  Js.lit "url('" ++ url ++ Js.lit "')".

End Scenario.

(* ================================================================== *)
(** * Properties of the string functions *)
(* ================================================================== *)

Section RegexFacts.

Import Regex.

Lemma starts_with_ci_app (a b s : list N) :
  Js.starts_with_ci (a ++ b) s = true →
  Js.starts_with_ci a s = true
  ∧ Js.starts_with_ci b (drop (length a) s) = true.
Proof.
  revert s. induction a as [|x a IH]; intros s H; simpl in *.
  - by rewrite drop_0.
  - destruct s as [|c s]; [done|].
    apply andb_true_iff in H as [Hc H]. apply IH in H as [H1 H2].
    by rewrite Hc, H1.
Qed.

Lemma includes_ci_cons (p s : list N) (c : N) :
  Js.includes_ci p s = true → Js.includes_ci p (c :: s) = true.
Proof.
  intros H. cbn [Js.includes_ci]. rewrite H. apply orb_true_r.
Qed.

Lemma includes_ci_drop (p s : list N) (n : nat) :
  Js.includes_ci p (drop n s) = true → Js.includes_ci p s = true.
Proof.
  revert s. induction n as [|n IH]; intros s H.
  - by rewrite drop_0 in H.
  - destruct s as [|c s]; [done|]. simpl in H.
    apply includes_ci_cons. by apply IH.
Qed.

Lemma includes_ci_start (p s : list N) :
  Js.starts_with_ci p s = true → Js.includes_ci p s = true.
Proof. intros H. destruct s; cbn [Js.includes_ci]; by rewrite H. Qed.

(** A text that holds [a ++ b ++ c] holds [b]. *)
Lemma includes_ci_middle (a b c s : list N) :
  Js.includes_ci (a ++ b ++ c) s = true → Js.includes_ci b s = true.
Proof.
  induction s as [|x s IH]; intros H.
  - cbn [Js.includes_ci] in H. rewrite orb_false_r in H.
    apply starts_with_ci_app in H as [_ H].
    apply starts_with_ci_app in H as [H _].
    rewrite drop_nil in H. by apply includes_ci_start.
  - cbn [Js.includes_ci] in H. apply orb_true_iff in H as [H|H].
    + apply starts_with_ci_app in H as [_ H].
      apply starts_with_ci_app in H as [H _].
      apply includes_ci_start in H. by apply includes_ci_drop in H.
    + apply includes_ci_cons. by apply IH.
Qed.

(** Pattern characters match what [starts_with_ci] accepts. *)
Lemma match_chars_ci (l : list N) (r : list item) (s x : list N) :
  match_items true (chars l ++ r) s = Some x →
  Js.starts_with_ci l s = true
  ∧ match_items true r (drop (length l) s) = Some x.
Proof.
  revert s. induction l as [|p l IH]; intros s H; simpl in *.
  - by rewrite drop_0.
  - destruct s as [|c s]; [done|].
    destruct (Js.canon p =? Js.canon c) eqn:Hc; [|done].
    apply IH in H as [H1 H2]. by rewrite H1.
Qed.

(** Whatever a greedy star gives, its continuation gave on a suffix. *)
Lemma star_greedy_suffix p k (s x : list N) :
  star_greedy p k s = Some x → ∃ n, k (drop n s) = Some x.
Proof.
  induction s as [|c s IH]; simpl; intros H.
  - by exists O.
  - destruct (p c).
    + destruct (star_greedy p k s) eqn:Hs.
      * destruct (IH H) as [n Hn]. by exists (S n).
      * by exists O.
    + by exists O.
Qed.

Lemma test_false_cons (re : regex) (c : N) (s : list N) :
  test re (c :: s) = false → match_at re (c :: s) = None ∧ test re s = false.
Proof. cbn [test]. destruct (match_at re (c :: s)); [done|]. done. Qed.

(** A global replacement changes nothing where the pattern matches
    nowhere. *)
Lemma replace_from_no_match (re : regex) (repl seen s : list N) :
  test re s = false → replace_from re repl seen s O = s.
Proof.
  revert seen. induction s as [|c s IH]; intros seen H.
  - cbn [test] in H. cbn [replace_from].
    destruct (match_at re []); [done|done].
  - apply test_false_cons in H as [Hm Ht].
    cbn [replace_from]. rewrite Hm. by rewrite IH.
Qed.

Lemma replace_no_match (re : regex) (repl s : list N) :
  test re s = false → replace re repl s = s.
Proof. apply replace_from_no_match. Qed.

End RegexFacts.

(* ================================================================== *)
(** * The two HTML transforms *)
(* ================================================================== *)

Section Transforms.

Import Regex Element.

Lemma test_true_drop (re : regex) (s : list N) :
  test re s = true → ∃ n x, match_at re (drop n s) = Some x.
Proof.
  induction s as [|c s IH]; cbn [test]; intros H.
  - destruct (match_at re []) as [x|] eqn:Hm; [|done]. by exists O, x.
  - destruct (match_at re (c :: s)) as [x|] eqn:Hm.
    + by exists O, x.
    + destruct (IH H) as (n & x & Hx). by exists (S n), x.
Qed.

(** The pattern of [unprepareHtmlForEdit] matches only where the text
    holds the disabled type attribute, whatever the letter case. *)
Lemma notjavascript_re_includes (s : list N) :
  test notjavascript_re s = true →
  Js.includes_ci type_notjavascript s = true.
Proof.
  intros H. apply test_true_drop in H as (n & x & H).
  unfold match_at in H.
  change (items notjavascript_re) with (chars type_notjavascript) in H.
  rewrite <- (app_nil_r (chars type_notjavascript)) in H.
  apply match_chars_ci in H as [H _].
  apply includes_ci_start in H. by apply includes_ci_drop in H.
Qed.

Lemma notjavascript_free (s : list N) :
  Js.includes_ci (Js.lit "notjavascript") s = false →
  test notjavascript_re s = false.
Proof.
  intros H. destruct (test notjavascript_re s) eqn:Ht; [|done].
  apply notjavascript_re_includes in Ht.
  change type_notjavascript
    with ((Js.lit "type=" ++ [Js.dq] ++ Js.lit "text/")
          ++ Js.lit "notjavascript" ++ [Js.dq]) in Ht.
  apply includes_ci_middle in Ht. congruence.
Qed.

(** The pattern of [prepareHtmlForEdit] matches only in a text that
    holds the marker class of user scripts. *)
Lemma script_re_includes (s : list N) :
  test script_re s = true → Js.includes_ci script_class s = true.
Proof.
  intros H. apply test_true_drop in H as (n & x & H).
  unfold match_at in H.
  change (items script_re)
    with (chars (Js.lit "<script")
          ++ (StarGreedy Dot
              :: chars script_class ++ [StarLazy Dot] ++ chars (Js.lit ">")))
    in H.
  apply match_chars_ci in H as [_ H]. cbn [match_items] in H.
  apply star_greedy_suffix in H as [m H].
  apply match_chars_ci in H as [H _].
  apply includes_ci_start in H.
  by do 3 apply includes_ci_drop in H.
Qed.

Lemma script_class_free (s : list N) :
  Js.includes_ci script_class s = false → test script_re s = false.
Proof.
  intros H. destruct (test script_re s) eqn:Ht; [|done].
  apply script_re_includes in Ht. congruence.
Qed.

Lemma substitution_plain (before matched after repl : list N) :
  plain repl → substitution before matched after repl = repl.
Proof.
  induction 1 as [|c repl Hc _ IH]; [done|].
  cbn [substitution]. rewrite IH.
  destruct c as [|p]; [done|].
  do 6 (destruct p as [p|p|]; try done).
Qed.

Lemma replace_from_seen (re : regex) (repl seen seen' s : list N) (k : nat) :
  plain repl →
  replace_from re repl seen s k = replace_from re repl seen' s k.
Proof.
  intros Hp. revert seen seen' k.
  induction s as [|c s IH]; intros seen seen' k; cbn [replace_from].
  - destruct k; [|done]. destruct (match_at re []); [|done].
    by rewrite !substitution_plain.
  - destruct k as [|k]; [|apply IH].
    destruct (match_at re (c :: s)) as [rest|]; [|by rewrite (IH _ (c :: seen'))].
    rewrite !substitution_plain by done.
    destruct (length (c :: s) - length rest)%nat;
      by rewrite (IH _ (c :: seen')).
Qed.

Lemma star_greedy_length p k (s x : list N) :
  (∀ s0 x0, k s0 = Some x0 → (length x0 ≤ length s0)%nat) →
  star_greedy p k s = Some x → (length x ≤ length s)%nat.
Proof.
  intros Hk. induction s as [|c s IH]; simpl; [apply Hk|].
  destruct (p c); [|apply Hk].
  destruct (star_greedy p k s) as [r|].
  - intros [= <-]. specialize (IH eq_refl). lia.
  - apply Hk.
Qed.

Lemma star_lazy_length p k (s x : list N) :
  (∀ s0 x0, k s0 = Some x0 → (length x0 ≤ length s0)%nat) →
  star_lazy p k s = Some x → (length x ≤ length s)%nat.
Proof.
  intros Hk. induction s as [|c s IH]; simpl.
  - destruct (k []) eqn:Hk0; [|done]. intros [= <-]. by apply Hk in Hk0.
  - destruct (k (c :: s)) eqn:Hk0.
    + intros [= <-]. by apply Hk in Hk0.
    + destruct (p c); [|done]. intros H. specialize (IH H). lia.
Qed.

(** What follows a match is no longer than the text. *)
Lemma match_items_length (ic : bool) (r : list item) (s x : list N) :
  match_items ic r s = Some x → (length x ≤ length s)%nat.
Proof.
  revert s x. induction r as [|it r IH]; intros s x; cbn [match_items].
  - by intros [= <-].
  - destruct it as [a|a|a].
    + destruct s as [|c s]; [done|]. destruct (atom_match ic a c); [|done].
      intros H. apply IH in H. simpl. lia.
    + by apply star_greedy_length.
    + by apply star_lazy_length.
Qed.

Lemma plain_script_disabled : plain script_disabled.
Proof. repeat constructor; done. Qed.

Lemma plain_script_enabled : plain script_enabled.
Proof. repeat constructor; done. Qed.

Lemma plain_type_javascript : plain type_javascript.
Proof. repeat constructor; done. Qed.

Lemma replace_from_copy (re : regex) (repl seen s : list N) (c : N) :
  match_at re (c :: s) = None →
  replace_from re repl seen (c :: s) 0 = c :: replace_from re repl (c :: seen) s 0.
Proof. intros H. cbn [replace_from]. by rewrite H. Qed.

Lemma replace_from_skip (re : regex) (repl seen s : list N) (c : N) (k : nat) :
  replace_from re repl seen (c :: s) (S k) = replace_from re repl (c :: seen) s k.
Proof. reflexivity. Qed.

Lemma replace_from_match (re : regex) (repl seen s rest : list N) (c : N)
    (m : nat) :
  plain repl →
  match_at re (c :: s) = Some rest →
  (length (c :: s) - length rest = S m)%nat →
  replace_from re repl seen (c :: s) 0
  = repl ++ replace_from re repl (c :: seen) s m.
Proof.
  intros Hp H Hn. cbn [replace_from]. rewrite H. cbv zeta. rewrite Hn.
  by rewrite substitution_plain.
Qed.

(** A text the script pattern matches at its start is longer than what
    follows the match. *)
Lemma script_re_consumes (c : N) (s rest : list N) :
  match_at script_re (c :: s) = Some rest →
  ∃ m, (length (c :: s) - length rest = S m)%nat.
Proof.
  unfold match_at.
  change (items script_re)
    with (One (Chr 60)
          :: chars (Js.lit "script")
             ++ (StarGreedy Dot
                 :: chars script_class ++ [StarLazy Dot]
                    ++ chars (Js.lit ">"))).
  cbn [match_items]. destruct (atom_match _ _ c); [|done].
  intros H. apply match_items_length in H.
  exists (length s - length rest)%nat. simpl. lia.
Qed.

(** The disabled tag starts with [<], which no character of the
    pattern of [unprepareHtmlForEdit] matches. *)
Lemma starts_with_ci_through_prepare (Q seen s : list N) :
  Forall (λ q, Js.canon q ≠ 60) Q →
  Js.starts_with_ci Q (replace_from script_re script_disabled seen s 0) = true →
  Js.starts_with_ci Q s = true.
Proof.
  intros HQ. revert seen s.
  induction HQ as [|q Q Hq _ IH]; intros seen s; [done|].
  destruct s as [|c s]; [done|]. cbn [replace_from].
  destruct (match_at script_re (c :: s)) as [rest|] eqn:Hm.
  - cbv zeta. rewrite substitution_plain by apply plain_script_disabled.
    assert (Hhead : ∀ Y, Js.starts_with_ci (q :: Q) (script_disabled ++ Y)
                         = false).
    { intros Y. change (script_disabled ++ Y)
        with (60 :: (tail script_disabled ++ Y)).
      cbn [Js.starts_with_ci].
      change (Js.canon 60) with 60.
      by rewrite (proj2 (N.eqb_neq _ _) Hq). }
    destruct (length (c :: s) - length rest)%nat; by rewrite Hhead.
  - cbn [Js.starts_with_ci]. intros H.
    apply andb_true_iff in H as [-> H]. by apply IH in H.
Qed.

Lemma no_lt_in_type_notjavascript :
  Forall (λ q, Js.canon q ≠ 60) type_notjavascript.
Proof. repeat constructor; done. Qed.

(** [unprepareHtmlForEdit] meets a disabled tag: it enables it. *)
Lemma unprepare_disabled_tag (seen X : list N) :
  replace_from notjavascript_re type_javascript seen (script_disabled ++ X) 0
  = script_enabled ++ replace_from notjavascript_re type_javascript [] X 0.
Proof.
  let t := eval cbv in script_disabled in change script_disabled with t.
  cbn [app].
  do 8 (rewrite replace_from_copy by reflexivity).
  assert (Hl : length (Js.lit " " ++ script_class ++ Js.lit ">" ++ X)
               = (22 + length X)%nat)
    by (rewrite !app_assoc, length_app; reflexivity).
  rewrite (replace_from_match _ _ _ _
             (Js.lit " " ++ script_class ++ Js.lit ">" ++ X) _ 24);
    [|apply plain_type_javascript|reflexivity|cbn [length]; rewrite Hl; lia].
  do 24 (rewrite replace_from_skip).
  do 22 (rewrite replace_from_copy by reflexivity).
  rewrite (replace_from_seen _ _ _ []) by apply plain_type_javascript.
  reflexivity.
Qed.

(** Enabling after disabling is rewriting every user script tag to the
    enabled tag, in a text without the disabled type attribute. *)
Lemma unprepare_prepare_scripts (s seen1 seen2 seen3 : list N) (k : nat) :
  Js.includes_ci type_notjavascript s = false →
  replace_from notjavascript_re type_javascript seen2
    (replace_from script_re script_disabled seen1 s k) 0
  = replace_from script_re script_enabled seen3 s k.
Proof.
  revert seen1 seen2 seen3 k.
  induction s as [|c s IH]; intros seen1 seen2 seen3 k Hfree.
  - cbn [replace_from].
    change (match_at script_re []) with (@None (list N)).
    by destruct k.
  - cbn [Js.includes_ci] in Hfree.
    apply orb_false_iff in Hfree as [Hstart Hfree].
    destruct k as [|k]; [|cbn [replace_from]; by apply IH].
    assert (Hnone : match_at notjavascript_re
                      (replace_from script_re script_disabled seen1 (c :: s) 0)
                    = None).
    { destruct (match_at notjavascript_re _) as [x|] eqn:Hm; [|done].
      unfold match_at in Hm.
      change (items notjavascript_re) with (chars type_notjavascript) in Hm.
      rewrite <- (app_nil_r (chars type_notjavascript)) in Hm.
      apply match_chars_ci in Hm as [Hm _].
      apply starts_with_ci_through_prepare in Hm;
        [congruence|apply no_lt_in_type_notjavascript]. }
    destruct (match_at script_re (c :: s)) as [rest|] eqn:Hm.
    + destruct (script_re_consumes c s rest Hm) as [m Hn].
      rewrite (replace_from_match script_re script_disabled _ _ rest _ m)
        by (done || apply plain_script_disabled).
      rewrite (replace_from_match script_re script_enabled _ _ rest _ m)
        by (done || apply plain_script_enabled).
      rewrite unprepare_disabled_tag. f_equal. by apply IH.
    + rewrite (replace_from_copy script_re) in Hnone |- * by done.
      rewrite (replace_from_copy script_re) by done.
      rewrite replace_from_copy by done. f_equal. by apply IH.
Qed.

Lemma prepare_without_scripts (E : Collab) (h : list N) :
  test script_re h = false →
  prepareHtmlForEdit E h =
    if has_url E
    then Url_relative2Absolute E h (Url_getBaseUrl E ++ file_url E)
    else h.
Proof. intros H. unfold prepareHtmlForEdit. by rewrite replace_no_match. Qed.

(** C1, as amended: for a text without the [notjavascript] token (in
    any letter case), [prepareHtmlForEdit] followed by
    [unprepareHtmlForEdit] does not give the text back but the text
    with every match of the script pattern rewritten to the enabled
    tag, passed through [removeCacheControl] (this is for an editor
    with no file open). The text itself comes back when the script
    pattern matches nowhere in it and it holds no cache-control
    parameter; with a file open this needs the URL helpers of
    [silex.utils.Url] to undo each other on the text, and the text to
    hold nothing the static-path pattern matches. *)
Theorem roundtrip_up_to_user_scripts (E : Collab) (h : list N) :
  Js.includes_ci (Js.lit "notjavascript") h = false →
  (has_url E = false →
   unprepareHtmlForEdit E (prepareHtmlForEdit E h)
   = Dom_removeCacheControl E (replace script_re script_enabled h))
  ∧ (removeCacheControl_spec E →
     Js.includes (Dom_CACHE_CONTROL_PARAM_NAME E) h = false →
     test script_re h = false →
     (has_url E = true → url_helpers_invert E h ∧ test static_re h = false) →
     unprepareHtmlForEdit E (prepareHtmlForEdit E h) = h).
Proof.
  intros Hnjs. split.
  - intros Hu. unfold unprepareHtmlForEdit, prepareHtmlForEdit.
    rewrite Hu. f_equal. apply unprepare_prepare_scripts.
    destruct (Js.includes_ci type_notjavascript h) eqn:Hin; [|done].
    change type_notjavascript
      with ((Js.lit "type=" ++ [Js.dq] ++ Js.lit "text/")
            ++ Js.lit "notjavascript" ++ [Js.dq]) in Hin.
    apply includes_ci_middle in Hin. congruence.
  - intros Hrcc Hcache Hscript Hurl.
    rewrite prepare_without_scripts by done.
    unfold unprepareHtmlForEdit.
    destruct (has_url E) eqn:Hu.
    + destruct (Hurl eq_refl) as [(Ha & Hc & Hinv) Hstatic].
      rewrite (replace_no_match notjavascript_re)
        by by apply notjavascript_free.
      rewrite Hrcc by done. rewrite Hinv. by apply replace_no_match.
    + rewrite (replace_no_match notjavascript_re)
        by by apply notjavascript_free.
      by apply Hrcc.
Qed.

(** In an editor with no file, a paragraph comes back as it is and a
    user script without a type comes back with one. *)
Lemma roundtrip_up_to_user_scripts_witness :
  unprepareHtmlForEdit Scenario.no_file
    (prepareHtmlForEdit Scenario.no_file (Js.lit "<p>hello</p>"))
  = Js.lit "<p>hello</p>"
  ∧ unprepareHtmlForEdit Scenario.no_file
      (prepareHtmlForEdit Scenario.no_file Scenario.bare_script)
    = script_enabled.
Proof.
  split.
  - destruct (roundtrip_up_to_user_scripts Scenario.no_file
                (Js.lit "<p>hello</p>")) as [_ H].
    + vm_compute. reflexivity.
    + apply H.
      * intros html _. reflexivity.
      * vm_compute. reflexivity.
      * vm_compute. reflexivity.
      * intros Hu. vm_compute in Hu. discriminate Hu.
  - destruct (roundtrip_up_to_user_scripts Scenario.no_file
                Scenario.bare_script) as [H _].
    + vm_compute. reflexivity.
    + rewrite H by (vm_compute; reflexivity). vm_compute. reflexivity.
Defined.

(** With no file open a user script without a type attribute never
    comes back as it was, whatever [removeCacheControl] is, as long as
    it leaves the enabled tag, which holds no query parameter, alone. *)
Lemma bare_script_comes_back_typed (E : Collab) :
  has_url E = false →
  Dom_removeCacheControl E script_enabled = script_enabled →
  unprepareHtmlForEdit E (prepareHtmlForEdit E Scenario.bare_script)
  = script_enabled.
Proof.
  intros Hu Hrcc. unfold unprepareHtmlForEdit, prepareHtmlForEdit.
  rewrite Hu.
  change (replace script_re script_disabled Scenario.bare_script)
    with script_disabled.
  change (replace notjavascript_re type_javascript script_disabled)
    with script_enabled.
  exact Hrcc.
Qed.

(** C1 fails for a user script without a type attribute: the tag holds
    neither marker, [prepareHtmlForEdit] rewrites it to the disabled
    tag, and [unprepareHtmlForEdit] gives the tag with the type of a
    script that runs, not the tag it started from. *)
Lemma roundtrip_counterexample :
  Js.includes_ci (Js.lit "notjavascript") Scenario.bare_script = false
  ∧ Js.includes (Dom_CACHE_CONTROL_PARAM_NAME Scenario.no_file)
      Scenario.bare_script = false
  ∧ prepareHtmlForEdit Scenario.no_file Scenario.bare_script = script_disabled
  ∧ unprepareHtmlForEdit Scenario.no_file
      (prepareHtmlForEdit Scenario.no_file Scenario.bare_script)
    = script_enabled
  ∧ unprepareHtmlForEdit Scenario.no_file
      (prepareHtmlForEdit Scenario.no_file Scenario.bare_script)
    ≠ Scenario.bare_script.
Proof. vm_compute. repeat split; try reflexivity. discriminate. Qed.

(** ** The patterns at work *)

(** The first star of the script pattern is greedy: two marked tags on
    one line are one match, and what stands between them is lost. *)
Example script_pattern_is_greedy :
  prepareHtmlForEdit Scenario.no_file
    (Scenario.bare_script ++ Js.lit "a</script><div " ++ script_class
     ++ Js.lit ">b</div>")
  = script_disabled ++ Js.lit "b</div>".
Proof. vm_compute. reflexivity. Qed.

(** The dot does not cross a line break. *)
Example script_pattern_stays_on_the_line :
  prepareHtmlForEdit Scenario.no_file
    (Js.lit "<script" ++ [10] ++ script_class ++ Js.lit ">")
  = Js.lit "<script" ++ [10] ++ script_class ++ Js.lit ">".
Proof. vm_compute. reflexivity. Qed.

(** Letter case is ignored, and the other attributes of the tag go. *)
Example script_pattern_ignores_case :
  prepareHtmlForEdit Scenario.no_file
    (Js.lit "<SCRIPT CLASS=" ++ [Js.dq] ++ Js.lit "SILEX-SCRIPT" ++ [Js.dq]
     ++ Js.lit " SRC=x>")
  = script_disabled.
Proof. vm_compute. reflexivity. Qed.

(** The static-path pattern: any two characters before each of the
    five slashes will do. *)
Example static_pattern_wildcards :
  replace static_re (Js.lit "//host/static/")
    (Js.lit "ab/cd/ef/gh/ij/static/x.js")
  = Js.lit "//host/static/x.js"
  ∧ replace static_re (Js.lit "//host/static/")
      (Js.lit "../../../../../../../static/x.js")
    = Js.lit "//host/static/x.js"
  ∧ replace static_re (Js.lit "//host/static/")
      (Js.lit "../../../../static/x.js")
    = Js.lit "../../../../static/x.js".
Proof. vm_compute. repeat split; reflexivity. Qed.

End Transforms.

(* ================================================================== *)
(** * Attributes, links and removal *)
(* ================================================================== *)

Section Attributes.

Import Element.

Lemma attr_get_remove (name : list N) (l : list (list N * list N)) :
  Dom.attr_get name (Dom.attr_remove name l) = None.
Proof.
  induction l as [|[k v] l IH]; simpl; [done|].
  destruct (Js.eqs k name) eqn:Hk; [done|]. simpl. by rewrite Hk.
Qed.

Lemma attr_get_remove_ne (name other : list N) (l : list (list N * list N)) :
  other ≠ name →
  Dom.attr_get name (Dom.attr_remove other l) = Dom.attr_get name l.
Proof.
  intros Hne. induction l as [|[k v] l IH]; simpl; [done|].
  unfold Js.eqs. destruct (decide (k = other)) as [->|Hk].
  - rewrite bool_decide_eq_true_2 by done.
    by rewrite (bool_decide_eq_false_2 (other = name)) by done.
  - rewrite (bool_decide_eq_false_2 (k = other)) by done. simpl.
    unfold Js.eqs. by destruct (bool_decide (k = name)).
Qed.

Lemma attr_get_set (name value : list N) (l : list (list N * list N)) :
  Dom.attr_get name (Dom.attr_set name value l) = Some value.
Proof.
  induction l as [|[k v] l IH]; simpl.
  - unfold Js.eqs. by rewrite bool_decide_eq_true_2.
  - destruct (Js.eqs k name) eqn:Hk; simpl; by rewrite Hk.
Qed.

Lemma attr_get_set_ne (name other value : list N) (l : list (list N * list N)) :
  other ≠ name →
  Dom.attr_get name (Dom.attr_set other value l) = Dom.attr_get name l.
Proof.
  intros Hne. induction l as [|[k v] l IH]; simpl.
  - unfold Js.eqs. by rewrite bool_decide_eq_false_2.
  - unfold Js.eqs. destruct (decide (k = other)) as [->|Hk].
    + rewrite bool_decide_eq_true_2 by done. simpl. unfold Js.eqs.
      by rewrite !(bool_decide_eq_false_2 (other = name)) by done.
    + rewrite (bool_decide_eq_false_2 (k = other)) by done. simpl.
      unfold Js.eqs. by destruct (bool_decide (k = name)).
Qed.

Lemma getAttribute_removeAttribute d el name :
  Dom.getAttribute (Dom.removeAttribute d el name) el name = None.
Proof.
  unfold Dom.getAttribute, Dom.removeAttribute.
  rewrite lookup_alter_eq. destruct (d !! el) as [n|]; simpl; [|done].
  apply attr_get_remove.
Qed.

Lemma getAttribute_setAttribute d el name value :
  is_Some (d !! el) →
  Dom.getAttribute (Dom.setAttribute d el name value) el name = Some value.
Proof.
  intros [n Hn]. unfold Dom.getAttribute, Dom.setAttribute.
  rewrite lookup_alter_eq, Hn. simpl. apply attr_get_set.
Qed.

(** C10: [setLink] with the empty string takes the branch of [null]:
    the link attribute is removed, and [getLink] then returns [null]. *)
Theorem setLink_empty_clears (d : gmap nat Dom.node) (element : nat) :
  setLink d element (Str []) = Dom.removeAttribute d element LINK_ATTR
  ∧ setLink d element (Str []) = setLink d element Null
  ∧ Dom.getAttribute (setLink d element (Str [])) element LINK_ATTR = None
  ∧ getLink (setLink d element (Str [])) element = None.
Proof.
  repeat split; try reflexivity; apply getAttribute_removeAttribute.
Qed.

(** C8: on an element whose type attribute is not that of an image,
    [setImageUrl] changes neither the document nor the style store,
    starts no loader, logs the error and calls the error callback, when
    there is one, with the element and the message. *)
Theorem setImageUrl_not_an_image (w : world) (element : nat)
    (url : list N) (opt_callback opt_errorCallback : option nat) :
  Dom.getAttribute (w_dom w) element TYPE_ATTR ≠ Some TYPE_IMAGE →
  let w' := setImageUrl w element url opt_callback opt_errorCallback in
  w_dom w' = w_dom w
  ∧ w_fresh w' = w_fresh w
  ∧ w_styles w' = w_styles w
  ∧ w_loaders w' = w_loaders w
  ∧ w_trace w'
    = match opt_errorCallback with
      | Some f => [ErrorCallback f element msg_not_an_image]
      | None => []
      end ++ ConsoleError msg_not_an_image element :: w_trace w.
Proof.
  intros Hty. unfold setImageUrl. rewrite bool_decide_eq_false_2 by done.
  by destruct opt_errorCallback.
Qed.

(** Sibling B of the scenario is a text box, not an image. *)
Lemma setImageUrl_not_an_image_witness :
  w_dom (setImageUrl Scenario.four_siblings_world 3 (Js.lit "a.png")
           None (Some 7%nat))
  = Scenario.four_siblings
  ∧ w_trace (setImageUrl Scenario.four_siblings_world 3 (Js.lit "a.png")
               None (Some 7%nat))
    = [ErrorCallback 7 3 msg_not_an_image; ConsoleError msg_not_an_image 3].
Proof.
  destruct (setImageUrl_not_an_image Scenario.four_siblings_world 3
              (Js.lit "a.png") None (Some 7%nat)) as (Hd & _ & _ & _ & Ht).
  - vm_compute. discriminate.
  - by split.
Defined.

End Attributes.

(* ================================================================== *)
(** * The sibling scans *)
(* ================================================================== *)

Section Siblings.

Import Element.

Lemma scan_step (E : Collab) d element el l res :
  is_silex_element d el = true → el ≠ element →
  scan E d element (el :: l) res
  = scan E d element l (if is_candidate E el then Some el else res).
Proof. intros Hs Hne. simpl. rewrite Hs. by destruct (decide (el = element)). Qed.

Lemma scan_found (E : Collab) d element l res :
  is_silex_element d element = true →
  scan E d element (element :: l) res = res.
Proof. intros Hs. simpl. rewrite Hs. by destruct (decide (element = element)). Qed.

(** C2, as amended: with the children A on page1, B on page1 and page2,
    C on no page and D on page1, in this order, and page1 open, the
    element after A is B, the element before D is C (an element on no
    page is visible everywhere and is a candidate), and nothing comes
    after D. *)
Theorem visible_siblings_of_four (E : Collab) (d : gmap nat Dom.node)
    (p A B C D : nat) (page1 page2 : list N) :
  NoDup [A; B; C; D] →
  Dom.children d p = [A; B; C; D] →
  Dom.parent d A = Some p →
  Dom.parent d D = Some p →
  Forall (λ el, is_silex_element d el = true) [A; B; C; D] →
  page_getPagesForElement E A = [page1] →
  page_getPagesForElement E B = [page1; page2] →
  page_getPagesForElement E C = [] →
  page_getPagesForElement E D = [page1] →
  (∀ el, page_isInPage E el
         = bool_decide (page1 ∈ page_getPagesForElement E el)) →
  getNextElement E d A = Some (Some B)
  ∧ getPreviousElement E d D = Some (Some C)
  ∧ getNextElement E d D = Some None.
Proof.
  intros Hnd Hch HpA HpD Hsilex HA HB HC HD Hin.
  assert (A ≠ B ∧ A ≠ C ∧ A ≠ D ∧ B ≠ C ∧ B ≠ D ∧ C ≠ D)
    as (HAB & HAC & HAD & HBC & HBD & HCD).
  { rewrite !NoDup_cons, !elem_of_cons in Hnd.
    destruct Hnd as (H1 & H2 & H3 & _).
    repeat split; intros Heq;
      [apply H1|apply H1|apply H1|apply H2|apply H2|apply H3]; auto. }
  apply Forall_cons in Hsilex as [HsA Hsilex].
  apply Forall_cons in Hsilex as [HsB Hsilex].
  apply Forall_cons in Hsilex as [HsC Hsilex].
  apply Forall_cons in Hsilex as [HsD _].
  assert (HcB : is_candidate E B = true).
  { unfold is_candidate. rewrite Hin, HB.
    rewrite bool_decide_eq_true_2; [done|]. left. }
  assert (HcC : is_candidate E C = true).
  { unfold is_candidate. rewrite HC. simpl. apply orb_true_r. }
  unfold getNextElement, getPreviousElement.
  rewrite HpA, HpD. simpl. rewrite Hch. repeat split; f_equal.
  - change (rev [A; B; C; D]) with [D; C; B; A].
    rewrite scan_step by naive_solver.
    rewrite scan_step by naive_solver. rewrite HcC.
    rewrite scan_step by naive_solver. rewrite HcB.
    by rewrite scan_found.
  - rewrite scan_step by naive_solver.
    rewrite scan_step by naive_solver.
    rewrite scan_step by naive_solver. rewrite HcC.
    by rewrite scan_found.
  - change (rev [A; B; C; D]) with [D; C; B; A].
    by rewrite scan_found.
Qed.

(** The four siblings of the scenario satisfy the premises. *)
Lemma visible_siblings_of_four_witness :
  getNextElement Scenario.paged Scenario.four_siblings 2 = Some (Some 3%nat)
  ∧ getPreviousElement Scenario.paged Scenario.four_siblings 5
    = Some (Some 4%nat)
  ∧ getNextElement Scenario.paged Scenario.four_siblings 5 = Some None.
Proof.
  apply (visible_siblings_of_four Scenario.paged Scenario.four_siblings
           1 2 3 4 5 Scenario.page1 Scenario.page2)%nat.
  - repeat (constructor; [rewrite ?elem_of_cons, ?elem_of_nil; lia|]).
    constructor.
  - vm_compute. reflexivity.
  - vm_compute. reflexivity.
  - vm_compute. reflexivity.
  - repeat constructor; vm_compute; reflexivity.
  - reflexivity.
  - reflexivity.
  - reflexivity.
  - reflexivity.
  - intros el. reflexivity.
Defined.

(** C2 fails on its second equation: in the scenario of the claim the
    scan before D stops at C, the sibling on no page, not at B. *)
Lemma visible_siblings_counterexample :
  Dom.children Scenario.four_siblings 1 = [2; 3; 4; 5]%nat
  ∧ Scenario.pages_of 2 = [Scenario.page1]
  ∧ Scenario.pages_of 3 = [Scenario.page1; Scenario.page2]
  ∧ Scenario.pages_of 4 = []
  ∧ Scenario.pages_of 5 = [Scenario.page1]
  ∧ getPreviousElement Scenario.paged Scenario.four_siblings 5
    = Some (Some 4%nat)
  ∧ getPreviousElement Scenario.paged Scenario.four_siblings 5
    ≠ Some (Some 3%nat).
Proof. vm_compute. repeat split; try reflexivity. discriminate. Qed.

End Siblings.

(* ================================================================== *)
(** * Styles *)
(* ================================================================== *)

Section Styles.

Import Regex Element.

Lemma strict_neq_same (v : jsval) : strict_neq v v = false.
Proof.
  destruct v; simpl; try done. unfold Js.eqs.
  by rewrite bool_decide_eq_true_2.
Qed.

Lemma strict_neq_Str (a : jsval) (v : list N) :
  strict_neq a (Str v) = false → a = Str v.
Proof.
  destruct a as [| |s]; simpl; try done. unfold Js.eqs.
  case_bool_decide; [by subst|done].
Qed.

(** Without a store write [setStyle] only touches the class list. *)
Lemma setStyle_same_value (E : Collab) (w : world) (element : nat)
    (styleName : list N) (v : jsval) :
  style_get (default ∅ (property_getStyleObject w element))
    (goog_string_toSelectorCase E styleName) = v →
  w_styles (setStyle E w element styleName v) = w_styles w
  ∧ w_trace (setStyle E w element styleName v) = w_trace w.
Proof.
  intros Hv. unfold setStyle. rewrite Hv, strict_neq_same. done.
Qed.

(** With a different value it writes once, and the store then holds the
    prepared value. *)
Lemma setStyle_other_value (E : Collab) (w : world) (element : nat)
    (styleName v : list N) :
  let name := goog_string_toSelectorCase E styleName in
  strict_neq (style_get (default ∅ (property_getStyleObject w element)) name)
    (Str v) = true →
  let w' := setStyle E w element styleName (Str v) in
  store_writes (w_trace w') = S (store_writes (w_trace w))
  ∧ style_get (default ∅ (property_getStyleObject w' element)) name
    = Str (prepareHtmlForEdit E v).
Proof.
  intros name Hv. unfold setStyle. fold name. rewrite Hv. simpl. split; [done|].
  unfold property_getStyleObject. simpl. rewrite lookup_insert_eq. simpl.
  unfold style_get. by rewrite lookup_insert_eq.
Qed.

Lemma prepare_red (E : Collab) :
  (has_url E = true →
   Url_relative2Absolute E (Js.lit "red") (Url_getBaseUrl E ++ file_url E)
   = (Js.lit "red")) →
  prepareHtmlForEdit E (Js.lit "red") = (Js.lit "red").
Proof.
  intros Hu. rewrite prepare_without_scripts by (vm_compute; reflexivity).
  destruct (has_url E); [by apply Hu|done].
Qed.

(** C3, as amended: [setStyle] compares the value it is given, before
    [prepareHtmlForEdit], with the stored one and writes nothing when
    they are the same string; two calls in a row with the color red
    write once when the stored color was not red before, and not at all
    when it was. The URL helper must leave the word red alone. *)
Theorem setStyle_writes_on_change (E : Collab) (w : world) (element : nat) :
  (has_url E = true →
   Url_relative2Absolute E (Js.lit "red") (Url_getBaseUrl E ++ file_url E)
   = (Js.lit "red")) →
  let stored w :=
    style_get (default ∅ (property_getStyleObject w element))
      (goog_string_toSelectorCase E (Js.lit "color")) in
  let w1 := setStyle E w element (Js.lit "color") (Str (Js.lit "red")) in
  let w2 := setStyle E w1 element (Js.lit "color") (Str (Js.lit "red")) in
  (∀ styleName v,
     style_get (default ∅ (property_getStyleObject w element))
       (goog_string_toSelectorCase E styleName) = Str v →
     w_styles (setStyle E w element styleName (Str v)) = w_styles w
     ∧ w_trace (setStyle E w element styleName (Str v)) = w_trace w)
  ∧ store_writes (w_trace w2) = store_writes (w_trace w1)
  ∧ store_writes (w_trace w2)
    = (store_writes (w_trace w)
       + if strict_neq (stored w) (Str (Js.lit "red")) then 1 else 0)%nat
  ∧ stored w2 = Str (Js.lit "red").
Proof.
  intros Hred stored w1 w2.
  split; [intros styleName v; apply setStyle_same_value|].
  assert (H1 : stored w1 = Str (Js.lit "red")
               ∧ store_writes (w_trace w1)
                 = (store_writes (w_trace w)
                    + if strict_neq (stored w) (Str (Js.lit "red"))
                      then 1 else 0)%nat).
  { destruct (strict_neq (stored w) (Str (Js.lit "red"))) eqn:Hs.
    - destruct (setStyle_other_value E w element (Js.lit "color") (Js.lit "red") Hs)
        as [Hw Hv].
      fold w1 in Hw, Hv. rewrite prepare_red in Hv by done.
      split; [exact Hv|]. rewrite Hw. lia.
    - apply strict_neq_Str in Hs.
      destruct (setStyle_same_value E w element (Js.lit "color") _ Hs)
        as [Hst Htr].
      fold w1 in Hst, Htr. split.
      + unfold stored, property_getStyleObject. rewrite Hst. exact Hs.
      + rewrite Htr. lia. }
  destruct H1 as [Hv1 Hw1].
  destruct (setStyle_same_value E w1 element (Js.lit "color") _ Hv1)
    as [Hst Htr].
  fold w2 in Hst, Htr. repeat split.
  - by rewrite Htr.
  - by rewrite Htr.
  - unfold stored, property_getStyleObject. rewrite Hst. exact Hv1.
Qed.

(** Sibling B of the scenario, without a color before, gets one write. *)
Lemma setStyle_writes_on_change_witness :
  store_writes
    (w_trace
       (setStyle Scenario.paged
          (setStyle Scenario.paged Scenario.four_siblings_world 3
             Scenario.color (Str Scenario.red))
          3 Scenario.color (Str Scenario.red)))
  = 1%nat.
Proof.
  destruct (setStyle_writes_on_change Scenario.paged
              Scenario.four_siblings_world 3) as (_ & _ & H & _).
  - intros Hu. vm_compute in Hu. discriminate Hu.
  - etrans; [exact H|]. vm_compute. reflexivity.
Defined.

(** C3 fails in two ways. When the stored color is red already, the two
    calls write nothing, not once. And clearing a color that is cleared
    writes again: the empty string to be stored is the stored one, but
    the comparison is made with the [null] that was passed. *)
Lemma setStyle_counterexample :
  (style_get (default ∅ (property_getStyleObject Scenario.already_red 3))
     Scenario.color = Str Scenario.red
   ∧ store_writes
       (w_trace
          (setStyle Scenario.paged
             (setStyle Scenario.paged Scenario.already_red 3
                Scenario.color (Str Scenario.red))
             3 Scenario.color (Str Scenario.red)))
     = 0%nat)
  ∧ (style_get (default ∅ (property_getStyleObject Scenario.cleared_color 3))
       Scenario.color = Str []
     ∧ style_get
         (default ∅
            (property_getStyleObject
               (setStyle Scenario.paged Scenario.cleared_color 3
                  Scenario.color Null) 3))
         Scenario.color = Str []
     ∧ store_writes
         (w_trace
            (setStyle Scenario.paged Scenario.cleared_color 3
               Scenario.color Null))
       = 1%nat).
Proof. vm_compute. repeat split; reflexivity. Qed.

End Styles.

(* ================================================================== *)
(** * Class names *)
(* ================================================================== *)

Section SplitJoin.

Lemma split_on_nonempty (sep : N) (s : list N) : Js.split_on sep s ≠ [].
Proof.
  destruct s as [|c s]; simpl; [done|].
  destruct (c =? sep); [done|]. by destruct (Js.split_on sep s).
Qed.

Lemma split_on_no_sep (sep : N) (s : list N) :
  Forall (λ c, c ≠ sep) s → Js.split_on sep s = [s].
Proof.
  induction 1 as [|c s Hc _ IH]; simpl; [done|].
  destruct (N.eqb_spec c sep); [done|]. by rewrite IH.
Qed.

Lemma split_on_app_sep (sep : N) (u v : list N) :
  Js.split_on sep (u ++ sep :: v) = Js.split_on sep u ++ Js.split_on sep v.
Proof.
  induction u as [|c u IH]; simpl.
  - by rewrite N.eqb_refl.
  - destruct (c =? sep); [by rewrite IH|].
    rewrite IH. pose proof (split_on_nonempty sep u).
    by destruct (Js.split_on sep u).
Qed.

Lemma split_on_Forall (P : N → Prop) (sep : N) (s : list N) :
  Forall P s → Forall (Forall P) (Js.split_on sep s).
Proof.
  induction 1 as [|c s Hc _ IH]; simpl; [by repeat constructor|].
  destruct (c =? sep); [by constructor|].
  destruct (Js.split_on sep s) as [|t ts]; [by repeat constructor|].
  apply Forall_cons in IH as [Ht Hts]. constructor; [by constructor|done].
Qed.

Lemma split_on_pieces (sep : N) (s : list N) :
  Forall (Forall (λ c, c ≠ sep)) (Js.split_on sep s).
Proof.
  induction s as [|c s IH]; simpl; [by repeat constructor|].
  destruct (N.eqb_spec c sep); [by constructor|].
  destruct (Js.split_on sep s) as [|t ts]; [by repeat constructor|].
  apply Forall_cons in IH as [Ht Hts]. constructor; [by constructor|done].
Qed.

Lemma join_cons (sep t : list N) (ts : list (list N)) :
  ts ≠ [] → Js.join sep (t :: ts) = t ++ sep ++ Js.join sep ts.
Proof. by destruct ts. Qed.

(** Splitting what was joined gives the pieces back. *)
Lemma split_on_join (l : list (list N)) :
  l ≠ [] → Forall (Forall (λ c, c ≠ 32)) l →
  Js.split_on 32 (Js.join [32] l) = l.
Proof.
  induction l as [|t ts IH]; [done|]. intros _ Hl.
  apply Forall_cons in Hl as [Ht Hts].
  destruct ts as [|t' ts].
  - simpl. by apply split_on_no_sep.
  - rewrite join_cons by done. cbn [app].
    rewrite split_on_app_sep, IH by done. by rewrite split_on_no_sep.
Qed.

Lemma Forall_join (P : N → Prop) (sep : list N) (l : list (list N)) :
  Forall P sep → Forall (Forall P) l → Forall P (Js.join sep l).
Proof.
  intros Hsep. induction 1 as [|t ts Ht Hts IH]; [constructor|].
  destruct ts as [|t' ts]; [done|].
  rewrite join_cons by done. rewrite !Forall_app. auto.
Qed.

Lemma split_on_replicate (k : nat) :
  Js.split_on 32 (replicate k 32) = replicate (S k) [].
Proof. induction k as [|k IH]; simpl; [done|]. by rewrite IH. Qed.

Lemma filter_replicate_nil (k : nat) :
  filter (λ t : list N, t ≠ []) (replicate k []) = [].
Proof.
  induction k as [|k IH]; [done|]. simpl.
  rewrite filter_cons_False; [done|]. by intros H.
Qed.

Lemma pieces_leading (k : nat) (u : list N) :
  Js.pieces (replicate k 32 ++ u) = Js.pieces u.
Proof.
  induction k as [|k IH]; [done|]. unfold Js.pieces in *. simpl.
  rewrite filter_cons_False; [done|]. by intros H.
Qed.

Lemma pieces_trailing (k : nat) (u : list N) :
  Js.pieces (u ++ replicate k 32) = Js.pieces u.
Proof.
  unfold Js.pieces. destruct k as [|k]; [by rewrite app_nil_r|].
  simpl. rewrite split_on_app_sep, split_on_replicate, filter_app.
  rewrite filter_replicate_nil. by rewrite app_nil_r.
Qed.

(** [trim_start] strips a run of spaces when the space is the only
    whitespace. *)
Lemma trim_start_spaces (s : list N) :
  Js.only_space_whitespace s →
  ∃ k, s = replicate k 32 ++ Js.trim_start s
       ∧ Js.only_space_whitespace (Js.trim_start s).
Proof.
  induction 1 as [|c s Hc Hs IH]; simpl.
  - exists O. split; [done|constructor].
  - destruct (Js.is_js_whitespace c) eqn:Hw.
    + destruct IH as (k & Hk & Hr). exists (S k). rewrite (Hc eq_refl).
      simpl. by rewrite <- Hk.
    + exists O. split; [done|]. constructor; [|done]. by rewrite Hw.
Qed.

Lemma trim_end_spaces (s : list N) :
  Js.only_space_whitespace s → ∃ k, s = Js.trim_end s ++ replicate k 32.
Proof.
  intros Hs. unfold Js.trim_end.
  destruct (trim_start_spaces (reverse s)) as (k & Hk & _).
  { by apply Forall_reverse. }
  exists k. rewrite <- (reverse_involutive s) at 1.
  rewrite Hk at 1. by rewrite reverse_app, reverse_replicate.
Qed.

(** Trimming keeps the pieces. *)
Lemma pieces_trim (s : list N) :
  Js.only_space_whitespace s → Js.pieces (Js.trim s) = Js.pieces s.
Proof.
  intros Hs. unfold Js.trim.
  destruct (trim_start_spaces s Hs) as (k & Hk & Hr).
  destruct (trim_end_spaces _ Hr) as (k' & Hk').
  rewrite Hk at 2. rewrite pieces_leading.
  rewrite Hk' at 2. by rewrite pieces_trailing.
Qed.

End SplitJoin.

Section ClassNames.

Import Element.

Lemma head_trim_start (s : list N) (c : N) :
  head (Js.trim_start s) = Some c → Js.is_js_whitespace c = false.
Proof.
  induction s as [|a s IH]; simpl; [done|].
  destruct (Js.is_js_whitespace a) eqn:Ha; [done|].
  simpl. by intros [= <-].
Qed.

Lemma last_trim_start (s : list N) (c : N) :
  last (Js.trim_start s) = Some c → last s = Some c.
Proof.
  induction s as [|a s IH]; simpl; [done|].
  destruct (Js.is_js_whitespace a); [|done].
  intros H. specialize (IH H). destruct s; [done|]. by rewrite last_cons, IH.
Qed.

(** What [trim] returns neither starts nor ends with whitespace. *)
Lemma trim_edges (s : list N) (c : N) :
  head (Js.trim s) = Some c ∨ last (Js.trim s) = Some c →
  Js.is_js_whitespace c = false.
Proof.
  unfold Js.trim, Js.trim_end. intros [H|H].
  - rewrite head_reverse in H. apply last_trim_start in H.
    rewrite last_reverse in H. by apply head_trim_start in H.
  - rewrite last_reverse in H. by apply head_trim_start in H.
Qed.

Lemma public_entries (E : Collab) (element : nat) (l : list (list N)) :
  filter (λ t, t ≠ []) (map (default []) (map (public_name E element) l))
  = filter (λ name, name ≠ [] ∧ is_internal_class E element name = false) l.
Proof.
  induction l as [|name l IH]; [done|]. simpl. unfold public_name at 1.
  destruct (is_internal_class E element name) eqn:Hi; simpl.
  - rewrite filter_cons_False by (by intros H).
    rewrite (filter_cons_False _ name) by (intros [_ H]; congruence).
    apply IH.
  - destruct (decide (name = [])) as [->|Hn].
    + rewrite filter_cons_False by (by intros H).
      rewrite (filter_cons_False _ []) by (by intros [H _]).
      apply IH.
    + rewrite !filter_cons_True by done. by rewrite IH.
Qed.

Lemma public_entry_cases (E : Collab) (element : nat) (name : list N) :
  default [] (public_name E element name) = []
  ∨ default [] (public_name E element name) = name.
Proof. unfold public_name. destruct (is_internal_class _ _ _); auto. Qed.

Lemma public_entries_Forall (E : Collab) (element : nat) (P : N → Prop)
    (l : list (list N)) :
  Forall (Forall P) l →
  Forall (Forall P) (map (default []) (map (public_name E element) l)).
Proof.
  induction 1 as [|name l Hn _ IH]; simpl; constructor; [|done].
  destruct (public_entry_cases E element name) as [->| ->]; [constructor|done].
Qed.

(** C5, as amended: [getClassName] blanks every internal class, page
    name and generated identifier of the class attribute split at
    single spaces, joins the entries with single spaces and trims the
    ends; a blanked name keeps the spaces around it. The result neither
    starts nor ends with whitespace; and when the attribute holds no
    whitespace other than the space, the names of the result are the
    names of the attribute that are none of the three, in their order,
    so none of them is a page name or the identifier. *)
Theorem getClassName_public_names (E : Collab) (d : gmap nat Dom.node)
    (element : nat) :
  (∀ c, head (getClassName E d element) = Some c
        ∨ last (getClassName E d element) = Some c →
        Js.is_js_whitespace c = false)
  ∧ (Js.only_space_whitespace (Dom.className d element) →
     Js.pieces (getClassName E d element)
     = filter (λ name, name ≠ [] ∧ is_internal_class E element name = false)
         (Js.split_on 32 (Dom.className d element))
     ∧ ∀ name, name ∈ Js.pieces (getClassName E d element) →
         name ∈ Js.pieces (Dom.className d element)
         ∧ (name ∉ Style_SILEX_CLASS_NAMES E)
         ∧ (name ∉ page_getPages E)
         ∧ property_getSilexId E element ≠ Some name).
Proof.
  split; [intros c; apply trim_edges|]. intros Hws.
  assert (Heq : Js.pieces (getClassName E d element)
    = filter (λ name, name ≠ [] ∧ is_internal_class E element name = false)
        (Js.split_on 32 (Dom.className d element))).
  { unfold getClassName, array_join. rewrite pieces_trim.
    - unfold Js.pieces. rewrite split_on_join.
      + apply public_entries.
      + pose proof (split_on_nonempty 32 (Dom.className d element)).
        by destruct (Js.split_on 32 (Dom.className d element)).
      + apply public_entries_Forall, split_on_pieces.
    - apply Forall_join; [by repeat constructor|].
      by apply public_entries_Forall, split_on_Forall. }
  split; [exact Heq|]. intros name. rewrite Heq.
  rewrite list_elem_of_filter. intros [[Hne Hint] Hin].
  unfold is_internal_class, array_contains in Hint.
  apply orb_false_iff in Hint as [Hint Hid].
  apply orb_false_iff in Hint as [Hcls Hpage].
  apply bool_decide_eq_false in Hcls, Hpage, Hid.
  repeat split; try done.
  unfold Js.pieces. by apply list_elem_of_filter.
Qed.

(** Sibling A of the scenario: of its four classes only the last one is
    a name of the author. *)
Lemma getClassName_public_names_witness :
  Js.pieces (getClassName Scenario.paged Scenario.four_siblings 2)
  = [Js.lit "big"].
Proof.
  destruct (getClassName_public_names Scenario.paged Scenario.four_siblings 2)
    as [_ H].
  destruct H as [H _].
  - repeat (constructor;
            [vm_compute; intros Hc; first [reflexivity | discriminate Hc]|]).
    constructor.
  - rewrite H. vm_compute. reflexivity.
Defined.

(** C5 fails on the spacing: sibling D has the classes a, page1 and b,
    and the dropped page name leaves two spaces between a and b. It
    fails on the page names too when the attribute uses a tab: the tab
    is no separator for [split], and [trim] then strips it. *)
Lemma getClassName_counterexample :
  (Dom.className Scenario.four_siblings 5 = Js.lit "a page1 b"
   ∧ getClassName Scenario.paged Scenario.four_siblings 5 = Js.lit "a  b"
   ∧ getClassName Scenario.paged Scenario.four_siblings 5 ≠ Js.lit "a b")
  ∧ (Dom.className Scenario.tabbed 0 = 9 :: Scenario.page1
     ∧ getClassName Scenario.paged Scenario.tabbed 0 = Scenario.page1
     ∧ page_getPages Scenario.paged = [Scenario.page1; Scenario.page2]).
Proof. vm_compute. repeat split; try reflexivity. discriminate. Qed.

End ClassNames.

(* ================================================================== *)
(** * Properties of the DOM store *)
(* ================================================================== *)

Section DomFacts.

Import Dom.

Implicit Types d : gmap nat node.

Lemma size_alter d (f : node → node) (x : nat) : size (alter f x d) = size d.
Proof. by rewrite <- !size_dom, dom_alter_L. Qed.

Lemma same_tree_refl d : same_tree d d.
Proof. by split. Qed.

Lemma same_tree_trans d1 d2 d3 :
  same_tree d1 d2 → same_tree d2 d3 → same_tree d1 d3.
Proof.
  intros [Hs1 H1] [Hs2 H2]. split; [congruence|]. intros y.
  destruct (H1 y) as (? & ? & ? & ? & ?), (H2 y) as (? & ? & ? & ? & ?).
  repeat split; first [congruence | intros tag; by etrans].
Qed.

(** An update of the attributes of one node keeps the tree. *)
Lemma same_tree_attributes d f (x : nat) :
  same_tree d (alter (set_attributes f) x d).
Proof.
  split; [apply size_alter|]. intros y.
  unfold parent, children, can_parent, is_element, tag_is.
  destruct (decide (x = y)) as [->|Hne].
  - rewrite lookup_alter_eq. by destruct (d !! y).
  - by rewrite lookup_alter_ne.
Qed.

Lemma same_tree_setAttribute d x name value :
  same_tree d (setAttribute d x name value).
Proof. apply same_tree_attributes. Qed.

Lemma same_tree_removeAttribute d x name :
  same_tree d (removeAttribute d x name).
Proof. apply same_tree_attributes. Qed.

Lemma same_tree_classList_add d x c : same_tree d (classList_add d x c).
Proof. apply same_tree_attributes. Qed.

Lemma same_tree_classList_remove d x c : same_tree d (classList_remove d x c).
Proof.
  unfold classList_remove.
  destruct (getAttribute d x class_attr), (filter _ _);
    first [apply same_tree_refl | apply same_tree_attributes].
Qed.

Lemma same_tree_ancestor d d' (fuel a x : nat) :
  same_tree d d' → is_ancestor_upto fuel d' a x = is_ancestor_upto fuel d a x.
Proof.
  intros [_ H]. revert x. induction fuel as [|fuel IH]; intros x; simpl.
  - done.
  - destruct (H x) as (-> & _). destruct (decide (a = x)); [done|].
    destruct (parent d x); [apply IH|done].
Qed.

Lemma same_tree_contains d d' (a x : nat) :
  same_tree d d' → contains d' a x = contains d a x.
Proof.
  intros H. unfold contains. destruct H as [Hs H]. rewrite Hs.
  by apply same_tree_ancestor.
Qed.

Lemma same_tree_descendants d d' (x : nat) :
  same_tree d d' → descendants d' x = descendants d x.
Proof.
  intros [Hs H]. unfold descendants. rewrite Hs. generalize (size d).
  intros fuel. revert x. induction fuel as [|fuel IH]; intros x; simpl; [done|].
  destruct (H x) as (_ & -> & _).
  induction (children d x) as [|c l IHl]; simpl; [done|].
  by rewrite IH, IHl.
Qed.

(** ** Lookups after an update of attributes *)

Lemma getAttribute_alter_ne d f (x y : nat) name :
  x ≠ y →
  getAttribute (alter (set_attributes f) x d) y name = getAttribute d y name.
Proof. intros H. unfold getAttribute. by rewrite lookup_alter_ne. Qed.

Lemma getAttribute_setAttribute_ne d x y name other value :
  x ≠ y ∨ other ≠ name →
  getAttribute (setAttribute d x other value) y name = getAttribute d y name.
Proof.
  intros H. unfold getAttribute, setAttribute.
  destruct (decide (x = y)) as [->|Hne].
  - rewrite lookup_alter_eq. destruct (d !! y); simpl; [|done].
    apply attr_get_set_ne. by destruct H.
  - by rewrite lookup_alter_ne.
Qed.

Lemma getAttribute_removeAttribute_ne d x y name other :
  x ≠ y ∨ other ≠ name →
  getAttribute (removeAttribute d x other) y name = getAttribute d y name.
Proof.
  intros H. unfold getAttribute, removeAttribute.
  destruct (decide (x = y)) as [->|Hne].
  - rewrite lookup_alter_eq. destruct (d !! y); simpl; [|done].
    apply attr_get_remove_ne. by destruct H.
  - by rewrite lookup_alter_ne.
Qed.

Lemma getAttribute_classList_add_ne d x y name c :
  x ≠ y ∨ class_attr ≠ name →
  getAttribute (classList_add d x c) y name = getAttribute d y name.
Proof. apply getAttribute_setAttribute_ne. Qed.

Lemma getAttribute_classList_remove_ne d x y name c :
  x ≠ y ∨ class_attr ≠ name →
  getAttribute (classList_remove d x c) y name = getAttribute d y name.
Proof.
  intros H. unfold classList_remove.
  destruct (getAttribute d x class_attr), (filter _ _);
    first [done | by apply getAttribute_setAttribute_ne].
Qed.

Lemma hasClass_getAttribute d d' (x : nat) c :
  getAttribute d' x class_attr = getAttribute d x class_attr →
  hasClass d' x c = hasClass d x c.
Proof. intros H. unfold hasClass, classList, className. by rewrite H. Qed.

End DomFacts.

Section TreeFacts.

Import Dom.

Implicit Types d : gmap nat node.

Lemma wf_dom_lookup d (x : nat) (n : node) :
  wf_dom d → d !! x = Some n → wf_node d x n = true.
Proof.
  intros Hwf Hx. unfold wf_dom in Hwf. rewrite forallb_forall in Hwf.
  apply (Hwf (x, n)). apply list_elem_of_In. by apply elem_of_map_to_list.
Qed.

(** In a well-formed document a parent can have children, lists its
    child, and is not below it. *)
Lemma wf_parent d (x p : nat) :
  wf_dom d → parent d x = Some p →
  can_parent d p = true ∧ contains d x p = false ∧ x ∈ children d p.
Proof.
  intros Hwf Hp. unfold parent in Hp.
  destruct (d !! x) as [n|] eqn:Hx; simpl in Hp; [|done].
  pose proof (wf_dom_lookup d x n Hwf Hx) as Hn. unfold wf_node in Hn.
  rewrite Hp in Hn. rewrite !andb_true_iff in Hn.
  destruct Hn as [[[[Hc Hin] Hanc] _] _].
  apply bool_decide_eq_true in Hin. apply negb_true_iff in Hanc. done.
Qed.

(** In a well-formed document a child points to its parent. *)
Lemma wf_child d (x c : nat) :
  wf_dom d → c ∈ children d x → parent d c = Some x.
Proof.
  intros Hwf Hc. unfold children in Hc.
  destruct (d !! x) as [n|] eqn:Hx; [|by apply elem_of_nil in Hc].
  pose proof (wf_dom_lookup d x n Hwf Hx) as Hn. unfold wf_node in Hn.
  rewrite !andb_true_iff in Hn. destruct Hn as [[_ Hall] _].
  rewrite forallb_forall in Hall. apply list_elem_of_In in Hc.
  specialize (Hall c Hc). by apply bool_decide_eq_true in Hall.
Qed.

Lemma ancestor_ext d d' (fuel a x : nat) :
  (∀ y, parent d' y = parent d y) →
  is_ancestor_upto fuel d' a x = is_ancestor_upto fuel d a x.
Proof.
  intros H. revert x. induction fuel as [|fuel IH]; intros x; simpl; [done|].
  rewrite H. destruct (decide (a = x)); [done|].
  destruct (parent d x); [apply IH|done].
Qed.

Lemma contains_ext d d' (a x : nat) :
  size d' = size d → (∀ y, parent d' y = parent d y) →
  contains d' a x = contains d a x.
Proof. intros Hs H. unfold contains. rewrite Hs. by apply ancestor_ext. Qed.

(** A node nobody points to as a parent is an ancestor of itself only. *)
Lemma not_ancestor_of_unparented d (fuel a x : nat) :
  (∀ y, parent d y ≠ Some a) → a ≠ x → is_ancestor_upto fuel d a x = false.
Proof.
  intros H. revert x. induction fuel as [|fuel IH]; intros x Hne; simpl.
  - by destruct (decide (a = x)).
  - destruct (decide (a = x)); [done|].
    destruct (parent d x) as [q|] eqn:Hq; [|done].
    apply IH. intros ->. by apply (H x).
Qed.

Lemma contains_self d (x : nat) : contains d x x = true.
Proof.
  unfold contains. destruct (size d); simpl; by destruct (decide (x = x)).
Qed.

(** ** Detaching *)

Lemma detach_unparented d (x : nat) : parent d x = None → detach d x = d.
Proof. intros H. unfold detach. by rewrite H. Qed.

Lemma size_detach d (x : nat) : size (detach d x) = size d.
Proof.
  unfold detach. destruct (parent d x); [|done]. by rewrite !size_alter.
Qed.

Lemma detach_parent_ne d (x y : nat) :
  x ≠ y → parent (detach d x) y = parent d y.
Proof.
  intros Hne. unfold detach. destruct (parent d x) as [p|]; [|done].
  unfold parent. rewrite lookup_alter_ne by done.
  destruct (decide (p = y)) as [->|Hp].
  - rewrite lookup_alter_eq. by destruct (d !! y).
  - by rewrite lookup_alter_ne.
Qed.

Lemma detach_can_parent d (x y : nat) :
  can_parent (detach d x) y = can_parent d y.
Proof.
  unfold detach. destruct (parent d x) as [p|]; [|done].
  unfold can_parent.
  destruct (decide (x = y)) as [->|Hx].
  - rewrite lookup_alter_eq.
    destruct (decide (p = y)) as [->|Hp].
    + rewrite lookup_alter_eq. by destruct (d !! y).
    + rewrite lookup_alter_ne by done. by destruct (d !! y).
  - rewrite lookup_alter_ne by done.
    destruct (decide (p = y)) as [->|Hp].
    + rewrite lookup_alter_eq. by destruct (d !! y).
    + by rewrite lookup_alter_ne.
Qed.

Lemma detach_children d (x p : nat) :
  parent d x = Some p →
  children (detach d x) p = filter (λ c, c ≠ x) (children d p).
Proof.
  intros Hp. unfold detach. rewrite Hp. unfold children.
  destruct (decide (x = p)) as [->|Hx].
  - rewrite !lookup_alter_eq. by destruct (d !! p).
  - rewrite lookup_alter_ne, lookup_alter_eq by done. by destruct (d !! p).
Qed.

Lemma detach_lookup_is_Some d (x y : nat) :
  is_Some (detach d x !! y) ↔ is_Some (d !! y).
Proof.
  unfold detach. destruct (parent d x) as [p|]; [|done].
  rewrite !lookup_alter_is_Some. done.
Qed.

End TreeFacts.

Section InsertFacts.

Import Dom.

Implicit Types d : gmap nat node.

(** ** Tree updates keep the data of every node *)

Lemma node_data_alter d (g : node → node) (x y : nat) :
  (∀ n, node_data (g n) = node_data n) →
  node_data <$> alter g x d !! y = node_data <$> d !! y.
Proof.
  intros Hg. destruct (decide (x = y)) as [->|Hne].
  - rewrite lookup_alter_eq. destruct (d !! y); simpl; [|done]. by rewrite Hg.
  - by rewrite lookup_alter_ne.
Qed.

Lemma node_data_detach d (x y : nat) :
  node_data <$> detach d x !! y = node_data <$> d !! y.
Proof.
  unfold detach. destruct (parent d x); [|done].
  by rewrite !node_data_alter.
Qed.

Lemma node_data_getAttribute d d' (y : nat) name :
  node_data <$> d' !! y = node_data <$> d !! y →
  getAttribute d' y name = getAttribute d y name.
Proof.
  unfold getAttribute, node_data.
  destruct (d' !! y), (d !! y); simpl; intros [=]; congruence.
Qed.

Lemma node_data_is_element d d' (y : nat) :
  node_data <$> d' !! y = node_data <$> d !! y →
  is_element d' y = is_element d y.
Proof.
  unfold is_element, node_data.
  destruct (d' !! y), (d !! y); simpl; intros [=]; congruence.
Qed.

Lemma node_data_can_parent d d' (y : nat) :
  node_data <$> d' !! y = node_data <$> d !! y →
  can_parent d' y = can_parent d y.
Proof.
  unfold can_parent, node_data.
  destruct (d' !! y), (d !! y); simpl; intros [=]; congruence.
Qed.

Lemma node_data_tag_is d d' (y : nat) tag :
  node_data <$> d' !! y = node_data <$> d !! y →
  tag_is d' y tag = tag_is d y tag.
Proof.
  unfold tag_is, node_data.
  destruct (d' !! y), (d !! y); simpl; intros [=]; congruence.
Qed.

Lemma node_data_hasClass d d' (y : nat) c :
  node_data <$> d' !! y = node_data <$> d !! y →
  hasClass d' y c = hasClass d y c.
Proof. intros H. by apply hasClass_getAttribute, node_data_getAttribute. Qed.

(** ** [insertBefore] *)

Lemma insertBefore_Some d (p x : nat) ref d' :
  insertBefore d p x ref = Some d' →
  can_parent d p = true ∧ contains d x p = false ∧ x ≠ p
  ∧ d' = alter (set_parentNode (Some p)) x
           (alter (set_childNodes (λ _, placed d p x ref)) p (detach d x)).
Proof.
  unfold insertBefore.
  destruct (can_parent d p) eqn:Hc; simpl; [|done].
  destruct (contains d x p) eqn:Ha; [done|].
  destruct (match ref with Some r => _ | None => false end); [done|].
  intros [= <-].
  assert (Hne : x ≠ p). { intros ->. by rewrite contains_self in Ha. }
  repeat split; try done.
  f_equal. apply map_eq. intros y.
  destruct (decide (p = y)) as [->|Hp]; [|by rewrite !lookup_alter_ne].
  rewrite !lookup_alter_eq. unfold placed, children.
  destruct (detach d x !! y) as [n|]; simpl; [|done].
  f_equal. unfold set_childNodes. f_equal.
  by destruct (if bool_decide (ref = Some x) then _ else _).
Qed.

Lemma insertBefore_succeeds d (p x : nat) ref :
  can_parent d p = true → contains d x p = false →
  (∀ r, ref = Some r → parent d r = Some p) →
  is_Some (insertBefore d p x ref).
Proof.
  intros Hc Ha Href. unfold insertBefore. rewrite Hc, Ha. simpl.
  destruct ref as [r|]; [|done].
  by rewrite bool_decide_eq_true_2 by by apply Href.
Qed.

Lemma insertBefore_children d (p x : nat) ref d' :
  insertBefore d p x ref = Some d' → children d' p = placed d p x ref.
Proof.
  intros H. apply insertBefore_Some in H as (Hc & _ & Hne & ->).
  unfold children. rewrite lookup_alter_ne, lookup_alter_eq by done.
  assert (is_Some (detach d x !! p)) as [n ->]; [|done].
  apply detach_lookup_is_Some. unfold can_parent in Hc.
  by destruct (d !! p).
Qed.

Lemma insertBefore_node_data d (p x y : nat) ref d' :
  insertBefore d p x ref = Some d' →
  node_data <$> d' !! y = node_data <$> d !! y.
Proof.
  intros H. apply insertBefore_Some in H as (_ & _ & _ & ->).
  by rewrite !node_data_alter, node_data_detach.
Qed.

Lemma insertBefore_size d (p x : nat) ref d' :
  insertBefore d p x ref = Some d' → size d' = size d.
Proof.
  intros H. apply insertBefore_Some in H as (_ & _ & _ & ->).
  by rewrite !size_alter, size_detach.
Qed.

Lemma insertBefore_parent d (p x : nat) ref d' :
  insertBefore d p x ref = Some d' → is_Some (d !! x) →
  parent d' x = Some p.
Proof.
  intros H Hx. apply insertBefore_Some in H as (_ & _ & Hne & ->).
  unfold parent. rewrite lookup_alter_eq, lookup_alter_ne by done.
  apply (proj2 (detach_lookup_is_Some d x x)) in Hx as [n ->]. done.
Qed.

Lemma insertBefore_parent_ne d (p x y : nat) ref d' :
  insertBefore d p x ref = Some d' → x ≠ y → parent d' y = parent d y.
Proof.
  intros H Hy. apply insertBefore_Some in H as (_ & _ & Hne & ->).
  unfold parent at 1. rewrite lookup_alter_ne by done.
  destruct (decide (p = y)) as [->|Hp].
  - rewrite lookup_alter_eq.
    rewrite <- (detach_parent_ne d x y) by done. unfold parent.
    by destruct (detach d x !! y).
  - rewrite lookup_alter_ne by done. by apply detach_parent_ne.
Qed.

End InsertFacts.

(* ================================================================== *)
(** * Removing an element *)
(* ================================================================== *)

Section Removal.

Import Dom Element.

Implicit Types d : gmap nat node.

Lemma detach_parent d (x : nat) : parent (detach d x) x = None.
Proof.
  unfold detach. destruct (parent d x) as [p|] eqn:Hp; [|done].
  unfold parent. rewrite lookup_alter_eq.
  by destruct (alter _ p d !! x).
Qed.

Lemma contains_parent d (a x : nat) :
  a ≠ x → contains d a x = true → is_Some (parent d x).
Proof.
  intros Hne. unfold contains. destruct (size d); simpl;
    destruct (decide (a = x)); try done.
  by destruct (parent d x).
Qed.

(** C7: [removeElement] on the body, or on a node that is not inside
    the body, leaves the document (and the style store) as it is and
    reports the element on the console; the tree changes only for a
    node other than the body that the body contains, and such a node is
    taken out of the child list of its parent without a report. *)
Theorem removeElement_guarded (E : Collab) (w : world) (element : nat) :
  (element = body_getBodyElement E
   ∨ contains (w_dom w) (body_getBodyElement E) element = false →
   w_dom (removeElement E w element) = w_dom w
   ∧ w_styles (removeElement E w element) = w_styles w
   ∧ w_trace (removeElement E w element)
     = ConsoleError msg_could_not_delete element :: w_trace w)
  ∧ (w_dom (removeElement E w element) ≠ w_dom w →
     element ≠ body_getBodyElement E
     ∧ contains (w_dom w) (body_getBodyElement E) element = true)
  ∧ (element ≠ body_getBodyElement E →
     contains (w_dom w) (body_getBodyElement E) element = true →
     ∃ p, parent (w_dom w) element = Some p
          ∧ parent (w_dom (removeElement E w element)) element = None
          ∧ children (w_dom (removeElement E w element)) p
            = filter (λ c, c ≠ element) (children (w_dom w) p)
          ∧ w_trace (removeElement E w element) = w_trace w)
  ∧ w_dom (removeElement E w (body_getBodyElement E)) = w_dom w
  ∧ w_trace (removeElement E w (body_getBodyElement E))
    = ConsoleError msg_could_not_delete (body_getBodyElement E) :: w_trace w.
Proof.
  unfold removeElement. split; [|split; [|split; [|split]]].
  - intros [->|Hc].
    + by rewrite bool_decide_eq_true_2.
    + by rewrite Hc, andb_false_r.
  - intros Hd. case_bool_decide as Hb; simpl in *; [done|].
    destruct (contains _ _ _); [|done]. split; [|done].
    by intros ->.
  - intros Hne Hc. rewrite Hc, bool_decide_eq_false_2 by done. simpl.
    destruct (contains_parent _ _ _ (not_eq_sym Hne) Hc) as [p Hp].
    exists p. unfold removeNode.
    split; [done|]. split; [apply detach_parent|].
    split; [by apply detach_children|done].
  - by rewrite bool_decide_eq_true_2.
  - by rewrite bool_decide_eq_true_2.
Qed.

(** The body of the scenario is refused, and so is a node that is in
    no document; sibling B is taken out of the container. *)
Lemma removeElement_guarded_witness :
  (w_dom (removeElement Scenario.paged Scenario.four_siblings_world 0)
   = Scenario.four_siblings
   ∧ w_trace (removeElement Scenario.paged Scenario.four_siblings_world 0)
     = [ConsoleError msg_could_not_delete 0])
  ∧ w_dom (removeElement Scenario.paged Scenario.four_siblings_world 9)
    = Scenario.four_siblings
  ∧ children
      (w_dom (removeElement Scenario.paged Scenario.four_siblings_world 3)) 1
    = [2; 4; 5]%nat.
Proof.
  split; [|split].
  - destruct (removeElement_guarded Scenario.paged
                Scenario.four_siblings_world 0) as [H _].
    destruct H as (Hd & _ & Ht); [left; reflexivity|]. by split.
  - destruct (removeElement_guarded Scenario.paged
                Scenario.four_siblings_world 9) as [H _].
    destruct H as (Hd & _ & Ht); [right; vm_compute; reflexivity|]. done.
  - destruct (removeElement_guarded Scenario.paged
                Scenario.four_siblings_world 3) as (_ & _ & H & _).
    destruct H as (p & Hp & _ & Hch & _).
    + vm_compute. lia.
    + vm_compute. reflexivity.
    + assert (p = 1%nat) as -> by (vm_compute in Hp; congruence).
      rewrite Hch. vm_compute. reflexivity.
Defined.

End Removal.

(* ================================================================== *)
(** * Moving an element *)
(* ================================================================== *)

Section Moves.

Import Dom Element.

Implicit Types d : gmap nat node.

Lemma parent_is_Some d (x p : nat) : parent d x = Some p → is_Some (d !! x).
Proof. unfold parent. by destruct (d !! x). Qed.

Lemma filter_ne_snoc (x : nat) (l : list nat) :
  filter (λ c, c ≠ x) (filter (λ c, c ≠ x) l ++ [x]) = filter (λ c, c ≠ x) l.
Proof.
  rewrite filter_app, (filter_cons_False _ x) by (by intros H).
  rewrite filter_nil, app_nil_r.
  induction l as [|c l IH]; [done|].
  destruct (decide (c = x)) as [->|Hc].
  - by rewrite (filter_cons_False _ x) by (by intros H).
  - rewrite (filter_cons_True _ c l) by done.
    rewrite (filter_cons_True _ c) by done. by rewrite IH.
Qed.

(** After [appendChild] of a child of [p] to [p] the child is last and
    nothing else about who is whose parent has changed. *)
Lemma appendChild_of_child d (p x : nat) :
  wf_dom d → parent d x = Some p →
  ∃ d', appendChild d p x = Some d'
        ∧ children d' p = filter (λ c, c ≠ x) (children d p) ++ [x]
        ∧ size d' = size d
        ∧ (∀ y, parent d' y = parent d y)
        ∧ (∀ y, can_parent d' y = can_parent d y).
Proof.
  intros Hwf Hp. destruct (wf_parent d x p Hwf Hp) as (Hc & Ha & _).
  destruct (insertBefore_succeeds d p x None Hc Ha) as [d' Hd']; [done|].
  exists d'. split; [exact Hd'|]. repeat split.
  - rewrite (insertBefore_children _ _ _ _ _ Hd'). unfold placed. simpl.
    by rewrite (detach_children d x p Hp).
  - by apply insertBefore_size in Hd'.
  - intros y. destruct (decide (x = y)) as [<-|Hne].
    + rewrite Hp. apply (insertBefore_parent _ _ _ _ _ Hd').
      by apply parent_is_Some in Hp.
    + by apply (insertBefore_parent_ne _ _ _ _ _ _ Hd').
  - intros y. apply node_data_can_parent.
    by apply (insertBefore_node_data _ _ _ _ _ _ Hd').
Qed.

(** [insertBefore] of the last child of [p] before the first child of
    [p] makes it the first child. *)
Lemma insertBefore_first d (p x : nat) (l : list nat) :
  parent d x = Some p →
  can_parent d p = true → contains d x p = false →
  children d p = filter (λ c, c ≠ x) l ++ [x] →
  (∀ c, c ∈ filter (λ c, c ≠ x) l → parent d c = Some p) →
  ∃ d', insertBefore d p x (head (children d p)) = Some d'
        ∧ children d' p = x :: filter (λ c, c ≠ x) l
        ∧ parent d' x = Some p.
Proof.
  intros Hp Hc Ha Hch Hl.
  destruct (insertBefore_succeeds d p x (head (children d p)) Hc Ha)
    as [d' Hd'].
  { intros r. rewrite Hch. destruct (filter _ l) as [|c l'] eqn:Hf; simpl.
    - by intros [= <-].
    - intros [= <-]. apply Hl. left. }
  exists d'. split; [exact Hd'|]. split.
  - rewrite (insertBefore_children _ _ _ _ _ Hd'). unfold placed.
    rewrite (detach_children d x p Hp), Hch, filter_ne_snoc.
    destruct (filter (λ c, c ≠ x) l) as [|c l'] eqn:Hf; simpl.
    + rewrite bool_decide_eq_true_2 by done.
      unfold nextSibling. rewrite Hp. simpl. rewrite Hch. simpl.
      by destruct (decide (x = x)).
    + assert (Hcx : c ≠ x).
      { assert (Hin : c ∈ filter (λ c, c ≠ x) l) by (rewrite Hf; left).
        by apply list_elem_of_filter in Hin as [Hin _]. }
      rewrite bool_decide_eq_false_2 by (intros [= ->]; done).
      simpl. by destruct (decide (c = c)).
  - apply (insertBefore_parent _ _ _ _ _ Hd'). by apply parent_is_Some in Hp.
Qed.

(** C9: for an element with a parent in a well-formed document, [move]
    to the top and then to the bottom both succeed and leave the
    element as the first child of that parent, before the other
    children in the order they had. *)
Theorem move_top_then_bottom (E : Collab) (w : world) (element p : nat) :
  wf_dom (w_dom w) →
  parent (w_dom w) element = Some p →
  ∃ w1 w2,
    move E w element TOP = Some w1
    ∧ move E w1 element BOTTOM = Some w2
    ∧ head (children (w_dom w2) p) = Some element
    ∧ children (w_dom w2) p
      = element :: filter (λ c, c ≠ element) (children (w_dom w) p)
    ∧ parent (w_dom w2) element = Some p.
Proof.
  intros Hwf Hp.
  destruct (wf_parent _ _ _ Hwf Hp) as (Hc & Ha & _).
  destruct (appendChild_of_child _ _ _ Hwf Hp)
    as (d1 & Hd1 & Hch1 & Hs1 & Hp1 & Hc1).
  set (d1' := classList_remove d1 element JUST_ADDED_CLASS_NAME).
  destruct (same_tree_classList_remove d1 element JUST_ADDED_CLASS_NAME)
    as [Hs1' Ht1]. fold d1' in Hs1', Ht1.
  assert (Hp1' : ∀ y, parent d1' y = parent (w_dom w) y).
  { intros y. destruct (Ht1 y) as (-> & _). apply Hp1. }
  destruct (insertBefore_first d1' p element (children (w_dom w) p))
    as (d2 & Hd2 & Hh2 & Hp2).
  - by rewrite Hp1'.
  - destruct (Ht1 p) as (_ & _ & -> & _). by rewrite Hc1.
  - rewrite (contains_ext (w_dom w)); [done|congruence|done].
  - destruct (Ht1 p) as (_ & -> & _). exact Hch1.
  - intros c Hin. apply list_elem_of_filter in Hin as [_ Hin].
    rewrite Hp1'. by apply wf_child.
  - exists (set_dom d1' w),
      (set_dom (classList_remove d2 element JUST_ADDED_CLASS_NAME)
         (set_dom d1' w)).
    split; [|split].
    + unfold move, move_dom. rewrite Hp. simpl. by rewrite Hd1.
    + unfold move, move_dom. simpl. rewrite Hp1', Hp. simpl.
      by rewrite Hd2.
    + simpl.
      destruct (same_tree_classList_remove d2 element JUST_ADDED_CLASS_NAME)
        as [_ Ht2].
      destruct (Ht2 p) as (_ & -> & _).
      destruct (Ht2 element) as (-> & _). by rewrite Hh2.
Qed.

(** Sibling B of the scenario, the second of four children. *)
Lemma move_top_then_bottom_witness :
  ∃ w1 w2,
    move Scenario.paged Scenario.four_siblings_world 3 TOP = Some w1
    ∧ move Scenario.paged w1 3 BOTTOM = Some w2
    ∧ head (children (w_dom w2) 1) = Some 3%nat
    ∧ children (w_dom w2) 1
      = 3%nat :: filter (λ c, c ≠ 3%nat)
                   (children (w_dom Scenario.four_siblings_world) 1)
    ∧ parent (w_dom w2) 3 = Some 1%nat.
Proof.
  apply (move_top_then_bottom Scenario.paged Scenario.four_siblings_world 3 1).
  - vm_compute. reflexivity.
  - vm_compute. reflexivity.
Defined.

(** The child lists of the scenario after each of the two moves. *)
Example top_then_bottom_of_sibling_B :
  (λ w, children (w_dom w) 1)
    <$> move Scenario.paged Scenario.four_siblings_world 3 TOP
  = Some [2; 4; 5; 3]%nat
  ∧ (λ w, children (w_dom w) 1)
      <$> (move Scenario.paged Scenario.four_siblings_world 3 TOP
           ≫= λ w, move Scenario.paged w 3 BOTTOM)
    = Some [3; 2; 4; 5]%nat.
Proof. vm_compute. split; reflexivity. Qed.

End Moves.

(* ================================================================== *)
(** * Class lists *)
(* ================================================================== *)

Section ClassLists.

Import Dom.

Implicit Types d : gmap nat node.

(** A token at the start of a text is the first piece, when the text
    ends with it or goes on with whitespace. *)
Lemma ws_tokens_app (t rest : list N) :
  is_token t →
  match rest with
  | [] => True
  | c :: _ => Js.is_ascii_whitespace c = true
  end →
  ws_tokens (t ++ rest) = t :: ws_tokens rest.
Proof.
  intros [Hne Ht] Hrest. induction Ht as [|a t Ha Ht IH]; [done|].
  destruct t as [|b t].
  - cbn [app ws_tokens]. rewrite Ha.
    destruct rest as [|c rest]; [done|]. by rewrite Hrest.
  - change ((a :: b :: t) ++ rest) with (a :: (b :: t) ++ rest).
    cbn [ws_tokens]. rewrite Ha. cbn [app].
    apply Forall_cons in Ht as [Hb Ht']. rewrite Hb.
    change (b :: t ++ rest) with ((b :: t) ++ rest).
    rewrite IH; [done|done].
Qed.

Lemma ws_tokens_are_tokens (s : list N) : Forall is_token (ws_tokens s).
Proof.
  induction s as [|c s IH]; [constructor|]. cbn [ws_tokens].
  destruct (Js.is_ascii_whitespace c) eqn:Hc; [done|].
  destruct s as [|c' s].
  - repeat constructor; done.
  - destruct (Js.is_ascii_whitespace c') eqn:Hc'.
    + constructor; [|done]. repeat constructor; done.
    + destruct (ws_tokens (c' :: s)) as [|t ts].
      * repeat constructor; done.
      * apply Forall_cons in IH as [[Hne Ht] Hts].
        constructor; [|done]. split; [done|by constructor].
Qed.

Lemma ws_tokens_serialize (ts : list (list N)) :
  Forall is_token ts → ws_tokens (serialize ts) = ts.
Proof.
  unfold serialize. induction 1 as [|t ts Ht Hts IH]; [done|].
  destruct ts as [|t' ts].
  - simpl. rewrite <- (app_nil_r t) at 1. by rewrite ws_tokens_app.
  - rewrite join_cons by done. cbn [app].
    rewrite ws_tokens_app; [|done|done].
    change (ws_tokens (32 :: Js.join [32] (t' :: ts)))
      with (ws_tokens (Js.join [32] (t' :: ts))).
    by rewrite IH.
Qed.

Lemma remove_dups_NoDup (l : list (list N)) : NoDup l → remove_dups l = l.
Proof.
  induction 1 as [|x l Hx Hl IH]; [done|]. simpl.
  destruct (decide_rel elem_of x l); [done|]. by rewrite IH.
Qed.

Lemma token_set_serialize (ts : list (list N)) :
  Forall is_token ts → NoDup ts → token_set (serialize ts) = ts.
Proof.
  intros Ht Hnd. unfold token_set.
  by rewrite ws_tokens_serialize, remove_dups_NoDup.
Qed.

Lemma token_set_tokens (s : list N) :
  Forall is_token (token_set s) ∧ NoDup (token_set s).
Proof.
  split; [|apply NoDup_remove_dups]. unfold token_set.
  apply Forall_forall. intros t Ht.
  apply (proj1 (elem_of_remove_dups _ _)) in Ht.
  pose proof (ws_tokens_are_tokens s) as Hall.
  rewrite Forall_forall in Hall. by apply Hall.
Qed.

Lemma className_setAttribute d (x : nat) value :
  is_Some (d !! x) → className (setAttribute d x class_attr value) x = value.
Proof.
  intros Hx. unfold className. by rewrite getAttribute_setAttribute.
Qed.

(** After [classList.add(c)] the element has the class. *)
Lemma hasClass_classList_add d (x : nat) (c : list N) :
  is_token c → is_Some (d !! x) → hasClass (classList_add d x c) x c = true.
Proof.
  intros Hc Hx. apply bool_decide_eq_true.
  unfold classList_add, classList at 1.
  rewrite className_setAttribute by done.
  destruct (token_set_tokens (className d x)) as [Ht Hnd].
  unfold classList. case_bool_decide as Hin.
  - by rewrite token_set_serialize.
  - rewrite token_set_serialize.
    + apply elem_of_app. right. left.
    + apply Forall_app. split; [done|by constructor].
    + apply NoDup_app. repeat split; [done| |apply NoDup_singleton].
      intros t Ht' Hin'. apply list_elem_of_singleton in Hin'. by subst.
Qed.

(** After [classList.remove(c)] the element does not have the class. *)
Lemma hasClass_classList_remove d (x : nat) (c : list N) :
  hasClass (classList_remove d x c) x c = false.
Proof.
  apply bool_decide_eq_false. unfold classList_remove.
  destruct (token_set_tokens (className d x)) as [Ht Hnd].
  assert (Hfilter : c ∉ filter (λ t, t ≠ c) (classList d x)).
  { intros Hin. by apply list_elem_of_filter in Hin as [Hin _]. }
  assert (Hset : c ∉ classList
            (setAttribute d x class_attr
               (serialize (filter (λ t, t ≠ c) (classList d x)))) x).
  { unfold classList at 1. destruct (d !! x) as [n|] eqn:Hx.
    - rewrite className_setAttribute by done.
      rewrite token_set_serialize; [done| |].
      + unfold classList. apply Forall_forall. intros t Hin.
        apply list_elem_of_filter in Hin as [_ Hin].
        rewrite Forall_forall in Ht. by apply Ht.
      + by apply NoDup_filter.
    - unfold className, getAttribute, setAttribute.
      rewrite lookup_alter_eq, Hx. simpl. apply not_elem_of_nil. }
  destruct (getAttribute d x class_attr) as [v|] eqn:Hv.
  - exact Hset.
  - destruct (filter (λ t, t ≠ c) (classList d x)) eqn:Hf; [|exact Hset].
    unfold classList, className. rewrite Hv. simpl. apply not_elem_of_nil.
Qed.

End ClassLists.

(* ================================================================== *)
(** * Loading an image *)
(* ================================================================== *)

Section Images.

Import Dom Element.

Implicit Types d : gmap nat node.

Lemma is_token_content : is_token ELEMENT_CONTENT_CLASS_NAME.
Proof. split; [done|]. repeat constructor. Qed.

Lemma is_token_loading : is_token LOADING_ELEMENT_CSS_CLASS.
Proof. split; [done|]. repeat constructor. Qed.

Lemma insertBefore_children_detached d (p x : nat) ref d' :
  parent d x = None → insertBefore d p x ref = Some d' →
  children d' x = children d x.
Proof.
  intros Hp H. apply insertBefore_Some in H as (_ & _ & Hne & ->).
  rewrite (detach_unparented d x Hp). unfold children.
  rewrite lookup_alter_eq, lookup_alter_ne by done. by destruct (d !! x).
Qed.

(** What the listener of the load event does to a world in which the
    element can take the image as a child. *)
Lemma on_load_effect (w : world) (ld : loader) :
  let element := ld_element ld in
  let img := ld_image ld in
  can_parent (w_dom w) element = true →
  contains (w_dom w) img element = false →
  is_Some (w_dom w !! img) →
  ∃ w', on_load w ld = Some w'
    ∧ children (w_dom w') element
      = children (detach (w_dom w) img) element ++ [img]
    ∧ parent (w_dom w') img = Some element
    ∧ hasClass (w_dom w') img ELEMENT_CONTENT_CLASS_NAME = true
    ∧ getAttribute (w_dom w') img (Js.lit "id") = None
    ∧ hasClass (w_dom w') element LOADING_ELEMENT_CSS_CLASS = false
    ∧ getType (w_dom w') element = getType (w_dom w) element
    ∧ (parent (w_dom w) img = None →
       children (w_dom w') img = children (w_dom w) img)
    ∧ is_element (w_dom w') img = is_element (w_dom w) img
    ∧ (∀ tag, tag_is (w_dom w') img tag = tag_is (w_dom w) img tag)
    ∧ w_trace w'
      = BodySetSelection
        :: match ld_callback ld with
           | Some f => [Callback f element img]
           | None => []
           end ++ w_trace w
    ∧ w_loaders w' = w_loaders w
    ∧ w_styles w' = w_styles w.
Proof.
  intros element img Hc Ha Himg.
  destruct (insertBefore_succeeds (w_dom w) element img None Hc Ha)
    as [d1 Hd1]; [done|].
  pose proof (insertBefore_Some _ _ _ _ _ Hd1) as (_ & _ & Hne & _).
  set (d2 := classList_add d1 img ELEMENT_CONTENT_CLASS_NAME).
  set (d3 := removeAttribute d2 img (Js.lit "id")).
  set (d4 := classList_remove d3 element LOADING_ELEMENT_CSS_CLASS).
  assert (Ht : same_tree d1 d4).
  { eapply same_tree_trans; [apply same_tree_classList_add|].
    eapply same_tree_trans; [apply same_tree_removeAttribute|].
    apply same_tree_classList_remove. }
  destruct Ht as [_ Ht].
  assert (Himg1 : is_Some (d1 !! img)).
  { apply (parent_is_Some d1 img element).
    by apply (insertBefore_parent _ _ _ _ _ Hd1). }
  exists (emit BodySetSelection
            (set_dom d4
               match ld_callback ld with
               | Some f => emit (Callback f element img) w
               | None => w
               end)).
  assert (Hdom : ∀ w0 : world,
            w_dom match ld_callback ld with
                  | Some f => emit (Callback f element img) w0
                  | None => w0
                  end = w_dom w0).
  { intros w0. by destruct (ld_callback ld). }
  split.
  { unfold on_load. fold element img. rewrite Hdom.
    unfold appendChild. rewrite Hd1. done. }
  cbn [w_dom emit set_dom].
  split.
  { destruct (Ht element) as (_ & -> & _).
    by rewrite (insertBefore_children _ _ _ _ _ Hd1). }
  split.
  { destruct (Ht img) as (-> & _).
    by apply (insertBefore_parent _ _ _ _ _ Hd1). }
  split.
  { unfold d4, d3.
    rewrite (hasClass_getAttribute d2) by
      (rewrite getAttribute_classList_remove_ne by (left; done);
       by rewrite getAttribute_removeAttribute_ne by (right; done)).
    by apply hasClass_classList_add; [apply is_token_content|]. }
  split.
  { unfold d4. rewrite getAttribute_classList_remove_ne by (right; done).
    apply getAttribute_removeAttribute. }
  split; [apply hasClass_classList_remove|].
  split.
  { unfold getType, d4, d3, d2.
    rewrite getAttribute_classList_remove_ne by (right; done).
    rewrite getAttribute_removeAttribute_ne by (right; done).
    rewrite getAttribute_classList_add_ne by (right; done).
    apply node_data_getAttribute.
    by apply (insertBefore_node_data _ _ _ _ _ _ Hd1). }
  split.
  { intros Hp. destruct (Ht img) as (_ & -> & _).
    by apply (insertBefore_children_detached _ _ _ _ _ Hp Hd1). }
  split.
  { destruct (Ht img) as (_ & _ & _ & -> & _). apply node_data_is_element.
    by apply (insertBefore_node_data _ _ _ _ _ _ Hd1). }
  split.
  { intros tag. destruct (Ht img) as (_ & _ & _ & _ & ->).
    apply node_data_tag_is.
    by apply (insertBefore_node_data _ _ _ _ _ _ Hd1). }
  by destruct (ld_callback ld).
Qed.

Lemma descendants_upto_leaf d (fuel x : nat) :
  children d x = [] → descendants_upto fuel d x = [].
Proof. intros H. destruct fuel; simpl; [done|]. by rewrite H. Qed.

Lemma descendants_leaf d (x : nat) : children d x = [] → descendants d x = [].
Proof. apply descendants_upto_leaf. Qed.

Lemma descendants_one_leaf d (x c : nat) :
  is_Some (d !! x) → children d x = [c] → children d c = [] →
  descendants d x = [c].
Proof.
  intros [n Hx] Hch Hc. unfold descendants.
  destruct (size d) as [|fuel] eqn:Hs.
  - apply map_size_empty_iff in Hs. subst. by rewrite lookup_empty in Hx.
  - simpl. rewrite Hch. simpl. by rewrite descendants_upto_leaf.
Qed.

Lemma can_parent_is_Some d (x : nat) : can_parent d x = true → is_Some (d !! x).
Proof. unfold can_parent. by destruct (d !! x). Qed.

Lemma is_element_can_parent d (x : nat) :
  is_element d x = true → can_parent d x = true.
Proof.
  unfold is_element, can_parent. destruct (d !! x); [|done].
  intros ->. done.
Qed.

(** The container [createElement] picks is a node of the document that
    can have children. *)
Lemma container_can_parent (E : Collab) (w : world) :
  wf_world E w →
  can_parent (w_dom w)
    (default (body_getBodyElement E)
       (head (getElementsByClass (w_dom w) (Stage_BACKGROUND_CLASS_NAME E)
                (body_getBodyElement E)))) = true.
Proof.
  intros (_ & _ & Hbody).
  destruct (getElementsByClass _ _ _) as [|c l] eqn:Hl; simpl; [done|].
  assert (Hin : c ∈ getElementsByClass (w_dom w)
                  (Stage_BACKGROUND_CLASS_NAME E) (body_getBodyElement E))
    by (rewrite Hl; left).
  apply list_elem_of_filter in Hin as [Hin _].
  apply andb_true_iff in Hin as [Hel _]. by apply is_element_can_parent.
Qed.

Lemma type_image_tests :
  Js.eqs TYPE_IMAGE TYPE_CONTAINER = false
  ∧ Js.eqs TYPE_IMAGE TYPE_TEXT = false
  ∧ Js.eqs TYPE_IMAGE TYPE_HTML = false
  ∧ Js.eqs TYPE_IMAGE TYPE_IMAGE = true.
Proof. vm_compute. done. Qed.

(** In a well-formed world every parent is a node in use. *)
Lemma parent_in_use (E : Collab) (w : world) (y q : nat) :
  wf_world E w → parent (w_dom w) y = Some q → (q < w_fresh w)%nat.
Proof.
  intros (Hwf & Hfresh & _) Hp.
  destruct (wf_parent _ _ _ Hwf Hp) as (Hc & _).
  apply can_parent_is_Some in Hc as [n Hn].
  destruct (decide (q < w_fresh w)%nat) as [|Hge]; [done|].
  rewrite Hfresh in Hn by lia. done.
Qed.

(** [createElement('image')] in a well-formed world: the new element
    has the next identity, the type of an image and no children, and no
    node has the identity after it as its parent. *)
Lemma createElement_image (E : Collab) (w : world) :
  wf_world E w →
  ∃ w1, createElement E w TYPE_IMAGE = Some (w_fresh w, w1)
    ∧ w_fresh w1 = S (w_fresh w)
    ∧ w_loaders w1 = w_loaders w
    ∧ getType (w_dom w1) (w_fresh w) = Some TYPE_IMAGE
    ∧ children (w_dom w1) (w_fresh w) = []
    ∧ can_parent (w_dom w1) (w_fresh w) = true
    ∧ ∀ y, parent (w_dom w1) y ≠ Some (S (w_fresh w)).
Proof.
  intros Hw. pose proof (container_can_parent E w Hw) as Hcont.
  pose proof (parent_in_use E w) as Huse.
  destruct Hw as (Hwf & Hfresh & Hbody).
  unfold createElement.
  destruct type_image_tests as (-> & -> & -> & ->).
  set (container := default _ _) in *.
  unfold createImageElement, alloc.
  cbn [mbind option_bind w_dom w_fresh set_dom emit property_setStyle].
  set (el := w_fresh w).
  set (d0 := <[el := new_element (Js.lit "div")]> (w_dom w)).
  set (d3 := classList_add (classList_add (setAttribute d0 el _ _) el _) el _).
  assert (Hne : container ≠ el).
  { intros Heq. apply can_parent_is_Some in Hcont as [n Hn].
    rewrite Heq, Hfresh in Hn by done. done. }
  assert (Hp0 : ∀ y q, parent d0 y = Some q → (q < el)%nat).
  { intros y q. unfold parent, d0. destruct (decide (el = y)) as [<-|Hy].
    - by rewrite lookup_insert_eq.
    - rewrite lookup_insert_ne by done. apply (Huse y q). by split. }
  assert (Ht3 : same_tree d0 d3).
  { eapply same_tree_trans; [apply same_tree_setAttribute|].
    eapply same_tree_trans; apply same_tree_classList_add. }
  assert (Hc3 : can_parent d3 container = true).
  { destruct Ht3 as [_ Ht3]. destruct (Ht3 container) as (_ & _ & -> & _).
    unfold can_parent, d0. by rewrite lookup_insert_ne. }
  assert (Ha3 : contains d3 el container = false).
  { rewrite (same_tree_contains d0) by done.
    apply not_ancestor_of_unparented; [|done].
    intros y Hy. apply Hp0 in Hy. lia. }
  destruct (insertBefore_succeeds d3 container el None Hc3 Ha3) as [d4 Hd4];
    [done|].
  exists (set_dom (classList_add d4 el JUST_ADDED_CLASS_NAME)
            (set_dom d3
               (emit (BodySetEditable el true)
                  (property_setStyle el
                     (<[Js.lit "height":=Js.lit "100px"]>
                        (<[Js.lit "width":=Js.lit "100px"]>
                           (<[Js.lit "top":=px (100 + stage_getScrollY E)]>
                              (<[Js.lit "left":=px (100 + stage_getScrollX E)]>
                                 ∅))))
                     (emit (PropertyInitSilexId el)
                        (World d0 (S el) (w_styles w) (w_loaders w)
                           (w_trace w))))))).
  split.
  { unfold addElement, appendChild. cbn [w_dom set_dom]. fold d0 d3.
    rewrite Hd4. done. }
  cbn [w_dom w_fresh w_loaders set_dom emit property_setStyle].
  destruct (same_tree_classList_add d4 el JUST_ADDED_CLASS_NAME) as [_ Ht5].
  destruct Ht3 as [_ Ht3].
  assert (Hel0 : d0 !! el = Some (new_element (Js.lit "div"))).
  { unfold d0. by rewrite lookup_insert_eq. }
  split; [done|]. split; [done|]. split.
  { unfold getType.
    rewrite getAttribute_classList_add_ne by (right; done).
    rewrite (node_data_getAttribute d3)
      by apply (insertBefore_node_data _ _ _ _ _ _ Hd4).
    unfold d3. rewrite !getAttribute_classList_add_ne by (right; done).
    by apply getAttribute_setAttribute. }
  assert (Hcp3 : can_parent d3 el = true).
  { destruct (Ht3 el) as (_ & _ & -> & _). unfold can_parent.
    by rewrite Hel0. }
  assert (Hp3 : parent d3 el = None).
  { destruct (Ht3 el) as (-> & _). unfold parent. by rewrite Hel0. }
  split.
  { destruct (Ht5 el) as (_ & -> & _).
    rewrite (insertBefore_children_detached _ _ _ _ _ Hp3 Hd4).
    destruct (Ht3 el) as (_ & -> & _). unfold children. by rewrite Hel0. }
  split.
  { destruct (Ht5 el) as (_ & _ & -> & _).
    by rewrite (node_data_can_parent d3)
      by apply (insertBefore_node_data _ _ _ _ _ _ Hd4). }
  intros y. destruct (Ht5 y) as (-> & _).
  destruct (decide (el = y)) as [<-|Hy].
  - rewrite (insertBefore_parent _ _ _ _ _ Hd4)
      by by apply can_parent_is_Some.
    intros [= Heq]. apply can_parent_is_Some in Hcont as [n Hn].
    rewrite Heq, Hfresh in Hn by (unfold el; lia). done.
  - rewrite (insertBefore_parent_ne _ _ _ _ _ _ Hd4) by done.
    destruct (Ht3 y) as (-> & _). intros Hq. apply Hp0 in Hq. lia.
Qed.
Lemma getAttribute_is_Some d (x : nat) name v :
  getAttribute d x name = Some v → is_Some (d !! x).
Proof. unfold getAttribute. by destruct (d !! x). Qed.

(** C4: in a well-formed world, [createElement('image')], then
    [setImageUrl] on the new element, then the arrival of the image:
    the loader that was started is the last one in flight and holds the
    two callbacks; when it completes, the image is the only child and
    the content node of the element, an [img] with the content class
    and without the identifier of the loader; the loading class, there
    while the load was in flight, is gone; the success callback, when
    given, was called with the element and the image before the redraw
    request; and the type of the element is still that of an image. *)
Theorem create_image_then_load (E : Collab) (w : world) (url : list N)
    (opt_callback opt_errorCallback : option nat) :
  wf_world E w →
  ∃ element img w1 w3,
    createElement E w TYPE_IMAGE = Some (element, w1)
    ∧ w_loaders (setImageUrl w1 element url opt_callback opt_errorCallback)
      = w_loaders w1 ++ [Loader element img opt_callback opt_errorCallback]
    ∧ hasClass
        (w_dom (setImageUrl w1 element url opt_callback opt_errorCallback))
        element LOADING_ELEMENT_CSS_CLASS = true
    ∧ load_completes
        (setImageUrl w1 element url opt_callback opt_errorCallback)
        (length (w_loaders w1)) = Some w3
    ∧ img ≠ element
    ∧ children (w_dom w3) element = [img]
    ∧ getContentNode (w_dom w3) element = img
    ∧ tag_is (w_dom w3) img (Js.lit "img") = true
    ∧ hasClass (w_dom w3) img ELEMENT_CONTENT_CLASS_NAME = true
    ∧ getAttribute (w_dom w3) img (Js.lit "id") = None
    ∧ hasClass (w_dom w3) element LOADING_ELEMENT_CSS_CLASS = false
    ∧ w_trace w3
      = BodySetSelection
        :: match opt_callback with
           | Some f => [Callback f element img]
           | None => []
           end ++ w_trace w1
    ∧ getType (w_dom w3) element = Some TYPE_IMAGE.
Proof.
  intros Hw.
  destruct (createElement_image E w Hw)
    as (w1 & Hcreate & Hfresh1 & Hld1 & Hty & Hch & Hcp & Hpar).
  set (el := w_fresh w) in *. set (img := S el) in *.
  set (d6 := classList_add (w_dom w1) el LOADING_ELEMENT_CSS_CLASS).
  set (d7 := <[img := ImageLoader_image url url]> d6).
  assert (Hne : img ≠ el) by (unfold img; lia).
  destruct (same_tree_classList_add (w_dom w1) el LOADING_ELEMENT_CSS_CLASS)
    as [_ Ht6]. fold d6 in Ht6.
  assert (Hw2 : setImageUrl w1 el url opt_callback opt_errorCallback
                = World d7 (S img) (w_styles w1)
                    (w_loaders w1
                     ++ [Loader el img opt_callback opt_errorCallback])
                    (w_trace w1)).
  { unfold setImageUrl. rewrite bool_decide_eq_true_2 by exact Hty.
    fold d6. unfold getElementsByTagNameAndClass.
    rewrite (descendants_leaf d6 el)
      by (destruct (Ht6 el) as (_ & -> & _); exact Hch).
    rewrite filter_nil. unfold alloc. cbn [w_dom w_fresh set_dom].
    rewrite Hfresh1. fold img d7. done. }
  assert (Hel1 : is_Some (w_dom w1 !! el))
    by (by apply can_parent_is_Some).
  assert (Hcp7 : can_parent d7 el = true).
  { unfold can_parent, d7. rewrite lookup_insert_ne by done.
    destruct (Ht6 el) as (_ & _ & Hc6 & _). unfold can_parent in Hc6.
    by rewrite Hc6. }
  assert (Himg7 : d7 !! img = Some (ImageLoader_image url url))
    by (unfold d7; by rewrite lookup_insert_eq).
  assert (Hpar7 : ∀ y, parent d7 y ≠ Some img).
  { intros y. unfold parent. destruct (decide (img = y)) as [<-|Hy].
    - by rewrite Himg7.
    - unfold d7. rewrite lookup_insert_ne by done.
      destruct (Ht6 y) as (Hp6 & _). unfold parent in Hp6. rewrite Hp6.
      apply Hpar. }
  assert (Ha7 : contains d7 img el = false)
    by (by apply not_ancestor_of_unparented).
  assert (Hp7 : parent d7 img = None)
    by (unfold parent; by rewrite Himg7).
  assert (Hch7 : children d7 el = []).
  { unfold children, d7. rewrite lookup_insert_ne by done.
    destruct (Ht6 el) as (_ & Hc6 & _). unfold children in Hc6.
    by rewrite Hc6. }
  destruct (on_load_effect
              (set_loaders
                 (delete (length (w_loaders w1))
                    (w_loaders w1
                     ++ [Loader el img opt_callback opt_errorCallback]))
                 (World d7 (S img) (w_styles w1)
                    (w_loaders w1
                     ++ [Loader el img opt_callback opt_errorCallback])
                    (w_trace w1)))
              (Loader el img opt_callback opt_errorCallback)
              Hcp7 Ha7 (mk_is_Some _ _ Himg7))
    as (w3 & Hw3 & Hch3 & _ & Hcls3 & Hid3 & Hload3 & Hty3 & Hchi3 & Hel3
        & Htag3 & Htr3 & _).
  cbn [ld_element ld_image ld_callback w_dom w_trace set_loaders] in *.
  exists el, img, w1, w3. rewrite Hw2. cbn [w_dom w_loaders].
  split; [exact Hcreate|]. split; [done|]. split.
  { rewrite (hasClass_getAttribute d6).
    - by apply hasClass_classList_add; [apply is_token_loading|].
    - unfold getAttribute, d7. by rewrite lookup_insert_ne. }
  split.
  { unfold load_completes. cbn [w_loaders].
    rewrite list_lookup_middle by done. exact Hw3. }
  split; [done|].
  assert (Hchildren : children (w_dom w3) el = [img]).
  { rewrite Hch3, (detach_unparented d7 img Hp7), Hch7. done. }
  split; [exact Hchildren|]. split.
  { unfold getContentNode, getElementsByClass.
    assert (Hty3' : getType (w_dom w3) el = Some TYPE_IMAGE)
      by (by rewrite Hty3; unfold getType;
          rewrite (node_data_getAttribute d6)
            by (unfold d7; by rewrite lookup_insert_ne);
          unfold d6; rewrite getAttribute_classList_add_ne by (right; done)).
    rewrite (descendants_one_leaf (w_dom w3) el img).
    - rewrite filter_cons_True; [done|].
      rewrite Hel3, Hcls3. unfold is_element. by rewrite Himg7.
    - by apply getAttribute_is_Some in Hty3'.
    - exact Hchildren.
    - rewrite (Hchi3 Hp7). unfold children. by rewrite Himg7. }
  split.
  { rewrite Htag3. unfold tag_is. rewrite Himg7. vm_compute. done. }
  split; [exact Hcls3|]. split; [exact Hid3|]. split; [exact Hload3|].
  split; [exact Htr3|].
  rewrite Hty3. unfold getType.
  rewrite (node_data_getAttribute d6)
    by (unfold d7; by rewrite lookup_insert_ne).
  unfold d6. by rewrite getAttribute_classList_add_ne by (right; done).
Qed.

(** In the scenario the new element is node 6 and its image node 7. *)
Lemma create_image_then_load_witness :
  ∃ element img w1 w3,
    createElement Scenario.paged Scenario.four_siblings_world TYPE_IMAGE
    = Some (element, w1)
    ∧ w_loaders (setImageUrl w1 element (Js.lit "a.png") (Some 1%nat) None)
      = w_loaders w1 ++ [Loader element img (Some 1%nat) None]
    ∧ hasClass
        (w_dom (setImageUrl w1 element (Js.lit "a.png") (Some 1%nat) None))
        element LOADING_ELEMENT_CSS_CLASS = true
    ∧ load_completes
        (setImageUrl w1 element (Js.lit "a.png") (Some 1%nat) None)
        (length (w_loaders w1)) = Some w3
    ∧ img ≠ element
    ∧ children (w_dom w3) element = [img]
    ∧ getContentNode (w_dom w3) element = img
    ∧ tag_is (w_dom w3) img (Js.lit "img") = true
    ∧ hasClass (w_dom w3) img ELEMENT_CONTENT_CLASS_NAME = true
    ∧ getAttribute (w_dom w3) img (Js.lit "id") = None
    ∧ hasClass (w_dom w3) element LOADING_ELEMENT_CSS_CLASS = false
    ∧ w_trace w3
      = BodySetSelection :: [Callback 1 element img] ++ w_trace w1
    ∧ getType (w_dom w3) element = Some TYPE_IMAGE.
Proof.
  apply (create_image_then_load Scenario.paged Scenario.four_siblings_world
           (Js.lit "a.png") (Some 1%nat) None).
  split; [vm_compute; reflexivity|]. split; [|vm_compute; reflexivity].
  intros y Hy. apply not_elem_of_list_to_map_1. simpl in *.
  rewrite !elem_of_cons, elem_of_nil. lia.
Defined.

(** C6, as amended: a completion is never discarded. Whichever call
    started the loader and whatever the element holds by then, the
    listener appends the image as the last child of the element, tags it
    with the content class, removes the loading class, calls the success
    callback and asks for a redraw; the loader then is gone. The class
    keeps no record of which load is the latest. The premises say that
    the element can take the image as a child. *)
Theorem load_completes_regardless (w : world) (k : nat) (ld : loader) :
  w_loaders w !! k = Some ld →
  can_parent (w_dom w) (ld_element ld) = true →
  contains (w_dom w) (ld_image ld) (ld_element ld) = false →
  is_Some (w_dom w !! ld_image ld) →
  ∃ w', load_completes w k = Some w'
    ∧ last (children (w_dom w') (ld_element ld)) = Some (ld_image ld)
    ∧ parent (w_dom w') (ld_image ld) = Some (ld_element ld)
    ∧ hasClass (w_dom w') (ld_image ld) ELEMENT_CONTENT_CLASS_NAME = true
    ∧ hasClass (w_dom w') (ld_element ld) LOADING_ELEMENT_CSS_CLASS = false
    ∧ w_loaders w' = delete k (w_loaders w)
    ∧ w_trace w'
      = BodySetSelection
        :: match ld_callback ld with
           | Some f => [Callback f (ld_element ld) (ld_image ld)]
           | None => []
           end ++ w_trace w.
Proof.
  intros Hk Hc Ha Himg.
  destruct (on_load_effect (set_loaders (delete k (w_loaders w)) w) ld
              Hc Ha Himg)
    as (w' & Hw' & Hch & Hp & Hcls & _ & Hload & _ & _ & _ & _ & Htr & Hld & _).
  exists w'. unfold load_completes. rewrite Hk. simpl.
  repeat split; try done.
  rewrite Hch. apply last_snoc.
Qed.

(** The late image of the scenario: the second call has its image in
    place when the loader of the first call completes. *)
Lemma load_completes_regardless_witness :
  ∃ w', load_completes Scenario.second_loaded 0 = Some w'
    ∧ last (children (w_dom w') 6) = Some 7%nat
    ∧ parent (w_dom w') 7 = Some 6%nat
    ∧ hasClass (w_dom w') 7 ELEMENT_CONTENT_CLASS_NAME = true
    ∧ hasClass (w_dom w') 6 LOADING_ELEMENT_CSS_CLASS = false
    ∧ w_loaders w' = []
    ∧ w_trace w'
      = BodySetSelection :: [Callback 1 6 7] ++ w_trace Scenario.second_loaded.
Proof.
  apply (load_completes_regardless Scenario.second_loaded 0
           (Loader 6 7 (Some 1%nat) None)).
  - vm_compute. reflexivity.
  - vm_compute. reflexivity.
  - vm_compute. reflexivity.
  - vm_compute. eexists. reflexivity.
Defined.

(** C6 fails: after two calls of [setImageUrl] on the new image element
    the image of the second call arrives and is the content node, with
    the loader of the first call still in flight; when that loader
    completes, its image is appended and tagged all the same, its
    callback is called, and the element, now with two content nodes, is
    its own content node. *)
Lemma stale_load_counterexample :
  createElement Scenario.paged Scenario.four_siblings_world TYPE_IMAGE
  = Some (6%nat, Scenario.image_world)
  ∧ w_loaders Scenario.two_loads
    = [Loader 6 7 (Some 1%nat) None; Loader 6 8 (Some 2%nat) None]
  ∧ load_completes Scenario.two_loads 1 = Some Scenario.second_loaded
  ∧ children (w_dom Scenario.second_loaded) 6 = [8%nat]
  ∧ getContentNode (w_dom Scenario.second_loaded) 6 = 8%nat
  ∧ w_loaders Scenario.second_loaded = [Loader 6 7 (Some 1%nat) None]
  ∧ load_completes Scenario.second_loaded 0 = Some Scenario.first_loaded_late
  ∧ children (w_dom Scenario.first_loaded_late) 6 = [8%nat; 7%nat]
  ∧ hasClass (w_dom Scenario.first_loaded_late) 7 ELEMENT_CONTENT_CLASS_NAME
    = true
  ∧ getContentNode (w_dom Scenario.first_loaded_late) 6 = 6%nat
  ∧ head (tail (w_trace Scenario.first_loaded_late)) = Some (Callback 1 6 7)
  ∧ children (w_dom Scenario.first_loaded_late) 6
    ≠ children (w_dom Scenario.second_loaded) 6.
Proof. vm_compute. repeat split; try reflexivity. discriminate. Qed.

End Images.

(* ================================================================== *)
(** * Tabs, links and properties *)
(* ================================================================== *)

Section MoreAttributes.

Import Dom Element.

Implicit Types d : gmap nat node.

(** X1: [getTabs(num)] is [num] times four spaces. *)
Theorem getTabs_spaces (num : nat) :
  getTabs num = replicate (4 * num) 32
  ∧ length (getTabs num) = (4 * num)%nat.
Proof.
  assert (H : getTabs num = replicate (4 * num) 32).
  { induction num as [|n IH]; [done|]. cbn [getTabs]. rewrite IH.
    replace (4 * S n)%nat with (4 * n + 4)%nat by lia.
    by rewrite replicate_add. }
  split; [exact H|]. by rewrite H, length_replicate.
Qed.

(** X2: [getLink] reads back what [setLink] wrote: the link that was
    given when it is a string that is not empty, and [null] for the
    empty string, [null] and [undefined]. No other attribute of the
    element, no attribute of another node and nothing of the tree
    changes. *)
Theorem getLink_setLink d (element : nat) (opt_link : jsval) :
  is_Some (d !! element) →
  getLink (setLink d element opt_link) element
  = (if truthy opt_link then Some (string_of opt_link) else None)
  ∧ (∀ el name, el ≠ element ∨ name ≠ LINK_ATTR →
       getAttribute (setLink d element opt_link) el name
       = getAttribute d el name)
  ∧ same_tree d (setLink d element opt_link).
Proof.
  intros Hel. unfold getLink, setLink. destruct (truthy opt_link).
  - split; [by apply getAttribute_setAttribute|]. split.
    + intros el name H. apply getAttribute_setAttribute_ne.
      destruct H; [left|right]; congruence.
    + apply same_tree_setAttribute.
  - split; [apply getAttribute_removeAttribute|]. split.
    + intros el name H. apply getAttribute_removeAttribute_ne.
      destruct H; [left|right]; congruence.
    + apply same_tree_removeAttribute.
Qed.

(** Sibling B of the scenario gets a link to the second page. *)
Lemma getLink_setLink_witness :
  getLink (setLink Scenario.four_siblings 3 (Str (Js.lit "#!page2"))) 3
  = Some (Js.lit "#!page2").
Proof.
  destruct (getLink_setLink Scenario.four_siblings 3 (Str (Js.lit "#!page2")))
    as [H _].
  - vm_compute. eexists. reflexivity.
  - exact H.
Defined.

(** X3: [setProperty] works on the element or, when asked to, on its
    content node. With a string, the empty one included, and a name the
    browser accepts, the attribute of that name in lower case then has
    the string as its value; a name the browser refuses makes the call
    throw. With [null] or [undefined] the attribute is absent
    afterwards. No other attribute, no other node and nothing of the
    tree changes. *)
Theorem setProperty_sets_or_removes (ok : list N → bool) d (element : nat)
    (propertyName : list N) (opt_propertyValue : jsval)
    (opt_applyToContent : bool) :
  let target :=
    if opt_applyToContent then getContentNode d element else element in
  let name := ascii_lower propertyName in
  is_Some (d !! target) →
  (isDefAndNotNull opt_propertyValue = true → ok propertyName = false →
   setProperty ok d element propertyName opt_propertyValue opt_applyToContent
   = None)
  ∧ (isDefAndNotNull opt_propertyValue = false ∨ ok propertyName = true →
     ∃ d',
       setProperty ok d element propertyName opt_propertyValue
         opt_applyToContent = Some d'
       ∧ getAttribute d' target name
         = (if isDefAndNotNull opt_propertyValue
            then Some (string_of opt_propertyValue) else None)
       ∧ (∀ el other, el ≠ target ∨ other ≠ name →
            getAttribute d' el other = getAttribute d el other)
       ∧ same_tree d d').
Proof.
  intros target name Htarget. unfold setProperty, setAttribute_checked.
  fold target name. split.
  - by intros -> ->.
  - intros Hok. destruct (isDefAndNotNull opt_propertyValue) eqn:Hv.
    + destruct Hok as [Hok|Hok]; [done|]. rewrite Hok.
      eexists. split; [done|]. split; [by apply getAttribute_setAttribute|].
      split; [|apply same_tree_setAttribute].
      intros el other H. apply getAttribute_setAttribute_ne.
      destruct H; [left|right]; congruence.
    + eexists. split; [done|]. split; [apply getAttribute_removeAttribute|].
      split; [|apply same_tree_removeAttribute].
      intros el other H. apply getAttribute_removeAttribute_ne.
      destruct H; [left|right]; congruence.
Qed.

(** Sibling B of the scenario gets a title; the name is given with a
    capital letter and stored without. *)
Lemma setProperty_sets_or_removes_witness :
  ∃ d',
    setProperty Scenario.attribute_name_ok Scenario.four_siblings 3
      (Js.lit "Title") (Str (Js.lit "B")) false = Some d'
    ∧ getAttribute d' 3 (Js.lit "title") = Some (Js.lit "B").
Proof.
  destruct (setProperty_sets_or_removes Scenario.attribute_name_ok
              Scenario.four_siblings 3 (Js.lit "Title") (Str (Js.lit "B"))
              false) as [_ H].
  - vm_compute. eexists. reflexivity.
  - destruct H as (d' & Hd' & Hget & _).
    + right. vm_compute. reflexivity.
    + exists d'. split; [exact Hd'|exact Hget].
Defined.

End MoreAttributes.

(* ================================================================== *)
(** * Reading styles back *)
(* ================================================================== *)

Section MoreStyles.

Import Dom Element.

Implicit Types d : gmap nat node.

Lemma getStyle_set_dom (E : Collab) (w : world) d (el : nat) name :
  getStyle E (set_dom d w) el name = getStyle E w el name.
Proof. done. Qed.

(** What [getStyle] finds after [setStyle]: the text the store holds
    for the style, read through [unprepareHtmlForEdit] unless empty. *)
Lemma getStyle_setStyle (E : Collab) (w : world) (element : nat)
    (styleName : list N) (opt_styleValue : jsval) :
  let stored :=
    style_get (default ∅ (property_getStyleObject w element))
      (goog_string_toSelectorCase E styleName) in
  getStyle E (setStyle E w element styleName opt_styleValue) element styleName
  = match (if strict_neq stored opt_styleValue
           then if isDefAndNotNull opt_styleValue
                then prepareHtmlForEdit E (string_of opt_styleValue)
                else []
           else string_of opt_styleValue) with
    | [] => None
    | c :: v => Some (unprepareHtmlForEdit E (c :: v))
    end.
Proof.
  intros stored. unfold setStyle. rewrite getStyle_set_dom. fold stored.
  destruct (strict_neq stored opt_styleValue) eqn:Hneq.
  - unfold getStyle, property_getStyleObject, property_setStyle.
    cbn [w_styles]. by rewrite lookup_insert_eq, lookup_insert_eq.
  - assert (Hs : stored = opt_styleValue).
    { destruct stored as [| |s], opt_styleValue as [| |v]; try done.
      by apply strict_neq_Str in Hneq. }
    unfold stored, style_get in Hs. unfold getStyle.
    destruct (property_getStyleObject w element) as [o|]; simpl in *.
    + destruct (o !! _) as [s|]; [|by subst]. by subst.
    + rewrite lookup_empty in Hs. by subst.
Qed.

(** X4: what [getStyle] returns after [setStyle]. After [null] or
    [undefined] it is [null]. After a string that differs from the
    stored value it is the string taken through [prepareHtmlForEdit]
    and back through [unprepareHtmlForEdit]; after the string that is
    stored already it is that string taken through
    [unprepareHtmlForEdit] only, as before the call; and [null] in both
    cases when the text to read back is empty. *)
Theorem getStyle_after_setStyle (E : Collab) (w : world) (element : nat)
    (styleName : list N) :
  let stored :=
    style_get (default ∅ (property_getStyleObject w element))
      (goog_string_toSelectorCase E styleName) in
  let read (v : list N) :=
    match v with
    | [] => None
    | _ :: _ => Some (unprepareHtmlForEdit E v)
    end in
  getStyle E (setStyle E w element styleName Null) element styleName = None
  ∧ getStyle E (setStyle E w element styleName Undefined) element styleName
    = None
  ∧ ∀ v,
      getStyle E (setStyle E w element styleName (Str v)) element styleName
      = read (if strict_neq stored (Str v) then prepareHtmlForEdit E v else v)
      ∧ (stored = Str v →
         getStyle E (setStyle E w element styleName (Str v)) element styleName
         = getStyle E w element styleName).
Proof.
  intros stored read. split; [|split].
  - rewrite getStyle_setStyle. fold stored. cbn [isDefAndNotNull string_of].
    by destruct (strict_neq stored Null).
  - rewrite getStyle_setStyle. fold stored. cbn [isDefAndNotNull string_of].
    by destruct (strict_neq stored Undefined).
  - intros v. rewrite getStyle_setStyle. fold stored.
    cbn [isDefAndNotNull string_of]. split.
    + unfold read. by destruct (if strict_neq stored (Str v) then _ else _).
    + intros Hs. rewrite Hs, strict_neq_same.
      unfold stored, style_get in Hs. unfold getStyle.
      destruct (property_getStyleObject w element) as [o|]; simpl in *.
      * destruct (o !! _) as [s|]; [|done]. by injection Hs as ->.
      * by rewrite lookup_empty in Hs.
Qed.

(** Sibling B of the scenario, whose color is red already. *)
Lemma getStyle_after_setStyle_witness :
  getStyle Scenario.paged
    (setStyle Scenario.paged Scenario.already_red 3 Scenario.color
       (Str Scenario.red)) 3 Scenario.color
  = getStyle Scenario.paged Scenario.already_red 3 Scenario.color.
Proof.
  destruct (getStyle_after_setStyle Scenario.paged Scenario.already_red 3
              Scenario.color) as (_ & _ & H).
  destruct (H Scenario.red) as [_ H']. apply H'. vm_compute. reflexivity.
Defined.

(** X5: [setStyle] is local. The styles of every other element read as
    before, and so does every style of the element itself whose name in
    CSS case is another one; the tree, every attribute other than the
    class and the attributes of the other nodes are as before, and no
    node and no loader is added. *)
Theorem setStyle_frame (E : Collab) (w : world) (element : nat)
    (styleName : list N) (opt_styleValue : jsval) :
  let w' := setStyle E w element styleName opt_styleValue in
  (∀ el other,
     el ≠ element
     ∨ goog_string_toSelectorCase E other
       ≠ goog_string_toSelectorCase E styleName →
     getStyle E w' el other = getStyle E w el other)
  ∧ same_tree (w_dom w) (w_dom w')
  ∧ (∀ el name, el ≠ element ∨ name ≠ class_attr →
       getAttribute (w_dom w') el name = getAttribute (w_dom w) el name)
  ∧ w_fresh w' = w_fresh w
  ∧ w_loaders w' = w_loaders w.
Proof.
  intros w'. unfold w', setStyle.
  set (name := goog_string_toSelectorCase E styleName).
  set (o := default ∅ (property_getStyleObject w element)).
  split; [|split; [|split]].
  - intros el other H. rewrite getStyle_set_dom.
    destruct (strict_neq (style_get o name) opt_styleValue); [|done].
    unfold getStyle, property_getStyleObject, property_setStyle.
    cbn [w_styles]. destruct (decide (el = element)) as [->|Hel].
    + destruct H as [H|H]; [done|]. rewrite lookup_insert_eq.
      rewrite lookup_insert_ne by done. unfold o, property_getStyleObject.
      destruct (w_styles w !! element); [done|]. simpl.
      by rewrite lookup_empty.
    + by rewrite lookup_insert_ne.
  - destruct (strict_neq (style_get o name) opt_styleValue);
      apply same_tree_classList_remove.
  - intros el attr H.
    destruct (strict_neq (style_get o name) opt_styleValue);
      apply getAttribute_classList_remove_ne;
      (destruct H; [left|right]; congruence).
  - by destruct (strict_neq (style_get o name) opt_styleValue).
Qed.

(** Clearing the color of sibling B leaves its width as it reads. *)
Lemma setStyle_frame_witness :
  getStyle Scenario.paged
    (setStyle Scenario.paged Scenario.already_red 3 Scenario.color Null)
    3 (Js.lit "width")
  = getStyle Scenario.paged Scenario.already_red 3 (Js.lit "width").
Proof.
  destruct (setStyle_frame Scenario.paged Scenario.already_red 3
              Scenario.color Null) as [H _].
  apply H. right. vm_compute. discriminate.
Defined.

Lemma is_token_just_added : is_token JUST_ADDED_CLASS_NAME.
Proof. split; [done|]. repeat constructor. Qed.

Lemma insertBefore_lookup_is_Some d (p x y : nat) ref d' :
  insertBefore d p x ref = Some d' → is_Some (d' !! y) ↔ is_Some (d !! y).
Proof.
  intros H. apply insertBefore_Some in H as (_ & _ & _ & ->).
  by rewrite !lookup_alter_is_Some, detach_lookup_is_Some.
Qed.

(** X6: the class of a just added element. [addElement] leaves the
    element with it, and the next [setStyle] or [move] of the element,
    whatever the style and the direction, leaves the element without
    it. *)
Theorem just_added_until_touched (E : Collab) (w : world)
    (container element : nat) :
  (∀ w', is_Some (w_dom w !! element) →
     addElement w container element = Some w' →
     hasClass (w_dom w') element JUST_ADDED_CLASS_NAME = true)
  ∧ (∀ styleName opt_styleValue,
       hasClass (w_dom (setStyle E w element styleName opt_styleValue))
         element JUST_ADDED_CLASS_NAME = false)
  ∧ (∀ direction w',
       move E w element direction = Some w' →
       hasClass (w_dom w') element JUST_ADDED_CLASS_NAME = false).
Proof.
  split; [|split].
  - intros w' Hel. unfold addElement, appendChild.
    destruct (insertBefore _ _ _ _) as [d1|] eqn:Hd1; [|done].
    intros [= <-]. cbn [w_dom set_dom].
    apply hasClass_classList_add; [apply is_token_just_added|].
    by apply (insertBefore_lookup_is_Some _ _ _ element _ _ Hd1).
  - intros styleName v. unfold setStyle.
    destruct (strict_neq _ _); apply hasClass_classList_remove.
  - intros direction w'. unfold move.
    destruct (move_dom _ _ _ _) as [d1|]; [|done].
    intros [= <-]. apply hasClass_classList_remove.
Qed.

(** Sibling B of the scenario is added to the container again. *)
Lemma just_added_until_touched_witness :
  ∃ w', addElement Scenario.four_siblings_world 1 3 = Some w'
        ∧ hasClass (w_dom w') 3 JUST_ADDED_CLASS_NAME = true.
Proof.
  assert (Hs : is_Some (addElement Scenario.four_siblings_world 1 3))
    by (vm_compute; eexists; reflexivity).
  destruct Hs as [w' Hw']. exists w'. split; [exact Hw'|].
  destruct (just_added_until_touched Scenario.paged
              Scenario.four_siblings_world 1 3) as [H _].
  apply H; [|exact Hw']. vm_compute. eexists. reflexivity.
Defined.

(** X23: [setBgImage] with an address stores it, wrapped by
    [addUrlKeyword], as the background image of the element, and
    [getStyle] reads it back as [setStyle] left it; with an empty
    address, [null] or [undefined] the background image reads as
    [null] afterwards. In both cases the last thing it does is to ask
    for the tools to be redrawn. *)
Theorem setBgImage_sets_or_clears (E : Collab) (addUrlKeyword : list N → list N)
    (w : world) (element : nat) (url : jsval) :
  let w' := setBgImage E addUrlKeyword w element url in
  let stored :=
    style_get (default ∅ (property_getStyleObject w element))
      (goog_string_toSelectorCase E (Js.lit "backgroundImage")) in
  head (w_trace w') = Some BodySetSelection
  ∧ (truthy url = false →
     getStyle E w' element (Js.lit "backgroundImage") = None)
  ∧ (truthy url = true →
     getStyle E w' element (Js.lit "backgroundImage")
     = getStyle E
         (setStyle E w element (Js.lit "backgroundImage")
            (Str (addUrlKeyword (string_of url))))
         element (Js.lit "backgroundImage")
     ∧ (strict_neq stored (Str (addUrlKeyword (string_of url))) = true →
        prepareHtmlForEdit E (addUrlKeyword (string_of url)) ≠ [] →
        getStyle E w' element (Js.lit "backgroundImage")
        = Some (unprepareHtmlForEdit E
                  (prepareHtmlForEdit E (addUrlKeyword (string_of url)))))).
Proof.
  intros w' stored. unfold w', setBgImage. split; [done|]. split.
  - intros ->.
    change (getStyle E
              (setStyle E w element (Js.lit "backgroundImage") Undefined)
              element (Js.lit "backgroundImage") = None).
    rewrite getStyle_setStyle. fold stored. cbn [isDefAndNotNull string_of].
    by destruct (strict_neq stored Undefined).
  - intros ->. split; [done|]. intros Hneq Hne.
    change (getStyle E
              (setStyle E w element (Js.lit "backgroundImage")
                 (Str (addUrlKeyword (string_of url))))
              element (Js.lit "backgroundImage") = Some
                (unprepareHtmlForEdit E
                   (prepareHtmlForEdit E (addUrlKeyword (string_of url))))).
    rewrite getStyle_setStyle. fold stored. rewrite Hneq.
    cbn [isDefAndNotNull string_of].
    by destruct (prepareHtmlForEdit E (addUrlKeyword (string_of url))).
Qed.

(** Sibling B of the scenario gets a background image. *)
Lemma setBgImage_sets_or_clears_witness :
  getStyle Scenario.paged
    (setBgImage Scenario.paged Scenario.addUrlKeyword
       Scenario.four_siblings_world 3 (Str (Js.lit "a.png")))
    3 (Js.lit "backgroundImage")
  = Some (Js.lit "url('a.png')").
Proof.
  destruct (setBgImage_sets_or_clears Scenario.paged Scenario.addUrlKeyword
              Scenario.four_siblings_world 3 (Str (Js.lit "a.png")))
    as (_ & _ & H).
  destruct H as [_ H]; [reflexivity|].
  etrans; [apply H|].
  - vm_compute. reflexivity.
  - vm_compute. discriminate.
  - vm_compute. reflexivity.
Defined.

End MoreStyles.

(* ================================================================== *)
(** * The sibling scans in general *)
(* ================================================================== *)

Section MoreSiblings.

Import Dom Element.

Implicit Types d : gmap nat node.

(** The loop over children that do not hold the element, or hold it
    without its passing the test of a Silex element, ends without a
    result. *)
Lemma scan_absent (E : Collab) d (element : nat) (l : list nat) res :
  element ∉ l ∨ is_silex_element d element = false →
  scan E d element l res = None.
Proof.
  intros H. revert res. induction l as [|el l IH]; intros res; [done|].
  cbn [scan]. destruct (is_silex_element d el) eqn:Hs.
  - destruct (decide (el = element)) as [->|Hne].
    + destruct H as [H|H]; [|congruence]. exfalso. apply H. left.
    + apply IH. destruct H as [H|H]; [left|by right].
      intros Hin. apply H. by right.
  - apply IH. destruct H as [H|H]; [left|by right].
    intros Hin. apply H. by right.
Qed.

(** The loop up to the element returns the last visible sibling it
    passed, and what it started with when there is none. *)
Lemma scan_last_visible (E : Collab) d (element : nat) (l1 l2 : list nat) res :
  is_silex_element d element = true → element ∉ l1 →
  scan E d element (l1 ++ element :: l2) res
  = match last (filter (λ x, visible_sibling E d x = true) l1) with
    | Some x => Some x
    | None => res
    end.
Proof.
  intros Hs. revert res. induction l1 as [|el l1 IH]; intros res Hnin.
  - cbn [app]. by rewrite (scan_found E d element l2 res Hs).
  - apply not_elem_of_cons in Hnin as [Hne Hnin].
    cbn [app scan]. unfold visible_sibling at 1.
    destruct (is_silex_element d el) eqn:Hel.
    + destruct (decide (el = element)) as [->|_]; [done|].
      rewrite IH by done. simpl.
      destruct (is_candidate E el) eqn:Hc.
      * rewrite filter_cons_True by (by rewrite Hel).
        rewrite last_cons. by destruct (last (filter _ l1)).
      * rewrite filter_cons_False; [done|].
        unfold visible_sibling. by rewrite Hel, Hc.
    + rewrite IH by done. rewrite filter_cons_False; [done|].
      unfold visible_sibling. by rewrite Hel.
Qed.

Lemma last_filter_rev (P : nat → Prop) `{!∀ x, Decision (P x)} (l : list nat) :
  last (filter P (rev l)) = head (filter P l).
Proof.
  induction l as [|a l IH]; [done|]. cbn [rev]. rewrite filter_app.
  destruct (decide (P a)) as [Ha|Ha].
  - rewrite (filter_cons_True P a []) by done.
    rewrite (filter_cons_True P a l) by done. apply last_snoc.
  - rewrite (filter_cons_False P a []) by done.
    rewrite (filter_cons_False P a l) by done.
    rewrite filter_nil, app_nil_r. apply IH.
Qed.

(** [getPreviousElement] as the loop over the children before the
    element. *)
Lemma getPreviousElement_scan (E : Collab) d (element p : nat)
    (l1 l2 : list nat) :
  parent d element = Some p →
  children d p = l1 ++ element :: l2 →
  element ∉ l1 →
  is_silex_element d element = true →
  getPreviousElement E d element
  = Some (last (filter (λ x, visible_sibling E d x = true) l1)).
Proof.
  intros Hp Hch Hnin Hs. unfold getPreviousElement. rewrite Hp. simpl.
  rewrite Hch, scan_last_visible by done.
  by destruct (last _).
Qed.

(** [getNextElement] as the loop over the children after the element,
    from the last one down. *)
Lemma getNextElement_scan (E : Collab) d (element p : nat)
    (l1 l2 : list nat) :
  parent d element = Some p →
  children d p = l1 ++ element :: l2 →
  element ∉ l2 →
  is_silex_element d element = true →
  getNextElement E d element
  = Some (head (filter (λ x, visible_sibling E d x = true) l2)).
Proof.
  intros Hp Hch Hnin Hs. unfold getNextElement. rewrite Hp. simpl.
  rewrite Hch, rev_app_distr. cbn [rev]. rewrite <- app_assoc. cbn [app].
  rewrite scan_last_visible; [|done|].
  - rewrite last_filter_rev. by destruct (head _).
  - intros Hin. apply Hnin. apply list_elem_of_In. apply in_rev.
    by apply list_elem_of_In.
Qed.

(** X7: [getPreviousElement] of a Silex element returns the nearest
    child before it, in the child list of its parent, that is a Silex
    element and a candidate (in the open page, or on no page), and
    [null] when there is none. What it returns is a child before the
    element, never the element itself. *)
Theorem getPreviousElement_nearest (E : Collab) d (element p : nat)
    (l1 l2 : list nat) :
  parent d element = Some p →
  children d p = l1 ++ element :: l2 →
  element ∉ l1 →
  is_silex_element d element = true →
  getPreviousElement E d element
  = Some (last (filter (λ x, visible_sibling E d x = true) l1))
  ∧ ∀ s, getPreviousElement E d element = Some (Some s) →
      s ∈ l1 ∧ s ≠ element ∧ visible_sibling E d s = true.
Proof.
  intros Hp Hch Hnin Hs.
  rewrite (getPreviousElement_scan E d element p l1 l2) by done.
  split; [done|]. intros s [= Hlast].
  assert (Hin : s ∈ filter (λ x, visible_sibling E d x = true) l1).
  { destruct (filter _ l1) as [|a l] using rev_ind; [done|].
    rewrite last_snoc in Hlast. injection Hlast as ->.
    apply elem_of_app. right. left. }
  apply list_elem_of_filter in Hin as [Hvis Hin].
  split; [done|]. split; [|done]. by intros ->.
Qed.

(** Sibling D of the scenario: the nearest one before it is C. *)
Lemma getPreviousElement_nearest_witness :
  getPreviousElement Scenario.paged Scenario.four_siblings 5
  = Some (Some 4%nat).
Proof.
  destruct (getPreviousElement_nearest Scenario.paged Scenario.four_siblings
              5 1 [2; 3; 4]%nat []) as [H _].
  - vm_compute. reflexivity.
  - vm_compute. reflexivity.
  - apply (proj1 (bool_decide_eq_false _)). vm_compute. reflexivity.
  - vm_compute. reflexivity.
  - rewrite H. vm_compute. reflexivity.
Defined.

(** X8: [getNextElement] of a Silex element returns the nearest child
    after it that is a Silex element and a candidate, and [null] when
    there is none. What it returns is a child after the element, never
    the element itself. *)
Theorem getNextElement_nearest (E : Collab) d (element p : nat)
    (l1 l2 : list nat) :
  parent d element = Some p →
  children d p = l1 ++ element :: l2 →
  element ∉ l2 →
  is_silex_element d element = true →
  getNextElement E d element
  = Some (head (filter (λ x, visible_sibling E d x = true) l2))
  ∧ ∀ s, getNextElement E d element = Some (Some s) →
      s ∈ l2 ∧ s ≠ element ∧ visible_sibling E d s = true.
Proof.
  intros Hp Hch Hnin Hs.
  rewrite (getNextElement_scan E d element p l1 l2) by done.
  split; [done|]. intros s [= Hhead].
  assert (Hin : s ∈ filter (λ x, visible_sibling E d x = true) l2).
  { destruct (filter _ l2) as [|a l]; [done|].
    injection Hhead as ->. left. }
  apply list_elem_of_filter in Hin as [Hvis Hin].
  split; [done|]. split; [|done]. by intros ->.
Qed.

(** Sibling A of the scenario: the nearest one after it is B. *)
Lemma getNextElement_nearest_witness :
  getNextElement Scenario.paged Scenario.four_siblings 2 = Some (Some 3%nat).
Proof.
  destruct (getNextElement_nearest Scenario.paged Scenario.four_siblings
              2 1 [] [3; 4; 5]%nat) as [H _].
  - vm_compute. reflexivity.
  - vm_compute. reflexivity.
  - apply (proj1 (bool_decide_eq_false _)). vm_compute. reflexivity.
  - vm_compute. reflexivity.
  - rewrite H. vm_compute. reflexivity.
Defined.

(** X9: for a node that does not pass the test of a Silex element (a
    text node, or an element without the type attribute) both scans
    return [null], whatever its siblings are; for a node without a
    parent both throw. *)
Theorem sibling_scans_of_other_nodes (E : Collab) d (element : nat) :
  (is_silex_element d element = false →
   ∀ p, parent d element = Some p →
     getPreviousElement E d element = Some None
     ∧ getNextElement E d element = Some None)
  ∧ (parent d element = None →
     getPreviousElement E d element = None
     ∧ getNextElement E d element = None).
Proof.
  split.
  - intros Hs p Hp. unfold getPreviousElement, getNextElement.
    rewrite Hp. simpl. by rewrite !scan_absent by by right.
  - intros Hp. unfold getPreviousElement, getNextElement. by rewrite Hp.
Qed.

(** The image of the scenario, node 8, is a child of the image element
    and has no type attribute; the body has no parent. *)
Lemma sibling_scans_of_other_nodes_witness :
  (getPreviousElement Scenario.paged (w_dom Scenario.second_loaded) 8
   = Some None
   ∧ getNextElement Scenario.paged (w_dom Scenario.second_loaded) 8
     = Some None)
  ∧ getPreviousElement Scenario.paged Scenario.four_siblings 0 = None.
Proof.
  split.
  - destruct (sibling_scans_of_other_nodes Scenario.paged
                (w_dom Scenario.second_loaded) 8) as [H _].
    apply (H ltac:(vm_compute; reflexivity) 6%nat).
    vm_compute. reflexivity.
  - destruct (sibling_scans_of_other_nodes Scenario.paged
                Scenario.four_siblings 0) as [_ H].
    destruct H as [H _]; [vm_compute; reflexivity|exact H].
Defined.

End MoreSiblings.

(* ================================================================== *)
(** * Moving an element among its siblings *)
(* ================================================================== *)

Section MoreMoves.

Import Dom Element.

Implicit Types d : gmap nat node.

Lemma wf_children_NoDup d (x : nat) : wf_dom d → NoDup (children d x).
Proof.
  intros Hwf. unfold children. destruct (d !! x) as [n|] eqn:Hx; [|constructor].
  pose proof (wf_dom_lookup d x n Hwf Hx) as Hn. unfold wf_node in Hn.
  rewrite !andb_true_iff in Hn. destruct Hn as [_ Hn].
  by apply bool_decide_eq_true in Hn.
Qed.

Lemma filter_ne_absent (x : nat) (l : list nat) :
  x ∉ l → filter (λ c, c ≠ x) l = l.
Proof.
  induction l as [|c l IH]; [done|]. intros Hnin.
  apply not_elem_of_cons in Hnin as [Hne Hnin].
  rewrite filter_cons_True by done. by rewrite IH.
Qed.

Lemma filter_ne_middle (x : nat) (a b : list nat) :
  x ∉ a → x ∉ b → filter (λ c, c ≠ x) (a ++ x :: b) = a ++ b.
Proof.
  intros Ha Hb. rewrite filter_app, (filter_cons_False _ x) by (by intros H).
  by rewrite !filter_ne_absent.
Qed.

Lemma insert_before_ref_app (x r : nat) (a b : list nat) :
  r ∉ a → insert_before_ref x r (a ++ r :: b) = a ++ x :: r :: b.
Proof.
  induction a as [|c a IH]; intros Hnin; simpl.
  - by destruct (decide (r = r)).
  - apply not_elem_of_cons in Hnin as [Hne Hnin].
    destruct (decide (c = r)); [congruence|]. by rewrite IH.
Qed.

Lemma insert_before_ref_absent (x r : nat) (l : list nat) :
  r ∉ l → insert_before_ref x r l = l ++ [x].
Proof.
  induction l as [|c l IH]; intros Hnin; simpl; [done|].
  apply not_elem_of_cons in Hnin as [Hne Hnin].
  destruct (decide (c = r)); [congruence|]. by rewrite IH.
Qed.

(** In a well-formed document a child of [p] can be put before any
    child of [p], or last, and only the child list of [p] changes. *)
Lemma insertBefore_sibling d (p x : nat) ref :
  wf_dom d → x ∈ children d p →
  (∀ r, ref = Some r → r ∈ children d p) →
  ∃ d', insertBefore d p x ref = Some d'
        ∧ children d' p = placed d p x ref
        ∧ size d' = size d
        ∧ (∀ y, parent d' y = parent d y)
        ∧ (∀ y, node_data <$> d' !! y = node_data <$> d !! y).
Proof.
  intros Hwf Hx Href. pose proof (wf_child d p x Hwf Hx) as Hp.
  destruct (wf_parent d x p Hwf Hp) as (Hc & Ha & _).
  destruct (insertBefore_succeeds d p x ref Hc Ha) as [d' Hd'].
  { intros r Hr. apply wf_child; [done|]. by apply Href. }
  exists d'. split; [done|]. split; [by apply insertBefore_children|].
  split; [by apply insertBefore_size in Hd'|]. split.
  - intros y. destruct (decide (x = y)) as [<-|Hne].
    + rewrite Hp. apply (insertBefore_parent _ _ _ _ _ Hd').
      by apply parent_is_Some in Hp.
    + by apply (insertBefore_parent_ne _ _ _ _ _ _ Hd').
  - intros y. by apply (insertBefore_node_data _ _ _ _ _ _ Hd').
Qed.

Lemma filter_visible_none (E : Collab) d (m : list nat) :
  Forall (λ x, visible_sibling E d x = false) m →
  filter (λ x, visible_sibling E d x = true) m = [].
Proof.
  induction 1 as [|x m Hx _ IH]; [done|].
  rewrite filter_cons_False by congruence. exact IH.
Qed.

(** X10: [move] with UP takes the nearest visible sibling after the
    element and puts it right before the element: the element is then
    one visible sibling further up. The children between the two, which
    no scan returns, stay behind the element, every other child keeps
    its place and no node changes its parent. *)
Theorem move_up_over_next (E : Collab) (w : world) (element p s : nat)
    (l1 m l3 : list nat) :
  wf_dom (w_dom w) →
  parent (w_dom w) element = Some p →
  children (w_dom w) p = l1 ++ element :: m ++ s :: l3 →
  is_silex_element (w_dom w) element = true →
  Forall (λ x, visible_sibling E (w_dom w) x = false) m →
  visible_sibling E (w_dom w) s = true →
  ∃ w', move E w element UP = Some w'
    ∧ children (w_dom w') p = l1 ++ s :: element :: m ++ l3
    ∧ ∀ y, parent (w_dom w') y = parent (w_dom w) y.
Proof.
  intros Hwf Hp Hch Hs Hm Hvis.
  pose proof (wf_children_NoDup (w_dom w) p Hwf) as Hnd. rewrite Hch in Hnd.
  apply NoDup_app in Hnd as (Hnd1 & Hl1 & Hnd).
  apply NoDup_cons in Hnd as [Hel Hnd].
  apply NoDup_app in Hnd as (Hndm & Hm3 & Hnd3).
  apply NoDup_cons in Hnd3 as [Hs3 Hnd3].
  assert (Hnext : getNextElement E (w_dom w) element = Some (Some s)).
  { rewrite (getNextElement_scan E _ element p l1 (m ++ s :: l3))
      by done.
    rewrite filter_app, filter_visible_none by done.
    by rewrite filter_cons_True by done. }
  assert (Hsin : s ∈ children (w_dom w) p).
  { rewrite Hch. rewrite !elem_of_app, !elem_of_cons, elem_of_app,
      elem_of_cons. auto. }
  assert (Hne : element ≠ s).
  { intros ->. apply Hel. rewrite elem_of_app, elem_of_cons. auto. }
  destruct (insertBefore_sibling (w_dom w) p s (Some element) Hwf Hsin)
    as (d' & Hd' & Hch' & _ & Hpar & _).
  { intros r [= <-]. rewrite Hch, elem_of_app, elem_of_cons. auto. }
  exists (set_dom (classList_remove d' element JUST_ADDED_CLASS_NAME) w).
  destruct (same_tree_classList_remove d' element JUST_ADDED_CLASS_NAME)
    as [_ Ht].
  split; [|split].
  - unfold move, move_dom. rewrite Hnext. simpl. rewrite Hp. simpl.
    by rewrite Hd'.
  - cbn [w_dom set_dom]. destruct (Ht p) as (_ & -> & _).
    rewrite Hch'. unfold placed.
    rewrite bool_decide_eq_false_2 by congruence.
    rewrite (detach_children _ s p) by (by apply wf_child).
    rewrite Hch.
    replace (l1 ++ element :: m ++ s :: l3)
      with ((l1 ++ element :: m) ++ s :: l3) by (by rewrite <- app_assoc).
    rewrite filter_ne_middle.
    + rewrite <- app_assoc. cbn [app].
      rewrite insert_before_ref_app; [done|].
      intros H. apply (Hl1 element H). left.
    + rewrite elem_of_app, elem_of_cons. intros [H|[H|H]].
      * apply (Hl1 s H). rewrite elem_of_cons, elem_of_app, elem_of_cons. auto.
      * congruence.
      * apply (Hm3 s H). left.
    + done.
  - intros y. cbn [w_dom set_dom]. destruct (Ht y) as (-> & _). apply Hpar.
Qed.

(** Sibling A of the scenario goes up over B. *)
Lemma move_up_over_next_witness :
  ∃ w', move Scenario.paged Scenario.four_siblings_world 2 UP = Some w'
    ∧ children (w_dom w') 1 = [3; 2; 4; 5]%nat.
Proof.
  destruct (move_up_over_next Scenario.paged Scenario.four_siblings_world
              2 1 3 [] [] [4; 5]%nat) as (w' & Hw' & Hch & _).
  - vm_compute. reflexivity.
  - vm_compute. reflexivity.
  - vm_compute. reflexivity.
  - vm_compute. reflexivity.
  - constructor.
  - vm_compute. reflexivity.
  - exists w'. split; [exact Hw'|exact Hch].
Defined.

Lemma next_in_app (x : nat) (a b : list nat) :
  x ∉ a → next_in x (a ++ x :: b) = head b.
Proof.
  induction a as [|c a IH]; intros Hnin; simpl.
  - by destruct (decide (x = x)).
  - apply not_elem_of_cons in Hnin as [Hne Hnin].
    destruct (decide (c = x)); [congruence|]. by apply IH.
Qed.

(** X11: [move] with DOWN takes the nearest visible sibling before the
    element and puts it right behind the element: the element is then
    one visible sibling further down. The children between the two stay
    before the element, every other child keeps its place and no node
    changes its parent. *)
Theorem move_down_under_previous (E : Collab) (w : world) (element p s : nat)
    (l1 m l3 : list nat) :
  wf_dom (w_dom w) →
  parent (w_dom w) element = Some p →
  children (w_dom w) p = l1 ++ s :: m ++ element :: l3 →
  is_silex_element (w_dom w) element = true →
  Forall (λ x, visible_sibling E (w_dom w) x = false) m →
  visible_sibling E (w_dom w) s = true →
  ∃ w', move E w element DOWN = Some w'
    ∧ children (w_dom w') p = l1 ++ m ++ element :: s :: l3
    ∧ ∀ y, parent (w_dom w') y = parent (w_dom w) y.
Proof.
  intros Hwf Hp Hch Hs Hm Hvis.
  pose proof (wf_children_NoDup (w_dom w) p Hwf) as Hnd. rewrite Hch in Hnd.
  apply NoDup_app in Hnd as (Hnd1 & Hl1 & Hnd).
  apply NoDup_cons in Hnd as [Hs' Hnd].
  apply NoDup_app in Hnd as (Hndm & Hm3 & Hnd3).
  apply NoDup_cons in Hnd3 as [Hel3 Hnd3].
  assert (Hne : s ≠ element).
  { intros ->. apply Hs'. rewrite elem_of_app, elem_of_cons. auto. }
  assert (Hel1 : element ∉ l1 ++ s :: m).
  { rewrite elem_of_app, elem_of_cons. intros [H|[H|H]].
    - apply (Hl1 element H).
      rewrite elem_of_cons, elem_of_app, elem_of_cons. auto.
    - congruence.
    - apply (Hm3 element H). left. }
  assert (Hch2 : children (w_dom w) p = (l1 ++ s :: m) ++ element :: l3).
  { rewrite Hch, <- app_assoc. done. }
  assert (Hprev : getPreviousElement E (w_dom w) element = Some (Some s)).
  { rewrite (getPreviousElement_scan E _ element p (l1 ++ s :: m) l3)
      by done.
    rewrite filter_app, filter_cons_True by done.
    rewrite (filter_visible_none E _ m) by done.
    by rewrite last_snoc. }
  assert (Hnext : nextSibling (w_dom w) element = head l3).
  { unfold nextSibling. rewrite Hp. simpl. rewrite Hch2.
    by apply next_in_app. }
  assert (Hsin : s ∈ children (w_dom w) p).
  { rewrite Hch, elem_of_app, elem_of_cons. auto. }
  assert (Hs3 : s ∉ l3).
  { intros H. apply Hs'. rewrite elem_of_app, elem_of_cons. auto. }
  destruct (insertBefore_sibling (w_dom w) p s (head l3) Hwf Hsin)
    as (d' & Hd' & Hch' & _ & Hpar & _).
  { intros r Hr. rewrite Hch2, elem_of_app, elem_of_cons. right. right.
    destruct l3 as [|c l3]; [done|]. injection Hr as ->. left. }
  exists (set_dom (classList_remove d' element JUST_ADDED_CLASS_NAME) w).
  destruct (same_tree_classList_remove d' element JUST_ADDED_CLASS_NAME)
    as [_ Ht].
  split; [|split].
  - unfold move, move_dom. rewrite Hprev. simpl. rewrite Hp. simpl.
    by rewrite Hnext, Hd'.
  - cbn [w_dom set_dom]. destruct (Ht p) as (_ & -> & _).
    rewrite Hch'. unfold placed.
    rewrite bool_decide_eq_false_2.
    2:{ destruct l3 as [|c l3]; [done|]. intros [= ->]. apply Hs3. left. }
    rewrite (detach_children _ s p) by (by apply wf_child).
    rewrite Hch, filter_ne_middle.
    2:{ intros H. apply (Hl1 s H). left. }
    2:{ rewrite elem_of_app, elem_of_cons. intros [H|[H|H]]; [|done|done].
        apply Hs'. rewrite elem_of_app. auto. }
    destruct l3 as [|r l3]; cbn [head].
    + rewrite <- !app_assoc. done.
    + replace (l1 ++ m ++ element :: r :: l3)
        with ((l1 ++ m ++ [element]) ++ r :: l3)
        by (by rewrite <- !app_assoc).
      rewrite insert_before_ref_app.
      * by rewrite <- !app_assoc.
      * apply NoDup_cons in Hnd3 as [Hr _].
        rewrite !elem_of_app, list_elem_of_singleton. intros [H|[H|H]].
        -- apply (Hl1 r H). rewrite elem_of_cons, elem_of_app, !elem_of_cons.
           auto.
        -- apply (Hm3 r H). right. left.
        -- subst. apply Hel3. left.
  - intros y. cbn [w_dom set_dom]. destruct (Ht y) as (-> & _). apply Hpar.
Qed.

(** Sibling D of the scenario goes down under C. *)
Lemma move_down_under_previous_witness :
  ∃ w', move Scenario.paged Scenario.four_siblings_world 5 DOWN = Some w'
    ∧ children (w_dom w') 1 = [2; 3; 5; 4]%nat.
Proof.
  destruct (move_down_under_previous Scenario.paged
              Scenario.four_siblings_world 5 1 4 [2; 3]%nat [] [])
    as (w' & Hw' & Hch & _).
  - vm_compute. reflexivity.
  - vm_compute. reflexivity.
  - vm_compute. reflexivity.
  - vm_compute. reflexivity.
  - constructor.
  - vm_compute. reflexivity.
  - exists w'. split; [exact Hw'|exact Hch].
Defined.



(** A scan that meets the element first has nothing to return. *)
Lemma scan_first (E : Collab) d (element : nat) (l : list nat) :
  scan E d element (element :: l) None = None.
Proof.
  destruct (is_silex_element d element) eqn:Hs.
  - by apply scan_found.
  - apply scan_absent. by right.
Qed.

Lemma placed_first d (p x : nat) :
  wf_dom d → parent d x = Some p →
  placed d p x (head (children d p))
  = x :: filter (λ c, c ≠ x) (children d p).
Proof.
  intros Hwf Hp. destruct (wf_parent d x p Hwf Hp) as (_ & _ & Hin).
  pose proof (wf_children_NoDup d p Hwf) as Hnd.
  unfold placed. rewrite (detach_children d x p Hp).
  unfold nextSibling. rewrite Hp. simpl.
  destruct (children d p) as [|c l]; [by apply elem_of_nil in Hin|].
  apply NoDup_cons in Hnd as [Hc Hnd]. cbn [head].
  destruct (decide (c = x)) as [->|Hne].
  - rewrite bool_decide_eq_true_2 by done. simpl.
    destruct (decide (x = x)); [|done].
    rewrite filter_cons_False by (by intros H).
    rewrite filter_ne_absent by done.
    destruct l as [|r l]; simpl; [done|]. by destruct (decide (r = r)).
  - rewrite bool_decide_eq_false_2 by congruence.
    rewrite filter_cons_True by done. simpl. by destruct (decide (c = c)).
Qed.

(** X13: from any place among the children of its parent, [move] with
    TOP makes the element the last child and with BOTTOM the first one,
    the other children keeping their order. After TOP nothing follows
    the element, [getNextElement] returns [null] and UP leaves the tree
    as it is; after BOTTOM nothing precedes it, [getPreviousElement]
    returns [null] and DOWN leaves the tree as it is. *)
Theorem move_to_the_ends (E : Collab) (w : world) (element p : nat) :
  wf_dom (w_dom w) →
  parent (w_dom w) element = Some p →
  (∃ w1 w2,
     move E w element TOP = Some w1
     ∧ children (w_dom w1) p
       = filter (λ c, c ≠ element) (children (w_dom w) p) ++ [element]
     ∧ getNextElement E (w_dom w1) element = Some None
     ∧ move E w1 element UP = Some w2
     ∧ same_tree (w_dom w1) (w_dom w2))
  ∧ (∃ w1 w2,
       move E w element BOTTOM = Some w1
       ∧ children (w_dom w1) p
         = element :: filter (λ c, c ≠ element) (children (w_dom w) p)
       ∧ getPreviousElement E (w_dom w1) element = Some None
       ∧ move E w1 element DOWN = Some w2
       ∧ same_tree (w_dom w1) (w_dom w2)).
Proof.
  intros Hwf Hp. destruct (wf_parent _ _ _ Hwf Hp) as (_ & _ & Hin).
  split.
  - destruct (insertBefore_sibling (w_dom w) p element None Hwf Hin)
      as (d1 & Hd1 & Hch1 & _ & Hpar1 & _); [done|].
    set (d1' := classList_remove d1 element JUST_ADDED_CLASS_NAME).
    destruct (same_tree_classList_remove d1 element JUST_ADDED_CLASS_NAME)
      as [_ Ht]. fold d1' in Ht.
    assert (Hch1' : children d1' p
              = filter (λ c, c ≠ element) (children (w_dom w) p) ++ [element]).
    { destruct (Ht p) as (_ & -> & _). rewrite Hch1. unfold placed. simpl.
      by rewrite (detach_children _ _ _ Hp). }
    assert (Hnext : getNextElement E d1' element = Some None).
    { unfold getNextElement. destruct (Ht element) as (-> & _).
      rewrite Hpar1, Hp. cbn [mbind option_bind]. rewrite Hch1', rev_app_distr.
      cbn [rev app]. by rewrite scan_first. }
    exists (set_dom d1' w),
      (set_dom (classList_remove d1' element JUST_ADDED_CLASS_NAME)
         (set_dom d1' w)).
    split; [|split; [|split; [|split]]].
    + unfold move, move_dom. rewrite Hp. simpl. unfold appendChild.
      by rewrite Hd1.
    + exact Hch1'.
    + exact Hnext.
    + unfold move, move_dom. cbn [w_dom set_dom]. by rewrite Hnext.
    + apply same_tree_classList_remove.
  - destruct (insertBefore_sibling (w_dom w) p element
                (head (children (w_dom w) p)) Hwf Hin)
      as (d1 & Hd1 & Hch1 & _ & Hpar1 & _).
    { intros r Hr. destruct (children (w_dom w) p); [done|].
      injection Hr as ->. left. }
    set (d1' := classList_remove d1 element JUST_ADDED_CLASS_NAME).
    destruct (same_tree_classList_remove d1 element JUST_ADDED_CLASS_NAME)
      as [_ Ht]. fold d1' in Ht.
    assert (Hch1' : children d1' p
              = element :: filter (λ c, c ≠ element) (children (w_dom w) p)).
    { destruct (Ht p) as (_ & -> & _). rewrite Hch1. by apply placed_first. }
    assert (Hprev : getPreviousElement E d1' element = Some None).
    { unfold getPreviousElement. destruct (Ht element) as (-> & _).
      rewrite Hpar1, Hp. cbn [mbind option_bind].
      by rewrite Hch1', scan_first. }
    exists (set_dom d1' w),
      (set_dom (classList_remove d1' element JUST_ADDED_CLASS_NAME)
         (set_dom d1' w)).
    split; [|split; [|split; [|split]]].
    + unfold move, move_dom. rewrite Hp. simpl. by rewrite Hd1.
    + exact Hch1'.
    + exact Hprev.
    + unfold move, move_dom. cbn [w_dom set_dom]. by rewrite Hprev.
    + apply same_tree_classList_remove.
Qed.

(** Sibling B of the scenario goes to the top, and UP then leaves it
    there. *)
Lemma move_to_the_ends_witness :
  ∃ w1 w2,
    move Scenario.paged Scenario.four_siblings_world 3 TOP = Some w1
    ∧ children (w_dom w1) 1 = [2; 4; 5; 3]%nat
    ∧ move Scenario.paged w1 3 UP = Some w2
    ∧ same_tree (w_dom w1) (w_dom w2).
Proof.
  destruct (move_to_the_ends Scenario.paged Scenario.four_siblings_world 3 1)
    as [(w1 & w2 & Hw1 & Hch & _ & Hw2 & Ht) _].
  - vm_compute. reflexivity.
  - vm_compute. reflexivity.
  - exists w1, w2. split; [exact Hw1|]. split; [|split; [exact Hw2|exact Ht]].
    rewrite Hch. vm_compute. reflexivity.
Defined.

End MoreMoves.

(* ================================================================== *)
(** * Adding and removing in general *)
(* ================================================================== *)

Section MoreAddRemove.

Import Dom Element.

Implicit Types d : gmap nat node.

Lemma detach_children_other d (x y : nat) :
  parent d x ≠ Some y → x ≠ y ∨ parent d x = None →
  children (detach d x) y = children d y.
Proof.
  intros Hp Hxy. unfold detach. destruct (parent d x) as [p|] eqn:Hpx; [|done].
  destruct Hxy as [Hxy|]; [|done].
  unfold children. rewrite lookup_alter_ne by done.
  rewrite lookup_alter_ne by congruence. done.
Qed.

Lemma wf_parent_ne d (x p : nat) : wf_dom d → parent d x = Some p → p ≠ x.
Proof.
  intros Hwf Hp Heq. destruct (wf_parent d x p Hwf Hp) as (_ & Ha & _).
  subst. by rewrite contains_self in Ha.
Qed.

Lemma detach_children_self d (x : nat) :
  wf_dom d → children (detach d x) x = children d x.
Proof.
  intros Hwf. destruct (parent d x) as [p|] eqn:Hp.
  - pose proof (wf_parent_ne d x p Hwf Hp) as Hne.
    unfold detach. rewrite Hp. unfold children.
    rewrite lookup_alter_eq, lookup_alter_ne by done. by destruct (d !! x).
  - by rewrite detach_unparented.
Qed.

(** The child list of a node other than the new parent after
    [insertBefore]: the node has lost the child if it had it. *)
Lemma insertBefore_children_ne d (p x y : nat) ref d' :
  insertBefore d p x ref = Some d' → y ≠ p →
  children d' y = children (detach d x) y.
Proof.
  intros H Hy. apply insertBefore_Some in H as (_ & _ & _ & ->).
  unfold children. destruct (decide (x = y)) as [->|Hx].
  - rewrite lookup_alter_eq, lookup_alter_ne by done.
    by destruct (detach d y !! y).
  - by rewrite !lookup_alter_ne.
Qed.

Lemma unparented_not_contained d (a x : nat) :
  parent d x = None → a ≠ x → contains d a x = false.
Proof.
  intros Hp Hne. unfold contains. destruct (size d); simpl;
    destruct (decide (a = x)); try done. by rewrite Hp.
Qed.



(** X15: after [removeElement] a second call for the same element
    changes nothing and reports the element: the body does not contain
    it any more. What was below the element stays below it, and no
    other node changes its parent. *)
Theorem removeElement_takes_out_once (E : Collab) (w : world) (element : nat) :
  let w1 := removeElement E w element in
  w_dom (removeElement E w1 element) = w_dom w1
  ∧ w_trace (removeElement E w1 element)
    = ConsoleError msg_could_not_delete element :: w_trace w1
  ∧ (element ≠ body_getBodyElement E →
     contains (w_dom w1) (body_getBodyElement E) element = false)
  ∧ (∀ y, y ≠ element → parent (w_dom w1) y = parent (w_dom w) y)
  ∧ (wf_dom (w_dom w) → children (w_dom w1) element = children (w_dom w) element).
Proof.
  intros w1. unfold w1, removeElement.
  destruct (negb (bool_decide (body_getBodyElement E = element))
            && contains (w_dom w) (body_getBodyElement E) element) eqn:Hg.
  - apply andb_true_iff in Hg as [Hb Hc].
    apply negb_true_iff, bool_decide_eq_false in Hb.
    cbn [w_dom w_trace set_dom]. unfold removeNode.
    assert (Hout : contains (detach (w_dom w) element) (body_getBodyElement E)
                     element = false).
    { apply unparented_not_contained; [apply detach_parent|done]. }
    rewrite Hout, andb_false_r. cbn [w_dom w_trace emit set_dom].
    split; [done|]. split; [done|]. split; [done|]. split.
    + intros y Hy. by apply detach_parent_ne.
    + intros Hwf. by apply detach_children_self.
  - cbn [w_dom w_trace emit]. rewrite Hg. cbn [w_dom w_trace emit].
    split; [done|]. split; [done|]. split; [|done].
    intros Hne. apply andb_false_iff in Hg as [Hg|Hg]; [|done].
    apply negb_false_iff, bool_decide_eq_true in Hg. congruence.
Qed.

(** Sibling B of the scenario, once it is taken out. *)
Lemma removeElement_takes_out_once_witness :
  contains (w_dom (removeElement Scenario.paged Scenario.four_siblings_world 3))
    0 3 = false
  ∧ children
      (w_dom (removeElement Scenario.paged Scenario.four_siblings_world 1)) 1
    = [2; 3; 4; 5]%nat.
Proof.
  split.
  - destruct (removeElement_takes_out_once Scenario.paged
                Scenario.four_siblings_world 3) as (_ & _ & H & _).
    apply H. vm_compute. lia.
  - destruct (removeElement_takes_out_once Scenario.paged
                Scenario.four_siblings_world 1) as (_ & _ & _ & _ & H).
    rewrite H by (vm_compute; reflexivity). vm_compute. reflexivity.
Defined.

End MoreAddRemove.

(* ================================================================== *)
(** * Well-formed documents stay well formed *)
(* ================================================================== *)

Section MoreWellFormed.

Import Dom Element.

Implicit Types d : gmap nat node.

Lemma wf_dom_intro d :
  (∀ x n, d !! x = Some n → wf_node d x n = true) → wf_dom d.
Proof.
  intros H. unfold wf_dom. apply forallb_forall. intros [x n] Hin.
  apply list_elem_of_In, elem_of_map_to_list in Hin. by apply H.
Qed.

(** What [wf_node] asks of a node, spelled out. *)
Lemma wf_node_intro d (x : nat) (n : node) :
  (∀ p, parentNode n = Some p →
     can_parent d p = true ∧ x ∈ children d p ∧ contains d x p = false) →
  (∀ c, c ∈ childNodes n → parent d c = Some x) →
  NoDup (childNodes n) →
  wf_node d x n = true.
Proof.
  intros Hp Hc Hnd. unfold wf_node. rewrite !andb_true_iff. split; [split|].
  - destruct (parentNode n) as [p|]; [|done].
    destruct (Hp p eq_refl) as (-> & Hin & ->).
    by rewrite bool_decide_eq_true_2.
  - apply forallb_forall. intros c Hin. apply bool_decide_eq_true.
    apply Hc. by apply list_elem_of_In.
  - by apply bool_decide_eq_true.
Qed.

(** Taking a node out of its parent cannot make a node an ancestor. *)
Lemma ancestor_detach d (e : nat) (fuel a y : nat) :
  is_ancestor_upto fuel d a y = false →
  is_ancestor_upto fuel (detach d e) a y = false.
Proof.
  revert y. induction fuel as [|fuel IH]; intros y; simpl; [done|].
  destruct (decide (a = y)); [done|].
  destruct (decide (e = y)) as [->|Hne].
  - by rewrite detach_parent.
  - rewrite detach_parent_ne by done.
    destruct (parent d y); [apply IH|done].
Qed.

Lemma contains_detach d (e a y : nat) :
  contains d a y = false → contains (detach d e) a y = false.
Proof. unfold contains. rewrite size_detach. apply ancestor_detach. Qed.

Lemma parent_lookup d (x : nat) (n : node) :
  d !! x = Some n → parent d x = parentNode n.
Proof. intros H. unfold parent. by rewrite H. Qed.

Lemma children_lookup d (x : nat) (n : node) :
  d !! x = Some n → children d x = childNodes n.
Proof. intros H. unfold children. by rewrite H. Qed.

(** A parent is not a child of its child. *)
Lemma wf_no_two_cycle d (x p : nat) :
  wf_dom d → parent d x = Some p → parent d p ≠ Some x.
Proof.
  intros Hwf Hp Hq. destruct (wf_parent d x p Hwf Hp) as (_ & Ha & _).
  pose proof (wf_parent_ne d x p Hwf Hp) as Hne.
  unfold contains in Ha. destruct (size d) as [|f] eqn:Hs.
  - apply map_size_empty_iff in Hs. subst. unfold parent in Hp.
    by rewrite lookup_empty in Hp.
  - simpl in Ha. destruct (decide (x = p)); [done|]. rewrite Hq in Ha.
    destruct f; simpl in Ha; by destruct (decide (x = x)).
Qed.

(** Taking a node out of its parent keeps a document well formed. *)
Lemma wf_detach d (e : nat) : wf_dom d → wf_dom (detach d e).
Proof.
  intros Hwf. destruct (parent d e) as [p|] eqn:Hp;
    [|by rewrite detach_unparented].
  pose proof (wf_parent_ne d e p Hwf Hp) as Hpe.
  pose proof (wf_no_two_cycle d e p Hwf Hp) as Hcyc.
  assert (Hchild : ∀ x c, c ∈ children d x → x ≠ p →
            parent (detach d e) c = Some x).
  { intros x c Hc Hx. pose proof (wf_child d x c Hwf Hc) as Hpc.
    rewrite detach_parent_ne; [done|]. intros <-. congruence. }
  assert (Hup : ∀ x n q, d !! x = Some n → x ≠ e → parentNode n = Some q →
            can_parent (detach d e) q = true ∧ x ∈ children (detach d e) q
            ∧ contains (detach d e) x q = false).
  { intros x n q Hx Hxe Hq.
    assert (Hpx : parent d x = Some q) by (by rewrite (parent_lookup d x n)).
    destruct (wf_parent d x q Hwf Hpx) as (Hc & Ha & Hin).
    split; [by rewrite detach_can_parent|]. split; [|by apply contains_detach].
    destruct (decide (q = p)) as [->|Hqp].
    - rewrite (detach_children d e p Hp). apply list_elem_of_filter. done.
    - destruct (decide (e = q)) as [<-|Heq].
      + by rewrite detach_children_self.
      + rewrite detach_children_other; [done|congruence|by left]. }
  apply wf_dom_intro. intros x n' Hx'.
  destruct (d !! x) as [n|] eqn:Hx.
  2:{ assert (is_Some (d !! x)) as [? ?]; [|congruence].
      apply (proj1 (detach_lookup_is_Some d e x)). by rewrite Hx'. }
  pose proof (wf_children_NoDup d x Hwf) as Hnd.
  rewrite (children_lookup d x n Hx) in Hnd.
  unfold detach in Hx'. rewrite Hp in Hx'.
  destruct (decide (x = e)) as [->|Hxe].
  - rewrite lookup_alter_eq, lookup_alter_ne, Hx in Hx' by done.
    injection Hx' as <-. apply wf_node_intro; [done| |done].
    intros c Hc. apply Hchild; [|done].
    by rewrite (children_lookup d e n Hx).
  - rewrite lookup_alter_ne in Hx' by done.
    destruct (decide (x = p)) as [->|Hxp].
    + rewrite lookup_alter_eq, Hx in Hx'. injection Hx' as <-.
      apply wf_node_intro.
      * intros q Hq. by apply (Hup p n q).
      * intros c Hc. apply list_elem_of_filter in Hc as [Hce Hc].
        rewrite detach_parent_ne by done. apply wf_child; [done|].
        by rewrite (children_lookup d p n Hx).
      * by apply NoDup_filter.
    + rewrite lookup_alter_ne, Hx in Hx' by done. injection Hx' as <-.
      apply wf_node_intro; [|  |done].
      * intros q Hq. by apply (Hup x n q).
      * intros c Hc. apply Hchild; [|done].
        by rewrite (children_lookup d x n Hx).
Qed.

End MoreWellFormed.

(* ================================================================== *)
(** * The address of an image *)
(* ================================================================== *)

Section MoreImages.

Import Dom Element.

Implicit Types d : gmap nat node.

(** Two tests of a concrete store: no identity from [k] on is in use,
    and no node has [k] as its parent. *)
Lemma lookup_above d (k : nat) :
  forallb (λ xn : nat * node, xn.1 <? k)%nat (map_to_list d) = true →
  ∀ y, (k ≤ y)%nat → d !! y = None.
Proof.
  intros H y Hy. destruct (d !! y) as [n|] eqn:Hn; [|done].
  rewrite forallb_forall in H.
  specialize (H (y, n)). simpl in H.
  assert (Hlt : (y <? k)%nat = true).
  { apply H. apply list_elem_of_In. by apply elem_of_map_to_list. }
  apply Nat.ltb_lt in Hlt. lia.
Qed.

Lemma no_parent_is d (k : nat) :
  forallb (λ xn : nat * node, negb (bool_decide (parentNode xn.2 = Some k)))
    (map_to_list d) = true →
  ∀ y, parent d y ≠ Some k.
Proof.
  intros H y Hy. unfold parent in Hy.
  destruct (d !! y) as [n|] eqn:Hn; [|done]. simpl in Hy.
  rewrite forallb_forall in H. specialize (H (y, n)). simpl in H.
  rewrite bool_decide_eq_true_2 in H by done.
  assert (false = true); [|done].
  apply H. apply list_elem_of_In. by apply elem_of_map_to_list.
Qed.

(** The listener of the load event touches two attributes only, the
    class and the identifier. *)
Lemma on_load_attributes (w w' : world) (ld : loader) :
  on_load w ld = Some w' →
  ∀ y name, name ≠ class_attr → name ≠ Js.lit "id" →
    getAttribute (w_dom w') y name = getAttribute (w_dom w) y name.
Proof.
  unfold on_load. intros H y name Hc Hi.
  assert (Hdom : w_dom match ld_callback ld with
                       | Some f => emit (Callback f (ld_element ld) (ld_image ld)) w
                       | None => w
                       end = w_dom w)
    by (by destruct (ld_callback ld)).
  rewrite Hdom in H. unfold appendChild in H.
  destruct (insertBefore _ _ _ _) as [d1|] eqn:Hd1; [|done].
  injection H as <-. cbn [w_dom emit set_dom].
  rewrite getAttribute_classList_remove_ne by (right; congruence).
  rewrite getAttribute_removeAttribute_ne by (right; congruence).
  rewrite getAttribute_classList_add_ne by (right; congruence).
  apply node_data_getAttribute.
  by apply (insertBefore_node_data _ _ _ _ _ _ Hd1).
Qed.

(** An image that arrives at an element without children becomes its
    only child and its content node. *)
Lemma load_into_empty_element (w : world) (ld : loader) (url : list N) :
  let element := ld_element ld in
  let img := ld_image ld in
  can_parent (w_dom w) element = true →
  children (w_dom w) element = [] →
  w_dom w !! img = Some (ImageLoader_image url url) →
  (∀ y, parent (w_dom w) y ≠ Some img) →
  img ≠ element →
  ∃ w', on_load w ld = Some w'
    ∧ children (w_dom w') element = [img]
    ∧ getContentNode (w_dom w') element = img
    ∧ getAttribute (w_dom w') img (Js.lit "src") = Some url
    ∧ getType (w_dom w') element = getType (w_dom w) element
    ∧ hasClass (w_dom w') element LOADING_ELEMENT_CSS_CLASS = false.
Proof.
  intros element img Hcp Hch Himg Hpar Hne.
  assert (Ha : contains (w_dom w) img element = false)
    by (by apply not_ancestor_of_unparented).
  assert (Hp : parent (w_dom w) img = None)
    by (unfold parent; by rewrite Himg).
  destruct (on_load_effect w ld Hcp Ha (mk_is_Some _ _ Himg))
    as (w' & Hw' & Hch' & _ & Hcls & _ & Hload & Hty & Hchi & Hel & _).
  fold element img in Hw', Hch', Hcls, Hload, Hty, Hchi, Hel.
  exists w'. split; [exact Hw'|].
  assert (Hchildren : children (w_dom w') element = [img]).
  { rewrite Hch', (detach_unparented _ img Hp), Hch. done. }
  split; [exact Hchildren|]. split; [|split; [|split; [exact Hty|exact Hload]]].
  - unfold getContentNode, getElementsByClass.
    rewrite (descendants_one_leaf (w_dom w') element img).
    + rewrite filter_cons_True; [done|].
      rewrite Hel, Hcls. unfold is_element. by rewrite Himg.
    + unfold children in Hchildren.
      destruct (w_dom w' !! element); [by eexists|done].
    + exact Hchildren.
    + rewrite (Hchi Hp). unfold children. by rewrite Himg.
  - rewrite (on_load_attributes _ _ _ Hw') by done.
    unfold getAttribute. rewrite Himg. done.
Qed.



(** X17: the address of the image through the life of an image element
    without children, as [createElement] makes it. Before an image is
    loaded, and while one is loading, [getImageUrl] returns the [src]
    attribute of the element itself, which is [null] in place of a
    text; once the image of [setImageUrl] has arrived, it returns the
    address that was given, and logs nothing. *)
Theorem getImageUrl_after_load (w : world) (element : nat) (url : list N)
    (opt_callback opt_errorCallback : option nat) :
  getType (w_dom w) element = Some TYPE_IMAGE →
  can_parent (w_dom w) element = true →
  children (w_dom w) element = [] →
  (∀ y, (w_fresh w ≤ y)%nat → w_dom w !! y = None) →
  (∀ y, parent (w_dom w) y ≠ Some (w_fresh w)) →
  let w2 := setImageUrl w element url opt_callback opt_errorCallback in
  getImageUrl w element
  = (from_option Str Null (getAttribute (w_dom w) element (Js.lit "src")), w)
  ∧ getImageUrl w2 element
    = (from_option Str Null (getAttribute (w_dom w) element (Js.lit "src")),
       w2)
  ∧ ∃ w3, load_completes w2 (length (w_loaders w)) = Some w3
      ∧ getImageUrl w3 element = (Str url, w3).
Proof.
  intros Hty Hcp Hch Hfresh Hpar w2.
  set (img := w_fresh w).
  set (d6 := classList_add (w_dom w) element LOADING_ELEMENT_CSS_CLASS).
  set (d7 := <[img := ImageLoader_image url url]> d6).
  destruct (same_tree_classList_add (w_dom w) element LOADING_ELEMENT_CSS_CLASS)
    as [_ Ht6]. fold d6 in Ht6.
  assert (Hel : is_Some (w_dom w !! element)) by (by apply can_parent_is_Some).
  assert (Hne : img ≠ element).
  { intros Heq. destruct Hel as [n Hn]. rewrite <- Heq, Hfresh in Hn by done.
    done. }
  assert (Hw2 : w2 = World d7 (S img) (w_styles w)
                  (w_loaders w ++ [Loader element img opt_callback opt_errorCallback])
                  (w_trace w)).
  { unfold w2, setImageUrl. rewrite bool_decide_eq_true_2 by exact Hty.
    fold d6. unfold getElementsByTagNameAndClass.
    rewrite (descendants_leaf d6 element)
      by (destruct (Ht6 element) as (_ & -> & _); exact Hch).
    rewrite filter_nil. unfold alloc. cbn [w_dom w_fresh set_dom]. done. }
  assert (Himg7 : d7 !! img = Some (ImageLoader_image url url))
    by (unfold d7; by rewrite lookup_insert_eq).
  assert (Hch7 : children d7 element = []).
  { unfold children, d7. rewrite lookup_insert_ne by done.
    destruct (Ht6 element) as (_ & Hc6 & _). unfold children in Hc6.
    by rewrite Hc6. }
  assert (Hattr7 : ∀ name, name ≠ class_attr →
            getAttribute d7 element name = getAttribute (w_dom w) element name).
  { intros name Hname. unfold getAttribute at 1, d7.
    rewrite lookup_insert_ne by done.
    change (getAttribute d6 element name = getAttribute (w_dom w) element name).
    unfold d6. apply getAttribute_classList_add_ne. right. congruence. }
  assert (Hself : ∀ d, children d element = [] →
            getContentNode d element = element).
  { intros d Hc. unfold getContentNode, getElementsByClass.
    by rewrite descendants_leaf, filter_nil. }
  split; [|split].
  - unfold getImageUrl. rewrite bool_decide_eq_true_2 by exact Hty.
    rewrite Hself by done. by destruct (getAttribute _ _ _).
  - rewrite Hw2. unfold getImageUrl. cbn [w_dom].
    rewrite bool_decide_eq_true_2
      by (rewrite Hattr7 by done; exact Hty).
    rewrite Hself, Hattr7 by done. by destruct (getAttribute _ _ _).
  - destruct (load_into_empty_element
                (set_loaders (delete (length (w_loaders w)) (w_loaders w2)) w2)
                (Loader element img opt_callback opt_errorCallback) url)
      as (w3 & Hw3 & Hch3 & Hcontent & Hsrc & Hty3 & _).
    + cbn [ld_element w_dom set_loaders]. rewrite Hw2. cbn [w_dom].
      unfold can_parent, d7. rewrite lookup_insert_ne by done.
      destruct (Ht6 element) as (_ & _ & Hc6 & _). unfold can_parent in Hc6.
      by rewrite Hc6.
    + cbn [ld_element w_dom set_loaders]. by rewrite Hw2.
    + cbn [ld_image w_dom set_loaders]. by rewrite Hw2.
    + cbn [ld_image w_dom set_loaders]. rewrite Hw2. cbn [w_dom].
      intros y. unfold parent. destruct (decide (img = y)) as [<-|Hy].
      * by rewrite Himg7.
      * unfold d7. rewrite lookup_insert_ne by done.
        destruct (Ht6 y) as (Hp6 & _). unfold parent in Hp6. rewrite Hp6.
        apply Hpar.
    + cbn [ld_image ld_element]. done.
    + cbn [ld_element ld_image w_dom set_loaders] in *.
      exists w3. split.
      * unfold load_completes. rewrite Hw2 at 1. cbn [w_loaders].
        rewrite list_lookup_middle by done. cbn [mbind option_bind].
        exact Hw3.
      * unfold getImageUrl. rewrite bool_decide_eq_true_2.
        -- by rewrite Hcontent, Hsrc.
        -- change (getType (w_dom w3) element = Some TYPE_IMAGE).
           rewrite Hty3, Hw2. cbn [w_dom]. unfold getType.
           rewrite Hattr7 by done. exact Hty.
Qed.


(** The new image element of the scenario, node 6. *)
Lemma getImageUrl_after_load_witness :
  ∃ w3,
    load_completes
      (setImageUrl Scenario.image_world 6 (Js.lit "a.png") None None) 0
    = Some w3
    ∧ getImageUrl w3 6 = (Str (Js.lit "a.png"), w3).
Proof.
  destruct (getImageUrl_after_load Scenario.image_world 6 (Js.lit "a.png")
              None None) as (_ & _ & H).
  - vm_compute. reflexivity.
  - vm_compute. reflexivity.
  - vm_compute. reflexivity.
  - apply lookup_above. vm_compute. reflexivity.
  - apply no_parent_is. vm_compute. reflexivity.
  - exact H.
Defined.

(** X18: [setImageUrl] on an image element that shows an image takes
    that image out at once, before the new one has arrived. While the
    new image is loading the element has no child at all; when it
    arrives it is the only child and [getImageUrl] returns the new
    address. *)
Theorem setImageUrl_replaces_image (w : world) (element old : nat)
    (url : list N) (opt_callback opt_errorCallback : option nat) :
  getType (w_dom w) element = Some TYPE_IMAGE →
  can_parent (w_dom w) element = true →
  children (w_dom w) element = [old] →
  parent (w_dom w) old = Some element →
  children (w_dom w) old = [] →
  is_element (w_dom w) old = true →
  tag_is (w_dom w) old (Js.lit "img") = true →
  hasClass (w_dom w) old ELEMENT_CONTENT_CLASS_NAME = true →
  (∀ y, (w_fresh w ≤ y)%nat → w_dom w !! y = None) →
  (∀ y, parent (w_dom w) y ≠ Some (w_fresh w)) →
  let w2 := setImageUrl w element url opt_callback opt_errorCallback in
  children (w_dom w2) element = []
  ∧ parent (w_dom w2) old = None
  ∧ ∃ w3, load_completes w2 (length (w_loaders w)) = Some w3
      ∧ children (w_dom w3) element = [w_fresh w]
      ∧ getImageUrl w3 element = (Str url, w3).
Proof.
  intros Hty Hcp Hch Hpold Hchold Helold Htag Hcls Hfresh Hpar w2.
  set (img := w_fresh w).
  set (d6 := classList_add (w_dom w) element LOADING_ELEMENT_CSS_CLASS).
  set (d6' := detach d6 old).
  set (d7 := <[img := ImageLoader_image url url]> d6').
  destruct (same_tree_classList_add (w_dom w) element LOADING_ELEMENT_CSS_CLASS)
    as [_ Ht6]. fold d6 in Ht6.
  assert (Hel : is_Some (w_dom w !! element)) by (by apply can_parent_is_Some).
  assert (Hne : img ≠ element).
  { intros Heq. destruct Hel as [n Hn]. rewrite <- Heq, Hfresh in Hn by done.
    done. }
  assert (Hold : old ≠ element).
  { intros ->. by rewrite Hch in Hchold. }
  assert (Hp6 : parent d6 old = Some element)
    by (destruct (Ht6 old) as (-> & _); exact Hpold).
  assert (Hw2 : w2 = World d7 (S img) (w_styles w)
                  (w_loaders w ++ [Loader element img opt_callback opt_errorCallback])
                  (w_trace w)).
  { unfold w2, setImageUrl. rewrite bool_decide_eq_true_2 by exact Hty.
    fold d6. unfold getElementsByTagNameAndClass.
    rewrite (descendants_one_leaf d6 element old).
    - rewrite filter_cons_True.
      + unfold alloc. cbn [w_dom w_fresh set_dom]. done.
      + destruct (Ht6 old) as (_ & _ & _ & -> & ->). rewrite Helold, Htag.
        rewrite (hasClass_getAttribute (w_dom w)); [by rewrite Hcls|].
        apply getAttribute_classList_add_ne. by left.
    - destruct Hel as [n Hn]. unfold d6, classList_add, setAttribute.
      rewrite lookup_alter_is_Some. by eexists.
    - destruct (Ht6 element) as (_ & -> & _). exact Hch.
    - destruct (Ht6 old) as (_ & -> & _). exact Hchold. }
  assert (Hch6' : children d6' element = []).
  { unfold d6'. rewrite (detach_children d6 old element Hp6).
    destruct (Ht6 element) as (_ & -> & _). rewrite Hch.
    by rewrite filter_cons_False by (by intros H). }
  assert (Himg7 : d7 !! img = Some (ImageLoader_image url url))
    by (unfold d7; by rewrite lookup_insert_eq).
  assert (Hch7 : children d7 element = []).
  { unfold children, d7. rewrite lookup_insert_ne by done. exact Hch6'. }
  assert (Hold7 : old ≠ img).
  { intros Heq. unfold is_element in Helold.
    rewrite Heq in Helold. unfold img in Helold.
    by rewrite Hfresh in Helold. }
  assert (Hty7 : getType d7 element = Some TYPE_IMAGE).
  { unfold getType, getAttribute, d7. rewrite lookup_insert_ne by done.
    change (getAttribute d6' element TYPE_ATTR = Some TYPE_IMAGE).
    unfold d6'. rewrite (node_data_getAttribute d6) by apply node_data_detach.
    unfold d6. rewrite getAttribute_classList_add_ne by (right; done).
    exact Hty. }
  split; [by rewrite Hw2|]. split.
  { rewrite Hw2. cbn [w_dom]. unfold parent, d7.
    rewrite lookup_insert_ne by done. apply (detach_parent d6 old). }
  destruct (load_into_empty_element
              (set_loaders (delete (length (w_loaders w)) (w_loaders w2)) w2)
              (Loader element img opt_callback opt_errorCallback) url)
    as (w3 & Hw3 & Hch3 & Hcontent & Hsrc & Hty3 & _).
  - cbn [ld_element w_dom set_loaders]. rewrite Hw2. cbn [w_dom].
    unfold can_parent, d7. rewrite lookup_insert_ne by done.
    change (can_parent d6' element = true). unfold d6'.
    rewrite detach_can_parent. destruct (Ht6 element) as (_ & _ & -> & _).
    exact Hcp.
  - cbn [ld_element w_dom set_loaders]. by rewrite Hw2.
  - cbn [ld_image w_dom set_loaders]. by rewrite Hw2.
  - cbn [ld_image w_dom set_loaders]. rewrite Hw2. cbn [w_dom].
    intros y. unfold parent. destruct (decide (img = y)) as [<-|Hy].
    + by rewrite Himg7.
    + unfold d7. rewrite lookup_insert_ne by done.
      change (parent d6' y ≠ Some img). unfold d6'.
      destruct (decide (old = y)) as [<-|Hoy].
      * by rewrite detach_parent.
      * rewrite detach_parent_ne by done. destruct (Ht6 y) as (-> & _).
        apply Hpar.
  - cbn [ld_image ld_element]. done.
  - cbn [ld_element ld_image w_dom set_loaders] in *.
    exists w3. split; [|split].
    + unfold load_completes. rewrite Hw2 at 1. cbn [w_loaders].
      rewrite list_lookup_middle by done. cbn [mbind option_bind].
      exact Hw3.
    + exact Hch3.
    + unfold getImageUrl. rewrite bool_decide_eq_true_2.
      * by rewrite Hcontent, Hsrc.
      * change (getType (w_dom w3) element = Some TYPE_IMAGE).
        rewrite Hty3, Hw2. exact Hty7.
Qed.

(** The image element of the scenario shows image 8 when a third
    address is set: the new image is node 9. *)
Lemma setImageUrl_replaces_image_witness :
  children
    (w_dom (setImageUrl Scenario.second_loaded 6 (Js.lit "c.png") None None))
    6 = []
  ∧ ∃ w3,
      load_completes
        (setImageUrl Scenario.second_loaded 6 (Js.lit "c.png") None None) 1
      = Some w3
      ∧ children (w_dom w3) 6 = [9%nat]
      ∧ getImageUrl w3 6 = (Str (Js.lit "c.png"), w3).
Proof.
  destruct (setImageUrl_replaces_image Scenario.second_loaded 6 8
              (Js.lit "c.png") None None) as (Hch & _ & H).
  - vm_compute. reflexivity.
  - vm_compute. reflexivity.
  - vm_compute. reflexivity.
  - vm_compute. reflexivity.
  - vm_compute. reflexivity.
  - vm_compute. reflexivity.
  - vm_compute. reflexivity.
  - vm_compute. reflexivity.
  - apply lookup_above. vm_compute. reflexivity.
  - apply no_parent_is. vm_compute. reflexivity.
  - split; [exact Hch|exact H].
Defined.

(** X19: a load that fails changes nothing in the document: the error
    is logged and reported to the error callback, when there is one,
    and the loader is gone, but the element keeps the loading class
    that [setImageUrl] gave it. *)
Theorem failed_load_keeps_loading_class (w : world) (element : nat)
    (url : list N) (opt_callback opt_errorCallback : option nat) :
  getType (w_dom w) element = Some TYPE_IMAGE →
  (∀ y, (w_fresh w ≤ y)%nat → w_dom w !! y = None) →
  let w2 := setImageUrl w element url opt_callback opt_errorCallback in
  ∃ w3, load_fails w2 (length (w_loaders w)) = Some w3
    ∧ w_dom w3 = w_dom w2
    ∧ hasClass (w_dom w3) element LOADING_ELEMENT_CSS_CLASS = true
    ∧ w_loaders w3 = w_loaders w
    ∧ w_trace w3
      = match opt_errorCallback with
        | Some f => [ErrorCallback f element msg_load_error]
        | None => []
        end ++ ConsoleError msg_load_error element :: w_trace w.
Proof.
  intros Hty Hfresh w2.
  assert (Hel : is_Some (w_dom w !! element))
    by (by apply getAttribute_is_Some in Hty).
  assert (Hne : w_fresh w ≠ element).
  { intros Heq. destruct Hel as [n Hn]. rewrite <- Heq, Hfresh in Hn by done.
    done. }
  set (d6 := classList_add (w_dom w) element LOADING_ELEMENT_CSS_CLASS).
  assert (H6 : hasClass d6 element LOADING_ELEMENT_CSS_CLASS = true)
    by (by apply hasClass_classList_add; [apply is_token_loading|]).
  assert (Hw2 : ∃ d6', w2 = World (<[w_fresh w := ImageLoader_image url url]> d6')
                  (S (w_fresh w)) (w_styles w)
                  (w_loaders w
                   ++ [Loader element (w_fresh w) opt_callback opt_errorCallback])
                  (w_trace w)
                ∧ hasClass d6' element LOADING_ELEMENT_CSS_CLASS = true).
  { unfold w2, setImageUrl. rewrite bool_decide_eq_true_2 by exact Hty.
    fold d6. destruct (getElementsByTagNameAndClass _ _ _ _) as [|t l].
    - exists d6. split; [done|exact H6].
    - exists (removeNode d6 t). split; [done|].
      unfold removeNode. rewrite (node_data_hasClass d6); [exact H6|].
      apply node_data_detach. }
  destruct Hw2 as (d6' & Hw2 & H6').
  eexists. split.
  { unfold load_fails. rewrite Hw2. cbn [w_loaders].
    rewrite list_lookup_middle by done. done. }
  unfold on_error. cbn [ld_element ld_errorCallback].
  split; [|split; [|split]].
  - rewrite Hw2. by destruct opt_errorCallback.
  - assert (Hd : ∀ w0 : world,
      w_dom (call_errorCallback opt_errorCallback element msg_load_error w0)
      = w_dom w0) by (intros w0; by destruct opt_errorCallback).
    rewrite Hd. cbn [w_dom emit set_loaders].
    rewrite (hasClass_getAttribute d6'); [exact H6'|].
    unfold getAttribute. by rewrite lookup_insert_ne.
  - assert (Hl : ∀ w0 : world,
      w_loaders (call_errorCallback opt_errorCallback element msg_load_error w0)
      = w_loaders w0) by (intros w0; by destruct opt_errorCallback).
    rewrite Hl. cbn [w_loaders emit set_loaders].
    rewrite delete_middle. by rewrite app_nil_r.
  - by destruct opt_errorCallback.
Qed.

(** The load for the new image element of the scenario fails. *)
Lemma failed_load_keeps_loading_class_witness :
  ∃ w3,
    load_fails
      (setImageUrl Scenario.image_world 6 (Js.lit "a.png") None (Some 2%nat)) 0
    = Some w3
    ∧ hasClass (w_dom w3) 6 LOADING_ELEMENT_CSS_CLASS = true.
Proof.
  destruct (failed_load_keeps_loading_class Scenario.image_world 6
              (Js.lit "a.png") None (Some 2%nat)) as (w3 & Hw3 & _ & Hcls & _).
  - vm_compute. reflexivity.
  - apply lookup_above. vm_compute. reflexivity.
  - exists w3. split; [exact Hw3|exact Hcls].
Defined.

End MoreImages.

(* ================================================================== *)
(** * Setting the class names *)
(* ================================================================== *)

Section MoreClassNames.

Import Dom Element.

Implicit Types d : gmap nat node.

Lemma join_split_on (s : list N) : Js.join [32] (Js.split_on 32 s) = s.
Proof.
  induction s as [|c s IH]; [done|]. cbn [Js.split_on].
  destruct (N.eqb_spec c 32) as [->|Hc].
  - rewrite join_cons by apply split_on_nonempty. by rewrite IH.
  - pose proof (split_on_nonempty 32 s) as Hne.
    destruct (Js.split_on 32 s) as [|t ts]; [done|].
    destruct ts as [|t' ts].
    + simpl in *. by rewrite IH.
    + simpl in *. by rewrite IH.
Qed.

(** The tokens of names joined by single spaces, some of them blank. *)
Lemma ws_tokens_join_blanks (l : list (list N)) :
  Forall (Forall (λ c, Js.is_ascii_whitespace c = false)) l →
  ws_tokens (Js.join [32] l) = filter (λ t, t ≠ []) l.
Proof.
  induction 1 as [|t ts Ht Hts IH]; [done|].
  destruct ts as [|t' ts].
  - cbn [Js.join]. destruct (decide (t = [])) as [->|Hne].
    + by rewrite filter_cons_False by (by intros H).
    + rewrite filter_cons_True by done. rewrite <- (app_nil_r t) at 1.
      by rewrite ws_tokens_app.
  - rewrite join_cons by done. destruct (decide (t = [])) as [->|Hne].
    + rewrite filter_cons_False by (by intros H). cbn [app].
      change (ws_tokens (32 :: Js.join [32] (t' :: ts)))
        with (ws_tokens (Js.join [32] (t' :: ts))).
      exact IH.
    + rewrite filter_cons_True by done. cbn [app].
      rewrite ws_tokens_app; [|done|done].
      change (ws_tokens (32 :: Js.join [32] (t' :: ts)))
        with (ws_tokens (Js.join [32] (t' :: ts))).
      by rewrite IH.
Qed.

(** The class list after [classList.add(c)] for a token [c]. *)
Lemma classList_classList_add d (x : nat) (c : list N) :
  is_token c → is_Some (d !! x) →
  classList (classList_add d x c) x
  = (if bool_decide (c ∈ classList d x) then classList d x
     else classList d x ++ [c])
  ∧ className (classList_add d x c) x
    = serialize (classList (classList_add d x c) x).
Proof.
  intros Hc Hx. unfold classList_add, classList at 1 4.
  rewrite className_setAttribute by done.
  destruct (token_set_tokens (className d x)) as [Ht Hnd].
  fold (classList d x) in Ht, Hnd |- *.
  assert (Hall : Forall is_token
            (if bool_decide (c ∈ classList d x) then classList d x
             else classList d x ++ [c])).
  { case_bool_decide; [done|]. apply Forall_app. split; [done|by constructor]. }
  assert (Hnd' : NoDup
            (if bool_decide (c ∈ classList d x) then classList d x
             else classList d x ++ [c])).
  { case_bool_decide as Hin; [done|].
    apply NoDup_app. repeat split; [done| |apply NoDup_singleton].
    intros t Ht' Hin'. apply list_elem_of_singleton in Hin'. by subst. }
  rewrite token_set_serialize by done. split; [done|].
  rewrite className_setAttribute by done. unfold classList.
  rewrite className_setAttribute by done.
  by rewrite token_set_serialize.
Qed.

Lemma classList_add_checked_Some d (x : nat) (c : list N) d' :
  classList_add_checked d x c = Some d' → is_token c ∧ d' = classList_add d x c.
Proof.
  unfold classList_add_checked.
  destruct (bool_decide (c = [])) eqn:Hc; [done|].
  apply bool_decide_eq_false in Hc. simpl.
  destruct (existsb Js.is_ascii_whitespace c) eqn:Hw; [done|].
  intros [= <-]. split; [|done]. split; [done|].
  apply Forall_forall. intros a Ha.
  destruct (Js.is_ascii_whitespace a) eqn:Hwa; [|done].
  assert (existsb Js.is_ascii_whitespace c = true); [|congruence].
  apply existsb_exists. exists a. split; [by apply list_elem_of_In|done].
Qed.

Lemma classList_add_lookup d (x y : nat) (c : list N) :
  is_Some (classList_add d x c !! y) ↔ is_Some (d !! y).
Proof. unfold classList_add, setAttribute. apply lookup_alter_is_Some. Qed.

(** What the loop of [setClassName] does with the names it is given:
    [us] are the names trimmed, the empty ones left out. *)
Lemma add_class_names_Some d (element : nat) (names : list (list N)) d' :
  let us := filter (λ t, t ≠ []) (map Js.trim names) in
  is_Some (d !! element) →
  add_class_names d element names = Some d' →
  Forall is_token us
  ∧ (∀ c, c ∈ classList d' element ↔ c ∈ classList d element ∨ c ∈ us)
  ∧ (NoDup us → (∀ u, u ∈ us → u ∉ classList d element) →
     classList d' element = classList d element ++ us)
  ∧ (us = [] → d' = d)
  ∧ (us ≠ [] → className d' element = serialize (classList d' element))
  ∧ same_tree d d'
  ∧ (∀ y name, y ≠ element ∨ name ≠ class_attr →
       getAttribute d' y name = getAttribute d y name).
Proof.
  revert d. induction names as [|name rest IH]; intros d us Hel H.
  - injection H as <-. unfold us. simpl.
    split; [constructor|]. split; [intros c; rewrite elem_of_nil; tauto|].
    split; [by rewrite app_nil_r|]. split; [done|]. split; [done|].
    split; [apply same_tree_refl|done].
  - cbn [add_class_names] in H. unfold us. cbn [map].
    destruct (Js.trim name) as [|a u'] eqn:Htrim.
    + rewrite filter_cons_False by (by intros Hne). by apply IH.
    + rewrite filter_cons_True by done.
      set (u := a :: u') in *.
      destruct (classList_add_checked d element u) as [d1|] eqn:Hadd; [|done].
      cbn [mbind option_bind] in H.
      apply classList_add_checked_Some in Hadd as [Hu ->].
      set (d1 := classList_add d element u) in *.
      assert (Hel1 : is_Some (d1 !! element))
        by (by apply classList_add_lookup).
      destruct (classList_classList_add d element u Hu Hel) as [Hcl1 Hcn1].
      fold d1 in Hcl1, Hcn1.
      assert (Hin1 : ∀ c, c ∈ classList d1 element
                          ↔ c ∈ classList d element ∨ c = u).
      { intros c. rewrite Hcl1. case_bool_decide as Hin.
        - split; [auto|]. intros [?| ->]; done.
        - rewrite elem_of_app, list_elem_of_singleton. done. }
      destruct (IH d1 Hel1 H) as (Htok & Hmem & Hexact & Hnone & Hser & Ht & Hattr).
      set (us' := filter (λ t, t ≠ []) (map Js.trim rest)) in *.
      split; [by constructor|]. split; [|split; [|split; [|split; [|split]]]].
      * intros c. rewrite Hmem, Hin1, elem_of_cons. tauto.
      * intros Hnd Hfresh. apply NoDup_cons in Hnd as [Hu' Hnd].
        rewrite Hexact.
        -- rewrite Hcl1. rewrite bool_decide_eq_false_2.
           ++ by rewrite <- app_assoc.
           ++ apply Hfresh. left.
        -- done.
        -- intros v Hv. rewrite Hin1. intros [Hin| ->]; [|done].
           apply (Hfresh v); [by right|done].
      * done.
      * intros _. destruct (decide (us' = [])) as [Hus|Hus].
        -- rewrite (Hnone Hus). exact Hcn1.
        -- by apply Hser.
      * eapply same_tree_trans; [apply same_tree_classList_add|exact Ht].
      * intros y attr Hy. rewrite Hattr by done.
        apply getAttribute_classList_add_ne.
        destruct Hy; [left|right]; congruence.
Qed.

Lemma add_class_names_tokens d (element : nat) (names : list (list N)) :
  Forall is_token (filter (λ t, t ≠ []) (map Js.trim names)) →
  is_Some (add_class_names d element names).
Proof.
  revert d. induction names as [|name rest IH]; intros d Hall; [done|].
  cbn [add_class_names]. cbn [map] in Hall.
  destruct (Js.trim name) as [|a u'] eqn:Htrim.
  - rewrite filter_cons_False in Hall by (by intros Hne). by apply IH.
  - rewrite filter_cons_True in Hall by done.
    apply Forall_cons in Hall as [[Hne Hu] Hall].
    unfold classList_add_checked.
    rewrite bool_decide_eq_false_2 by done.
    assert (Hw : existsb Js.is_ascii_whitespace (a :: u') = false).
    { destruct (existsb _ _) eqn:Hex; [|done].
      apply existsb_exists in Hex as (b & Hb & Hwb).
      rewrite Forall_forall in Hu. apply list_elem_of_In in Hb.
      specialize (Hu b Hb). simpl in Hu. congruence. }
    rewrite Hw. cbn [orb mbind option_bind]. by apply IH.
Qed.

Lemma add_class_names_Some_tokens d (element : nat) (names : list (list N)) d' :
  add_class_names d element names = Some d' →
  Forall is_token (filter (λ t, t ≠ []) (map Js.trim names)).
Proof.
  revert d. induction names as [|name rest IH]; intros d H; [constructor|].
  cbn [add_class_names] in H. cbn [map].
  destruct (Js.trim name) as [|a u'] eqn:Htrim.
  - rewrite filter_cons_False by (by intros Hne). by apply (IH d).
  - rewrite filter_cons_True by done.
    destruct (classList_add_checked d element (a :: u')) as [d1|] eqn:Hadd;
      [|done].
    apply classList_add_checked_Some in Hadd as [Hu _].
    constructor; [done|]. by apply (IH d1).
Qed.

Lemma new_class_names_falsy (v : jsval) :
  truthy v = false → new_class_names (string_of v) = [].
Proof. by destruct v as [| |[|c s]]. Qed.

(** X20: [setClassName] throws exactly when one of the new names, the
    pieces of the text between single spaces after trimming, holds a
    tab, a line feed, a form feed or a carriage return: [classList.add]
    refuses such a name. *)
Theorem setClassName_throws_on_whitespace (E : Collab) d (element : nat)
    (opt_className : jsval) :
  setClassName E d element opt_className = None
  ↔ Exists (λ u, existsb Js.is_ascii_whitespace u = true)
      (new_class_names (string_of opt_className)).
Proof.
  unfold setClassName. destruct (truthy opt_className) eqn:Hv.
  - unfold new_class_names. split.
    + intros Hnone.
      destruct (decide (Exists (λ u, existsb Js.is_ascii_whitespace u = true)
                          (filter (λ t : list N, t ≠ [])
                             (map Js.trim
                                (Js.split_on 32 (string_of opt_className))))))
        as [Hex|Hall]; [done|].
      exfalso. rewrite <- Forall_Exists_neg in Hall.
      destruct (add_class_names_tokens
                  (setAttribute d element class_attr
                     (array_join [32]
                        (map (kept_name E element)
                           (Js.split_on 32 (className d element)))))
                  element (Js.split_on 32 (string_of opt_className)))
        as [d' Hd']; [|congruence].
      apply Forall_forall. intros u Hu. rewrite Forall_forall in Hall.
      specialize (Hall u Hu). simpl in Hall. split.
      * by apply list_elem_of_filter in Hu as [Hne _].
      * apply Forall_forall. intros a Ha.
        destruct (Js.is_ascii_whitespace a) eqn:Hwa; [|done].
        exfalso. apply Hall. apply existsb_exists. exists a.
        split; [by apply list_elem_of_In|done].
    + intros Hex. destruct (add_class_names _ _ _) as [d'|] eqn:Hd'; [|done].
      apply add_class_names_Some_tokens in Hd'.
      apply Exists_exists in Hex as (u & Hu & Hw).
      rewrite Forall_forall in Hd'. destruct (Hd' u Hu) as [_ Htok].
      apply existsb_exists in Hw as (a & Ha & Hwa).
      rewrite Forall_forall in Htok. apply list_elem_of_In in Ha.
      specialize (Htok a Ha). simpl in Htok. congruence.
  - rewrite new_class_names_falsy by done. split; [done|].
    intros H. by apply Exists_nil in H.
Qed.

(** A name with a tab inside is refused. *)
Lemma setClassName_throws_on_whitespace_witness :
  setClassName Scenario.paged Scenario.four_siblings 2
    (Str [97; 9; 98]) = None.
Proof.
  apply (proj2 (setClassName_throws_on_whitespace Scenario.paged
                  Scenario.four_siblings 2 (Str [97; 9; 98]))).
  apply Exists_exists. exists [97; 9; 98]. split.
  - apply (proj1 (bool_decide_eq_true _)). vm_compute. reflexivity.
  - vm_compute. reflexivity.
Defined.

Lemma kept_entries (E : Collab) (element : nat) (l : list (list N)) :
  filter (λ t, t ≠ []) (map (default []) (map (kept_name E element) l))
  = filter (λ name, name ≠ [] ∧ is_internal_class E element name = true) l.
Proof.
  induction l as [|name l IH]; [done|]. simpl. unfold kept_name at 1.
  destruct (is_internal_class E element name) eqn:Hi; simpl.
  - destruct (decide (name = [])) as [->|Hn].
    + rewrite filter_cons_False by (by intros H).
      rewrite (filter_cons_False _ []) by (by intros [H _]).
      apply IH.
    + rewrite !filter_cons_True by done. by rewrite IH.
  - rewrite filter_cons_False by (by intros H).
    rewrite (filter_cons_False _ name) by (intros [_ H]; congruence).
    apply IH.
Qed.

Lemma kept_entry_cases (E : Collab) (element : nat) (name : list N) :
  default [] (kept_name E element name) = []
  ∨ default [] (kept_name E element name) = name
    ∧ is_internal_class E element name = true.
Proof. unfold kept_name. destruct (is_internal_class _ _ _); auto. Qed.

Lemma kept_entries_Forall (E : Collab) (element : nat) (P : N → Prop)
    (l : list (list N)) :
  Forall (Forall P) l →
  Forall (Forall P) (map (default []) (map (kept_name E element) l)).
Proof.
  induction 1 as [|name l Hn _ IH]; simpl; constructor; [|done].
  destruct (kept_entry_cases E element name) as [->|[-> _]]; [constructor|done].
Qed.

(** The pieces of a text whose only ASCII whitespace is the space hold
    no ASCII whitespace. *)
Lemma split_on_no_whitespace (s : list N) :
  Forall (λ c, Js.is_ascii_whitespace c = true → c = 32) s →
  Forall (Forall (λ c, Js.is_ascii_whitespace c = false)) (Js.split_on 32 s).
Proof.
  intros Hs. pose proof (split_on_Forall _ 32 s Hs) as H1.
  pose proof (split_on_pieces 32 s) as H2.
  rewrite Forall_forall in H1, H2. apply Forall_forall. intros t Ht.
  specialize (H1 t Ht). specialize (H2 t Ht).
  rewrite Forall_forall in H1, H2. apply Forall_forall. intros c Hc.
  destruct (Js.is_ascii_whitespace c) eqn:Hw; [|done].
  exfalso. apply (H2 c Hc). by apply H1.
Qed.

(** The class list of an element whose class attribute uses the space
    only: the pieces between spaces that are not empty. *)
Lemma classList_pieces d (x : nat) (c : list N) :
  Forall (λ c, Js.is_ascii_whitespace c = true → c = 32) (className d x) →
  c ∈ classList d x ↔ c ≠ [] ∧ c ∈ Js.split_on 32 (className d x).
Proof.
  intros Hs. unfold classList, token_set. rewrite elem_of_remove_dups.
  rewrite <- (join_split_on (className d x)) at 1.
  rewrite ws_tokens_join_blanks by (by apply split_on_no_whitespace).
  by rewrite list_elem_of_filter.
Qed.

(** The class list right after [setClassName] has reset the attribute:
    the names of the old one that pass the test. *)
Lemma classList_kept (E : Collab) d (x : nat) (c : list N) :
  is_Some (d !! x) →
  Forall (λ c, Js.is_ascii_whitespace c = true → c = 32) (className d x) →
  c ∈ classList
        (setAttribute d x class_attr
           (array_join [32]
              (map (kept_name E x) (Js.split_on 32 (className d x))))) x
  ↔ c ∈ classList d x ∧ is_internal_class E x c = true.
Proof.
  intros Hx Hs. rewrite (classList_pieces d x c Hs).
  unfold classList at 1. rewrite className_setAttribute by done.
  unfold token_set, array_join. rewrite elem_of_remove_dups.
  rewrite ws_tokens_join_blanks
    by (by apply kept_entries_Forall, split_on_no_whitespace).
  rewrite kept_entries, list_elem_of_filter. tauto.
Qed.

(** X21: the classes of an element after [setClassName], when its class
    attribute was written with spaces between the names: the classes it
    had that are internal (an internal class name, a page name, its
    identifier) and the new names, and no others. The tree and every
    other attribute, of this and of any other node, are as before. *)
Theorem setClassName_keeps_internal_adds_new (E : Collab) d (element : nat)
    (opt_className : jsval) d' :
  is_Some (d !! element) →
  Forall (λ c, Js.is_ascii_whitespace c = true → c = 32)
    (className d element) →
  setClassName E d element opt_className = Some d' →
  (∀ c, hasClass d' element c = true
        ↔ hasClass d element c = true ∧ is_internal_class E element c = true
          ∨ c ∈ new_class_names (string_of opt_className))
  ∧ same_tree d d'
  ∧ (∀ y name, y ≠ element ∨ name ≠ class_attr →
       getAttribute d' y name = getAttribute d y name).
Proof.
  intros Hel Hs. unfold setClassName.
  set (d0 := setAttribute d element class_attr _).
  assert (Hel0 : is_Some (d0 !! element)).
  { unfold d0, setAttribute. by apply lookup_alter_is_Some. }
  assert (H0 : ∀ y name, y ≠ element ∨ name ≠ class_attr →
            getAttribute d0 y name = getAttribute d y name).
  { intros y name Hy. apply getAttribute_setAttribute_ne.
    destruct Hy; [left|right]; congruence. }
  destruct (truthy opt_className) eqn:Hv.
  - intros Hd'.
    destruct (add_class_names_Some d0 element _ d' Hel0 Hd')
      as (_ & Hmem & _ & _ & _ & Ht & Hattr).
    split; [|split].
    + intros c. unfold hasClass. rewrite !bool_decide_eq_true, Hmem.
      unfold d0. rewrite (classList_kept E d element c Hel Hs). done.
    + eapply same_tree_trans; [apply same_tree_setAttribute|exact Ht].
    + intros y name Hy. rewrite Hattr by done. by apply H0.
  - intros [= <-]. rewrite new_class_names_falsy by done.
    split; [|split; [apply same_tree_setAttribute|exact H0]].
    intros c. unfold hasClass. rewrite !bool_decide_eq_true.
    unfold d0. rewrite (classList_kept E d element c Hel Hs).
    rewrite elem_of_nil. tauto.
Qed.

(** Sibling A of the scenario has three internal classes and the class
    big, and gets the classes bold and big2: the page stays, bold is
    there. *)
Lemma setClassName_keeps_internal_adds_new_witness :
  ∃ d',
    setClassName Scenario.paged Scenario.four_siblings 2
      (Str (Js.lit " bold  big2 ")) = Some d'
    ∧ hasClass d' 2 Scenario.page1 = true
    ∧ hasClass d' 2 (Js.lit "bold") = true.
Proof.
  assert (Hs : is_Some (setClassName Scenario.paged Scenario.four_siblings 2
                          (Str (Js.lit " bold  big2 "))))
    by (vm_compute; eexists; reflexivity).
  destruct Hs as [d' Hd']. exists d'. split; [exact Hd'|].
  destruct (setClassName_keeps_internal_adds_new Scenario.paged
              Scenario.four_siblings 2 (Str (Js.lit " bold  big2 ")) d')
    as [H _].
  - vm_compute. eexists. reflexivity.
  - repeat (constructor;
            [vm_compute; intros Hc; first [reflexivity | discriminate Hc]|]).
    constructor.
  - exact Hd'.
  - split; apply (proj2 (H _)).
    + left. split; vm_compute; reflexivity.
    + right. apply (proj1 (bool_decide_eq_true _)). vm_compute. reflexivity.
Defined.

Lemma trim_start_blank (s : list N) :
  Forall (λ c, c = 32) s → Js.trim_start s = [].
Proof. induction 1 as [|c s -> _ IH]; [done|]. exact IH. Qed.

Lemma trim_blank (s : list N) : Forall (λ c, c = 32) s → Js.trim s = [].
Proof. intros H. unfold Js.trim. by rewrite trim_start_blank. Qed.

Lemma trim_start_fixed (s : list N) :
  (∀ c, head s = Some c → Js.is_js_whitespace c = false) →
  Js.trim_start s = s.
Proof.
  destruct s as [|c s]; [done|]. intros H. simpl. by rewrite (H c eq_refl).
Qed.

Lemma trim_start_leading (k : nat) (s : list N) :
  Js.trim_start (replicate k 32 ++ s) = Js.trim_start s.
Proof. induction k as [|k IH]; [done|]. exact IH. Qed.

Lemma trim_end_fixed (s : list N) :
  (∀ c, last s = Some c → Js.is_js_whitespace c = false) →
  Js.trim_end s = s.
Proof.
  intros H. unfold Js.trim_end. rewrite trim_start_fixed.
  - apply reverse_involutive.
  - intros c Hc. apply H. by rewrite <- head_reverse.
Qed.

Lemma join_blanks_then (k : nat) (l : list (list N)) :
  l ≠ [] →
  Js.join [32] (replicate k [] ++ l) = replicate k 32 ++ Js.join [32] l.
Proof.
  intros Hl. induction k as [|k IH]; [done|].
  cbn [replicate app]. rewrite join_cons.
  - by rewrite IH.
  - destruct k; [done|done].
Qed.

Lemma head_join (u : list N) (l : list (list N)) :
  u ≠ [] → head (Js.join [32] (u :: l)) = head u.
Proof. destruct u as [|c u]; [done|]. intros _. by destruct l. Qed.

Lemma last_join (l : list (list N)) (u : list N) :
  u ≠ [] → last (Js.join [32] (l ++ [u])) = last u.
Proof.
  intros Hu. induction l as [|t l IH]; [done|].
  cbn [app]. rewrite join_cons by (by destruct l).
  rewrite app_assoc, last_app.
  rewrite IH. destruct (last u) eqn:Hl; [done|].
  apply last_None in Hl. done.
Qed.

(** A list of trimmed names that are not empty, joined by spaces, is
    left alone by [trim]. *)
Lemma trim_serialize (names : list (list N)) :
  Forall (λ u, u ≠ [] ∧ ∃ name, u = Js.trim name) names →
  Js.trim (Js.join [32] names) = Js.join [32] names.
Proof.
  intros Hall. unfold Js.trim.
  assert (Hhead : ∀ c, head (Js.join [32] names) = Some c →
            Js.is_js_whitespace c = false).
  { destruct names as [|u l]; [done|].
    apply Forall_cons in Hall as [[Hne [name ->]] _].
    rewrite head_join by done. intros c Hc. apply (trim_edges name c). auto. }
  rewrite trim_start_fixed by done. apply trim_end_fixed.
  destruct names as [|u l] using rev_ind; [done|]. clear IHl.
  apply Forall_app in Hall as [_ Hall].
  apply Forall_cons in Hall as [[Hne [name ->]] _].
  rewrite last_join by done. intros c Hc. apply (trim_edges name c). auto.
Qed.

Lemma new_class_names_trimmed (s : list N) :
  Forall (λ u, u ≠ [] ∧ ∃ name, u = Js.trim name) (new_class_names s).
Proof.
  unfold new_class_names. apply Forall_forall. intros u Hu.
  apply list_elem_of_filter in Hu as [Hne Hu].
  apply list_elem_of_fmap in Hu as (name & -> & _). split; [done|by exists name].
Qed.

Lemma public_of_internal (E : Collab) (element : nat) (l : list (list N)) :
  Forall (λ t, t = [] ∨ is_internal_class E element t = true) l →
  map (default []) (map (public_name E element) l) = replicate (length l) [].
Proof.
  induction 1 as [|t l Ht _ IH]; [done|]. simpl. rewrite IH. f_equal.
  unfold public_name. destruct Ht as [->| ->]; [|done].
  by destruct (is_internal_class E element []).
Qed.

Lemma public_of_others (E : Collab) (element : nat) (l : list (list N)) :
  Forall (λ t, is_internal_class E element t = false) l →
  map (default []) (map (public_name E element) l) = l.
Proof.
  induction 1 as [|t l Ht _ IH]; [done|]. simpl. rewrite IH.
  unfold public_name. by rewrite Ht.
Qed.

Lemma token_no_space (t : list N) : is_token t → Forall (λ c, c ≠ 32) t.
Proof.
  intros [_ H]. eapply Forall_impl; [exact H|]. intros c Hc ->. done.
Qed.

(** X22: [getClassName] reads back what [setClassName] was given. When
    the new names are distinct and none of them is internal, and the
    class attribute was written with spaces between the names,
    [getClassName] after [setClassName] returns the new names, trimmed
    and joined by single spaces, whatever internal classes the element
    keeps; after [null], [undefined] or a blank text it returns the
    empty string. *)
Theorem getClassName_after_setClassName (E : Collab) d (element : nat)
    (opt_className : jsval) d' :
  is_Some (d !! element) →
  Forall (λ c, Js.is_ascii_whitespace c = true → c = 32)
    (className d element) →
  NoDup (new_class_names (string_of opt_className)) →
  Forall (λ u, is_internal_class E element u = false)
    (new_class_names (string_of opt_className)) →
  setClassName E d element opt_className = Some d' →
  getClassName E d' element
  = serialize (new_class_names (string_of opt_className)).
Proof.
  intros Hel Hs Hnd Hpub. unfold setClassName.
  set (P := Js.split_on 32 (className d element)).
  set (L := map (default []) (map (kept_name E element) P)).
  set (d0 := setAttribute d element class_attr _).
  assert (Hel0 : is_Some (d0 !! element)).
  { unfold d0, setAttribute. by apply lookup_alter_is_Some. }
  assert (Hcn0 : className d0 element = Js.join [32] L).
  { unfold d0. by rewrite className_setAttribute. }
  assert (HL : L ≠ []).
  { unfold L, P. pose proof (split_on_nonempty 32 (className d element)).
    by destruct (Js.split_on 32 (className d element)). }
  assert (Hblank : getClassName E d0 element = []).
  { unfold getClassName, array_join. rewrite Hcn0.
    rewrite split_on_join;
      [|done|by apply kept_entries_Forall, split_on_pieces].
    rewrite public_of_internal.
    - apply trim_blank. apply Forall_join; [by repeat constructor|].
      apply Forall_forall. intros t Ht.
      apply elem_of_replicate in Ht as [-> _]. constructor.
    - unfold L. apply Forall_forall. intros t Ht.
      apply list_elem_of_fmap in Ht as (o & -> & Ho).
      apply list_elem_of_fmap in Ho as (name & -> & _).
      destruct (kept_entry_cases E element name) as [->|[-> Hi]]; auto. }
  set (U := new_class_names (string_of opt_className)) in *.
  destruct (truthy opt_className) eqn:Hv.
  2:{ intros [= <-]. unfold U. rewrite new_class_names_falsy by done.
      exact Hblank. }
  intros Hd'.
  destruct (add_class_names_Some d0 element _ d' Hel0 Hd')
    as (Htok & _ & Hexact & Hnone & Hser & _).
  fold (new_class_names (string_of opt_className)) in Htok, Hexact, Hnone, Hser.
  fold U in Htok, Hexact, Hnone, Hser.
  destruct (decide (U = [])) as [HU|HU].
  { rewrite (Hnone HU), HU. exact Hblank. }
  assert (Hkept : ∀ c, c ∈ classList d0 element →
            is_internal_class E element c = true).
  { intros c Hc. unfold d0 in Hc.
    by apply (classList_kept E d element c Hel Hs) in Hc as [_ Hc]. }
  rewrite Hexact in Hser; [|done|].
  2:{ intros u Hu Hin. apply Hkept in Hin.
      rewrite Forall_forall in Hpub. specialize (Hpub u Hu). simpl in Hpub.
      congruence. }
  specialize (Hser HU).
  destruct (token_set_tokens (className d0 element)) as [HT _].
  fold (classList d0 element) in HT.
  unfold getClassName, array_join. rewrite Hser. unfold serialize.
  rewrite split_on_join.
  - rewrite !map_app. rewrite public_of_internal.
    + rewrite public_of_others by done.
      rewrite join_blanks_then by done.
      unfold Js.trim. rewrite trim_start_leading.
      apply trim_serialize, new_class_names_trimmed.
    + apply Forall_forall. intros t Ht. right. by apply Hkept.
  - intros Happ. apply app_eq_nil in Happ as [_ Happ]. done.
  - apply Forall_app. split.
    + eapply Forall_impl; [exact HT|]. apply token_no_space.
    + eapply Forall_impl; [exact Htok|]. apply token_no_space.
Qed.

(** Sibling A of the scenario again: the two new names come back,
    with one space between them. *)
Lemma getClassName_after_setClassName_witness :
  ∃ d',
    setClassName Scenario.paged Scenario.four_siblings 2
      (Str (Js.lit " bold  big2 ")) = Some d'
    ∧ getClassName Scenario.paged d' 2 = Js.lit "bold big2".
Proof.
  assert (Hs : is_Some (setClassName Scenario.paged Scenario.four_siblings 2
                          (Str (Js.lit " bold  big2 "))))
    by (vm_compute; eexists; reflexivity).
  destruct Hs as [d' Hd']. exists d'. split; [exact Hd'|].
  rewrite (getClassName_after_setClassName Scenario.paged
             Scenario.four_siblings 2 (Str (Js.lit " bold  big2 ")) d').
  - vm_compute. reflexivity.
  - vm_compute. eexists. reflexivity.
  - repeat (constructor;
            [vm_compute; intros Hc; first [reflexivity | discriminate Hc]|]).
    constructor.
  - apply (proj1 (bool_decide_eq_true _)). vm_compute. reflexivity.
  - apply (proj1 (bool_decide_eq_true _)). vm_compute. reflexivity.
  - exact Hd'.
Defined.

End MoreClassNames.

(* ================================================================== *)
(** * Reparenting keeps the tree free of cycles *)
(* ================================================================== *)

Section InsertKeepsAcyclic.

Import Dom Element.

Implicit Types d : gmap nat node.

Lemma ancestor_mono d (f f' a y : nat) :
  is_ancestor_upto f d a y = true → (f ≤ f')%nat →
  is_ancestor_upto f' d a y = true.
Proof.
  revert f' y. induction f as [|f IH]; intros f' y H Hle.
  - simpl in H. destruct f'; simpl; by destruct (decide (a = y)).
  - destruct f' as [|f']; [lia|]. simpl in *.
    destruct (decide (a = y)); [done|].
    destruct (parent d y); [|done]. apply IH; [done|lia].
Qed.

Lemma ancestor_step d (f a y q : nat) :
  parent d y = Some q → is_ancestor_upto f d a q = true →
  is_ancestor_upto (S f) d a y = true.
Proof.
  intros Hp H. simpl. destruct (decide (a = y)); [done|]. by rewrite Hp.
Qed.

Lemma ancestor_trans d (f1 f2 a b c : nat) :
  is_ancestor_upto f1 d a b = true → is_ancestor_upto f2 d b c = true →
  is_ancestor_upto (f2 + f1) d a c = true.
Proof.
  intros Hab. revert c. induction f2 as [|f2 IH]; intros c Hbc.
  - simpl in Hbc. destruct (decide (b = c)) as [<-|]; [done|done].
  - simpl in Hbc. destruct (decide (b = c)) as [<-|Hne].
    + apply (ancestor_mono d f1); [done|lia].
    + destruct (parent d c) as [q|] eqn:Hq; [|done].
      cbn [Nat.add]. apply (ancestor_step d _ a c q Hq). by apply IH.
Qed.

(** A chain of parents in a store that differs from [d] in the parent
    of [x] only, which is [p] there: it is a chain of [d], or it comes
    to [x] in [d] and goes on from [p]. *)
Lemma ancestor_reparented d d' (x p : nat) (f a y : nat) :
  parent d' x = Some p →
  (∀ z, z ≠ x → parent d' z = parent d z) →
  is_ancestor_upto f d' a y = true →
  is_ancestor_upto f d a y = true
  ∨ ∃ f1 f2, (f1 + f2 + 1 ≤ f)%nat
      ∧ is_ancestor_upto f1 d x y = true
      ∧ is_ancestor_upto f2 d' a p = true.
Proof.
  intros Hx Hother. revert y. induction f as [|f IH]; intros y H.
  - left. exact H.
  - simpl in H. destruct (decide (a = y)) as [->|Hay].
    { left. simpl. by destruct (decide (y = y)). }
    destruct (decide (y = x)) as [->|Hyx].
    + rewrite Hx in H. right. exists O, f. split; [lia|]. split; [|done].
      simpl. by destruct (decide (x = x)).
    + rewrite Hother in H by done.
      destruct (parent d y) as [q|] eqn:Hq; [|done].
      destruct (IH q H) as [Hl|(f1 & f2 & Hle & H1 & H2)].
      * left. by apply (ancestor_step d f a y q).
      * right. exists (S f1), f2. split; [lia|]. split; [|done].
        by apply (ancestor_step d f1 x y q).
Qed.

(** No node is its own ancestor after a node that is not above [p] has
    been given [p] as its parent. *)
Lemma acyclic_reparented d d' (x p : nat) :
  wf_dom d → size d' = size d →
  contains d x p = false →
  parent d' x = Some p →
  (∀ z, z ≠ x → parent d' z = parent d z) →
  ∀ y q, parent d' y = Some q → contains d' y q = false.
Proof.
  intros Hwf Hsize Ha Hx Hother y q Hq.
  destruct (contains d' y q) eqn:Hc; [|done]. exfalso.
  unfold contains in Ha, Hc. rewrite Hsize in Hc.
  set (N := size d) in *.
  assert (Hup : ∀ f a, (f ≤ N)%nat → is_ancestor_upto f d' a p = true →
            is_ancestor_upto f d a p = true).
  { intros f a Hf H.
    destruct (ancestor_reparented d d' x p f a p Hx Hother H)
      as [Hl|(f1 & f2 & Hle & H1 & _)]; [done|].
    rewrite (ancestor_mono d f1 N x p) in Ha; [done|done|lia]. }
  destruct (ancestor_reparented d d' x p N y q Hx Hother Hc)
    as [Hl|(f1 & f2 & Hle & H1 & H2)].
  - destruct (decide (y = x)) as [->|Hyx].
    + rewrite Hx in Hq. injection Hq as <-. congruence.
    + rewrite Hother in Hq by done.
      destruct (wf_parent d y q Hwf Hq) as (_ & Hno & _).
      unfold contains in Hno. fold N in Hno. congruence.
  - apply Hup in H2; [|lia].
    destruct (decide (y = x)) as [->|Hyx].
    + rewrite (ancestor_mono d f2 N x p) in Ha; [done|done|lia].
    + rewrite Hother in Hq by done.
      pose proof (ancestor_step d f1 x y q Hq H1) as H3.
      pose proof (ancestor_trans d (S f1) f2 x y p H3 H2) as H4.
      rewrite (ancestor_mono d (f2 + S f1) N x p) in Ha; [done|done|lia].
Qed.

End InsertKeepsAcyclic.

(* ================================================================== *)
(** * Insertion keeps the document well formed *)
(* ================================================================== *)

Section InsertKeepsWellFormed.

Import Dom Element.

Implicit Types d : gmap nat node.

Lemma detach_children_wf d (x y : nat) :
  wf_dom d → children (detach d x) y = filter (λ c, c ≠ x) (children d y).
Proof.
  intros Hwf. destruct (decide (parent d x = Some y)) as [Hp|Hp].
  - by apply detach_children.
  - assert (Hnin : x ∉ children d y).
    { intros Hin. apply Hp. by apply wf_child. }
    rewrite filter_ne_absent by done.
    destruct (decide (x = y)) as [->|Hxy].
    + by apply detach_children_self.
    + apply detach_children_other; [done|by left].
Qed.

Lemma insert_before_ref_perm (x r : nat) (l : list nat) :
  insert_before_ref x r l ≡ₚ x :: l.
Proof.
  induction l as [|c l IH]; simpl; [done|].
  destruct (decide (c = r)); [done|]. rewrite IH. apply Permutation_swap.
Qed.

Lemma placed_perm d (p x : nat) ref :
  wf_dom d →
  placed d p x ref ≡ₚ x :: filter (λ c, c ≠ x) (children d p).
Proof.
  intros Hwf. unfold placed. rewrite detach_children_wf by done.
  destruct (if bool_decide (ref = Some x) then _ else _).
  - apply insert_before_ref_perm.
  - symmetry. apply Permutation_cons_append.
Qed.

(** [insertBefore] keeps a document well formed. *)
Lemma wf_insertBefore d (p x : nat) ref d' :
  wf_dom d → is_Some (d !! x) → insertBefore d p x ref = Some d' →
  wf_dom d'.
Proof.
  intros Hwf Hx Hd'.
  pose proof (insertBefore_Some _ _ _ _ _ Hd') as (Hc & Ha & Hne & _).
  pose proof (insertBefore_parent _ _ _ _ _ Hd' Hx) as Hpx.
  pose proof (λ y, insertBefore_parent_ne _ _ _ y _ _ Hd') as Hpy.
  pose proof (insertBefore_children _ _ _ _ _ Hd') as Hcp.
  pose proof (λ y, insertBefore_children_ne _ _ _ y _ _ Hd') as Hcy.
  pose proof (placed_perm d p x ref Hwf) as Hperm.
  assert (Hcan : ∀ y, can_parent d' y = can_parent d y).
  { intros y. apply node_data_can_parent.
    by apply (insertBefore_node_data _ _ _ _ _ _ Hd'). }
  assert (Hacyc : ∀ y q, parent d' y = Some q → contains d' y q = false).
  { apply (acyclic_reparented d d' x p); try done.
    - by apply insertBefore_size in Hd'.
    - intros z Hz. apply Hpy. congruence. }
  assert (Hkids : ∀ y c, c ∈ children d' y ↔
            (y = p ∧ c = x) ∨ (c ≠ x ∧ c ∈ children d y)).
  { intros y c. destruct (decide (y = p)) as [->|Hyp].
    - rewrite Hcp, Hperm, elem_of_cons, list_elem_of_filter.
      split; [intros [->|H]; [by left|by right]|].
      intros [[_ ->]|H]; [by left|by right].
    - rewrite Hcy, detach_children_wf, list_elem_of_filter by done.
      split; [by right|]. by intros [[-> _]|H]. }
  apply wf_dom_intro. intros y n' Hy.
  apply wf_node_intro.
  - intros q Hq. rewrite <- (parent_lookup d' y n' Hy) in Hq.
    split; [|split; [|by apply Hacyc]].
    + rewrite Hcan. destruct (decide (x = y)) as [<-|Hxy].
      * rewrite Hpx in Hq. by injection Hq as <-.
      * rewrite Hpy in Hq by done. by destruct (wf_parent d y q Hwf Hq).
    + apply Hkids. destruct (decide (x = y)) as [<-|Hxy].
      * rewrite Hpx in Hq. injection Hq as <-. by left.
      * right. split; [done|]. rewrite Hpy in Hq by done.
        by destruct (wf_parent d y q Hwf Hq) as (_ & _ & Hin).
  - intros c Hin. rewrite <- (children_lookup d' y n' Hy) in Hin.
    apply Hkids in Hin as [[-> ->]|[Hcx Hin]]; [done|].
    rewrite Hpy by done. by apply wf_child.
  - rewrite <- (children_lookup d' y n' Hy).
    destruct (decide (y = p)) as [->|Hyp].
    + rewrite Hcp, Hperm. apply NoDup_cons. split.
      * intros Hin. by apply list_elem_of_filter in Hin as [Hin _].
      * apply NoDup_filter. by apply wf_children_NoDup.
    + rewrite Hcy, detach_children_wf by done.
      apply NoDup_filter. by apply wf_children_NoDup.
Qed.

(** A change of attributes keeps a document well formed. *)
Lemma wf_same_tree d d' : same_tree d d' → wf_dom d → wf_dom d'.
Proof.
  intros Ht Hwf. pose proof (same_tree_contains d d') as Hcont.
  destruct Ht as [Hs Ht].
  apply wf_dom_intro. intros y n' Hy.
  destruct (Ht y) as (Hp & Hch & _).
  apply wf_node_intro.
  - intros q Hq. rewrite <- (parent_lookup d' y n' Hy), Hp in Hq.
    destruct (wf_parent d y q Hwf Hq) as (Hc & Ha & Hin).
    destruct (Ht q) as (_ & Hchq & Hcq & _).
    rewrite Hcq, Hchq, Hcont by (by split). done.
  - intros c Hin. rewrite <- (children_lookup d' y n' Hy), Hch in Hin.
    destruct (Ht c) as (-> & _). by apply wf_child.
  - rewrite <- (children_lookup d' y n' Hy), Hch. by apply wf_children_NoDup.
Qed.

End InsertKeepsWellFormed.

(* ================================================================== *)
(** * Chains of parents *)
(* ================================================================== *)

Section ParentChains.

Import Dom Element.

Implicit Types d : gmap nat node.

Lemma iter_parent_None d (i : nat) :
  Nat.iter i (λ o : option nat, o ≫= parent d) None = None.
Proof. induction i as [|i IH]; [done|]. simpl. by rewrite IH. Qed.

(** The chain of parents, by the number of steps: [a] is [x] or an
    ancestor of [x] within [f] parents when some ancestor of [x], the
    [i]-th for an [i] up to [f], is [a]. *)
Lemma ancestor_iter d (f a y : nat) :
  is_ancestor_upto f d a y = true
  ↔ ∃ i, (i ≤ f)%nat ∧ Nat.iter i (λ o, o ≫= parent d) (Some y) = Some a.
Proof.
  revert y. induction f as [|f IH]; intros y; simpl.
  - destruct (decide (a = y)) as [->|Hne].
    + split; [|done]. intros _. by exists O.
    + split; [done|]. intros (i & Hi & H). assert (i = O) as -> by lia.
      simpl in H. congruence.
  - destruct (decide (a = y)) as [->|Hne].
    + split; [|done]. intros _. exists O. split; [lia|done].
    + split.
      * destruct (parent d y) as [q|] eqn:Hq; [|done]. intros H.
        apply IH in H as (i & Hi & H). exists (S i). split; [lia|].
        rewrite Nat.iter_succ_r. simpl. by rewrite Hq.
      * intros (i & Hi & H). destruct i as [|i].
        { simpl in H. congruence. }
        rewrite Nat.iter_succ_r in H. simpl in H.
        destruct (parent d y) as [q|] eqn:Hq.
        -- apply IH. exists i. split; [lia|done].
        -- by rewrite iter_parent_None in H.
Qed.

Lemma iter_parent_prefix d (i j y a : nat) :
  Nat.iter i (λ o, o ≫= parent d) (Some y) = Some a → (j ≤ i)%nat →
  is_Some (Nat.iter j (λ o, o ≫= parent d) (Some y)).
Proof.
  revert a. induction i as [|i IH]; intros a H Hle.
  - assert (j = O) as -> by lia. by eexists.
  - destruct (decide (j = S i)) as [->|Hne]; [by eexists|].
    simpl in H. destruct (Nat.iter i _ (Some y)) as [b|] eqn:Hb; [|done].
    apply (IH b); [done|lia].
Qed.

Lemma iter_parent_add d (i j y : nat) :
  Nat.iter (i + j) (λ o, o ≫= parent d) (Some y)
  = Nat.iter i (λ o, o ≫= parent d)
      (Nat.iter j (λ o, o ≫= parent d) (Some y)).
Proof. apply Nat.iter_add. Qed.

(** In a well-formed document every ancestor a node has after one or
    more steps is a node of the document. *)
Lemma iter_parent_in_use d (i y a : nat) :
  wf_dom d → (1 ≤ i)%nat →
  Nat.iter i (λ o, o ≫= parent d) (Some y) = Some a →
  is_Some (d !! a) ∧ is_Some (d !! y).
Proof.
  intros Hwf Hi H. destruct i as [|i]; [lia|]. split.
  - simpl in H. destruct (Nat.iter i _ (Some y)) as [b|]; [|done].
    simpl in H. destruct (wf_parent d b a Hwf H) as (Hc & _).
    unfold can_parent in Hc. destruct (d !! a); [by eexists|done].
  - rewrite Nat.iter_succ_r in H. simpl in H.
    destruct (parent d y) as [q|] eqn:Hq.
    + apply (parent_is_Some d y q Hq).
    + by rewrite iter_parent_None in H.
Qed.

End ParentChains.

(* ================================================================== *)
(** * New nodes in a well-formed document *)
(* ================================================================== *)

Section FreshNodes.

Import Dom Element.

Implicit Types d : gmap nat node.

(** In a well-formed document a chain of parents is shorter than the
    store: it never comes to a node twice. *)
Lemma chain_is_short d (i y a : nat) :
  wf_dom d → (1 ≤ i)%nat →
  Nat.iter i (λ o, o ≫= parent d) (Some y) = Some a →
  (i < size d)%nat.
Proof.
  intros Hwf Hi H. destruct (decide (i < size d)%nat) as [|Hge]; [done|].
  exfalso. set (N := size d) in *.
  set (c := λ j, default O (Nat.iter j (λ o, o ≫= parent d) (Some y))).
  assert (Hc : ∀ j, (j ≤ N)%nat →
            Nat.iter j (λ o, o ≫= parent d) (Some y) = Some (c j)).
  { intros j Hj. unfold c.
    destruct (iter_parent_prefix d i j y a H) as [b ->]; [lia|done]. }
  assert (Hin : ∀ j, (j ≤ N)%nat → is_Some (d !! c j)).
  { intros j Hj. destruct j as [|j].
    - unfold c. simpl. by destruct (iter_parent_in_use d i y a Hwf Hi H).
    - destruct (iter_parent_in_use d (S j) y (c (S j)) Hwf) as [Hs _];
        [lia|by apply Hc|done]. }
  assert (Hinj : ∀ j k, (j < k)%nat → (k ≤ N)%nat → c j ≠ c k).
  { intros j k Hjk Hk Heq.
    pose proof (Hc k Hk) as Hck.
    pose proof (iter_parent_add d (S (k - j - 1)) j y) as Hadd.
    replace (S (k - j - 1) + j)%nat with k in Hadd by lia.
    rewrite Hadd, (Hc j) in Hck by lia.
    rewrite Nat.iter_succ_r in Hck. simpl in Hck.
    destruct (parent d (c j)) as [q|] eqn:Hq;
      [|by rewrite iter_parent_None in Hck].
    destruct (wf_parent d (c j) q Hwf Hq) as (_ & Hno & _).
    assert (Hanc : is_ancestor_upto N d (c j) q = true);
      [|unfold contains in Hno; fold N in Hno; congruence].
    apply ancestor_iter. exists (k - j - 1)%nat. split; [lia|].
    by rewrite Hck, Heq. }
  assert (Hnd : NoDup (c <$> seq 0 (S N))).
  { apply NoDup_fmap_2_strong; [|apply NoDup_seq].
    intros j k Hj Hk Heq. apply elem_of_seq in Hj, Hk.
    destruct (decide (j = k)) as [|Hne]; [done|]. exfalso.
    destruct (decide (j < k)%nat).
    - apply (Hinj j k); [done|lia|done].
    - apply (Hinj k j); [lia|lia|done]. }
  assert (Hsub : (list_to_set (c <$> seq 0 (S N)) : gset nat) ⊆ dom d).
  { intros b Hb. apply elem_of_list_to_set in Hb.
    apply list_elem_of_fmap in Hb as (j & -> & Hj). apply elem_of_seq in Hj.
    apply elem_of_dom. apply Hin. lia. }
  apply subseteq_size in Hsub.
  rewrite size_list_to_set, length_fmap, length_seq, size_dom in Hsub by done.
  fold N in Hsub. lia.
Qed.

(** In a well-formed document the fuel of [contains] is enough:
    whatever is an ancestor within any number of steps is one within
    the size of the store. *)
Lemma ancestor_fuel d (f a y : nat) :
  wf_dom d → is_ancestor_upto f d a y = true → contains d a y = true.
Proof.
  intros Hwf H. destruct (decide (a = y)) as [->|Hne]; [apply contains_self|].
  apply ancestor_iter in H as (i & Hi & H).
  destruct i as [|i]; [simpl in H; congruence|].
  pose proof (chain_is_short d (S i) y a Hwf ltac:(lia) H) as Hlt.
  apply ancestor_iter. exists (S i). split; [lia|done].
Qed.

(** A new node without parent and children keeps a document well
    formed. *)
Lemma wf_insert_fresh d (k : nat) (n : node) :
  wf_dom d → d !! k = None → parentNode n = None → childNodes n = [] →
  wf_dom (<[k := n]> d).
Proof.
  intros Hwf Hk Hpn Hcn.
  assert (Hpar : ∀ y, parent (<[k := n]> d) y = parent d y).
  { intros y. unfold parent. destruct (decide (k = y)) as [<-|Hne].
    - by rewrite lookup_insert_eq, Hk.
    - by rewrite lookup_insert_ne. }
  assert (Hch : ∀ y, children (<[k := n]> d) y = children d y).
  { intros y. unfold children. destruct (decide (k = y)) as [<-|Hne].
    - by rewrite lookup_insert_eq, Hk.
    - by rewrite lookup_insert_ne. }
  apply wf_dom_intro. intros y n' Hy. apply wf_node_intro.
  - intros q Hq. rewrite <- (parent_lookup _ y n' Hy), Hpar in Hq.
    destruct (wf_parent d y q Hwf Hq) as (Hc & Ha & Hin).
    split; [|split].
    + unfold can_parent in *. destruct (decide (k = q)) as [<-|Hne].
      * by rewrite Hk in Hc.
      * by rewrite lookup_insert_ne.
    + by rewrite Hch.
    + destruct (contains (<[k := n]> d) y q) eqn:Hcont; [|done].
      unfold contains in Hcont. rewrite (ancestor_ext d) in Hcont by done.
      apply ancestor_fuel in Hcont; [congruence|done].
  - intros c Hin. rewrite <- (children_lookup _ y n' Hy), Hch in Hin.
    rewrite Hpar. by apply wf_child.
  - rewrite <- (children_lookup _ y n' Hy), Hch. by apply wf_children_NoDup.
Qed.

End FreshNodes.

(* ================================================================== *)
(** * The operations on the tree keep the editor well formed *)
(* ================================================================== *)

Section TreeInvariant.

Import Dom Element.

Implicit Types d : gmap nat node.

(** ** The kinds of the nodes *)

Lemma kinds_node_data d d' (y : nat) :
  node_data <$> d' !! y = node_data <$> d !! y →
  nodeType <$> d' !! y = nodeType <$> d !! y.
Proof.
  unfold node_data. destruct (d' !! y), (d !! y); simpl; intros [=]; congruence.
Qed.

Lemma kinds_attributes d f (x y : nat) :
  nodeType <$> alter (set_attributes f) x d !! y = nodeType <$> d !! y.
Proof.
  destruct (decide (x = y)) as [->|Hne].
  - rewrite lookup_alter_eq. by destruct (d !! y).
  - by rewrite lookup_alter_ne.
Qed.

Lemma kinds_classList_remove d (x y : nat) c :
  nodeType <$> classList_remove d x c !! y = nodeType <$> d !! y.
Proof.
  unfold classList_remove.
  destruct (getAttribute d x class_attr), (filter _ _);
    first [done | apply kinds_attributes].
Qed.

Lemma kinds_can_parent d d' (y : nat) :
  nodeType <$> d' !! y = nodeType <$> d !! y →
  can_parent d' y = can_parent d y.
Proof.
  unfold can_parent. destruct (d' !! y), (d !! y); simpl; intros [=]; congruence.
Qed.

Lemma kinds_None d d' (y : nat) :
  nodeType <$> d' !! y = nodeType <$> d !! y → d !! y = None → d' !! y = None.
Proof. intros H Hy. rewrite Hy in H. by destruct (d' !! y). Qed.

(** A world whose document has changed into a well-formed one with the
    same nodes of the same kinds is well formed. *)
Lemma wf_world_kinds (E : Collab) (w w' : world) :
  wf_world E w → w_fresh w' = w_fresh w → wf_dom (w_dom w') →
  (∀ y, nodeType <$> w_dom w' !! y = nodeType <$> w_dom w !! y) →
  wf_world E w'.
Proof.
  intros (Hwf & Hfresh & Hbody) Hf Hwf' Hk. split; [done|]. split.
  - intros y Hy. apply (kinds_None (w_dom w)); [done|].
    apply Hfresh. by rewrite <- Hf.
  - by rewrite (kinds_can_parent (w_dom w)).
Qed.

(** What a scan returns is a child that passes the test of a Silex
    element, or what it started with. *)
Lemma scan_result (E : Collab) d (element : nat) (l : list nat) res s :
  scan E d element l res = Some s →
  res = Some s ∨ is_silex_element d s = true.
Proof.
  revert res. induction l as [|el l IH]; intros res; [done|]. simpl.
  destruct (is_silex_element d el) eqn:Hel; [|apply IH].
  destruct (decide (el = element)); [by left|].
  intros H. apply IH in H as [H|H]; [|by right].
  destruct (is_candidate E el); [|by left].
  injection H as <-. by right.
Qed.

Lemma is_silex_element_is_Some d (x : nat) :
  is_silex_element d x = true → is_Some (d !! x).
Proof. unfold is_silex_element. by destruct (d !! x). Qed.

(** The tree part of [move] keeps a document well formed, and its
    nodes. *)
Lemma move_dom_wf (E : Collab) d (element : nat) (direction : DomDirection) d' :
  wf_dom d → move_dom E d element direction = Some d' →
  wf_dom d' ∧ ∀ y, nodeType <$> d' !! y = nodeType <$> d !! y.
Proof.
  intros Hwf. unfold move_dom, getNextElement, getPreviousElement, appendChild.
  destruct (parent d element) as [p|] eqn:Hp; [|by destruct direction].
  cbn [mbind option_bind].
  assert (Hins : ∀ x ref, is_Some (d !! x) → insertBefore d p x ref = Some d' →
            wf_dom d' ∧ ∀ y, nodeType <$> d' !! y = nodeType <$> d !! y).
  { intros x ref Hx H. split; [by apply (wf_insertBefore d p x ref)|].
    intros y. apply kinds_node_data.
    by apply (insertBefore_node_data _ _ _ _ _ _ H). }
  destruct direction.
  - destruct (scan E d element (rev (children d p)) None) as [s|] eqn:Hs.
    + apply scan_result in Hs as [|Hs]; [done|].
      apply Hins. by apply is_silex_element_is_Some.
    + intros [= <-]. done.
  - destruct (scan E d element (children d p) None) as [s|] eqn:Hs.
    + apply scan_result in Hs as [|Hs]; [done|].
      apply Hins. by apply is_silex_element_is_Some.
    + intros [= <-]. done.
  - apply Hins. by apply parent_is_Some in Hp.
  - apply Hins. by apply parent_is_Some in Hp.
Qed.

(** X16: the operations on the tree keep the editor well formed (every
    child list and parent pointer agree, no node is listed twice or is
    its own ancestor, no unused identity is in use, the body can have
    children): [removeElement], whether it removes or refuses,
    [addElement] of a node of the document, and [move] in every
    direction. *)
Theorem tree_operations_keep_well_formed (E : Collab) (w : world)
    (element : nat) :
  wf_world E w →
  wf_world E (removeElement E w element)
  ∧ (∀ container w', is_Some (w_dom w !! element) →
       addElement w container element = Some w' → wf_world E w')
  ∧ (∀ direction w', move E w element direction = Some w' → wf_world E w').
Proof.
  intros Hw. pose proof Hw as (Hwf & _). split; [|split].
  - unfold removeElement. destruct (_ && _); [|done].
    apply (wf_world_kinds E w); [done|done| |].
    + by apply wf_detach.
    + intros y. apply kinds_node_data, node_data_detach.
  - intros container w' Hel. unfold addElement, appendChild.
    destruct (insertBefore _ _ _ _) as [d1|] eqn:Hd1; [|done].
    intros [= <-]. apply (wf_world_kinds E w); [done|done| |].
    + apply (wf_same_tree d1); [apply same_tree_classList_add|].
      by apply (wf_insertBefore _ _ _ _ _ Hwf Hel Hd1).
    + intros y. cbn [w_dom set_dom]. unfold classList_add, setAttribute.
      rewrite kinds_attributes. apply kinds_node_data.
      by apply (insertBefore_node_data _ _ _ _ _ _ Hd1).
  - intros direction w'. unfold move.
    destruct (move_dom _ _ _ _) as [d1|] eqn:Hd1; [|done].
    intros [= <-]. destruct (move_dom_wf E _ _ _ _ Hwf Hd1) as [Hwf1 Hk1].
    apply (wf_world_kinds E w); [done|done| |].
    + by apply (wf_same_tree d1); [apply same_tree_classList_remove|].
    + intros y. cbn [w_dom set_dom]. by rewrite kinds_classList_remove.
Qed.

(** The scenario of the four siblings: taking out B, adding it to some
    container and moving it all leave a well-formed editor. *)
Lemma tree_operations_keep_well_formed_witness :
  wf_world Scenario.paged
    (removeElement Scenario.paged Scenario.four_siblings_world 3)
  ∧ (∀ container w', is_Some (w_dom Scenario.four_siblings_world !! 3%nat) →
       addElement Scenario.four_siblings_world container 3 = Some w' →
       wf_world Scenario.paged w')
  ∧ (∀ direction w',
       move Scenario.paged Scenario.four_siblings_world 3 direction = Some w' →
       wf_world Scenario.paged w').
Proof.
  apply (tree_operations_keep_well_formed Scenario.paged
           Scenario.four_siblings_world 3).
  split; [vm_compute; reflexivity|]. split; [|vm_compute; reflexivity].
  apply lookup_above. vm_compute. reflexivity.
Defined.

End TreeInvariant.

(* ================================================================== *)
(** * Attributes, styles and loads keep the editor well formed *)
(* ================================================================== *)

Section AttributeInvariant.

Import Dom Element.

Implicit Types d : gmap nat node.




(** X25: loading an image keeps the editor well formed: [setImageUrl],
    whether it starts a load or refuses the element, the arrival of the
    image of a loader in flight, when the image is a node of the
    document, and the failure of a load. *)
Theorem image_loading_keeps_well_formed (E : Collab) (w : world) :
  wf_world E w →
  (∀ element url opt_callback opt_errorCallback,
     wf_world E (setImageUrl w element url opt_callback opt_errorCallback))
  ∧ (∀ k ld w', w_loaders w !! k = Some ld →
       is_Some (w_dom w !! ld_image ld) →
       load_completes w k = Some w' → wf_world E w')
  ∧ (∀ k w', load_fails w k = Some w' → wf_world E w').
Proof.
  intros Hw. pose proof Hw as (Hwf & Hfresh & Hbody). split; [|split].
  - intros element url cb ecb. unfold setImageUrl.
    case_bool_decide as Hty.
    2:{ apply (wf_world_kinds E w); [done| | |];
          by destruct ecb. }
    set (d6 := classList_add (w_dom w) element LOADING_ELEMENT_CSS_CLASS).
    set (d6' := match getElementsByTagNameAndClass d6 _ _ _ with
                | t :: _ => removeNode d6 t
                | [] => d6
                end).
    assert (Hwf6 : wf_dom d6)
      by (by apply (wf_same_tree (w_dom w)); [apply same_tree_classList_add|]).
    assert (Hk6 : ∀ y, nodeType <$> d6 !! y = nodeType <$> w_dom w !! y)
      by (intros y; apply kinds_attributes).
    assert (H6' : wf_dom d6'
                  ∧ ∀ y, nodeType <$> d6' !! y = nodeType <$> w_dom w !! y).
    { unfold d6'. destruct (getElementsByTagNameAndClass _ _ _ _) as [|t l].
      - done.
      - split; [by apply wf_detach|]. intros y. rewrite <- Hk6.
        apply kinds_node_data, node_data_detach. }
    destruct H6' as [Hwf6' Hk6'].
    unfold alloc. cbn [w_dom w_fresh set_dom]. fold d6'.
    assert (Hnew : d6' !! w_fresh w = None).
    { apply (kinds_None (w_dom w)); [done|]. by apply Hfresh. }
    split; [|split]; cbn [w_dom w_fresh set_loaders].
    + by apply wf_insert_fresh.
    + intros y Hy. rewrite lookup_insert_ne by lia.
      apply (kinds_None (w_dom w)); [done|]. apply Hfresh. lia.
    + unfold can_parent. rewrite lookup_insert_ne.
      * rewrite <- Hbody. by apply kinds_can_parent.
      * intros Heq. apply can_parent_is_Some in Hbody as [n Hn].
        rewrite <- Heq, Hfresh in Hn by done. done.
  - intros k ld w' Hk Himg. unfold load_completes. rewrite Hk.
    cbn [mbind option_bind]. unfold on_load.
    assert (Hdom : ∀ w0 : world,
              w_dom match ld_callback ld with
                    | Some f => emit (Callback f (ld_element ld) (ld_image ld)) w0
                    | None => w0
                    end = w_dom w0) by (intros w0; by destruct (ld_callback ld)).
    rewrite Hdom. cbn [w_dom set_loaders]. unfold appendChild.
    destruct (insertBefore _ _ _ _) as [d1|] eqn:Hd1; [|done].
    intros [= <-]. apply (wf_world_kinds E w); [done| | |].
    + by destruct (ld_callback ld).
    + cbn [w_dom set_dom emit].
      apply (wf_same_tree d1);
        [|by apply (wf_insertBefore _ _ _ _ _ Hwf Himg Hd1)].
      eapply same_tree_trans; [apply same_tree_classList_add|].
      eapply same_tree_trans; [apply same_tree_removeAttribute|].
      apply same_tree_classList_remove.
    + intros y. cbn [w_dom set_dom emit].
      rewrite kinds_classList_remove. unfold removeAttribute, classList_add,
        setAttribute. rewrite !kinds_attributes. apply kinds_node_data.
      by apply (insertBefore_node_data _ _ _ _ _ _ Hd1).
  - intros k w'. unfold load_fails.
    destruct (w_loaders w !! k) as [ld|]; [|done].
    intros [= <-]. unfold on_error.
    apply (wf_world_kinds E w); [done| | |];
      by destruct (ld_errorCallback ld).
Qed.

(** The scenario of the two loads in flight. *)
Lemma image_loading_keeps_well_formed_witness :
  (∀ element url opt_callback opt_errorCallback,
     wf_world Scenario.paged
       (setImageUrl Scenario.two_loads element url opt_callback
          opt_errorCallback))
  ∧ (∀ k ld w', w_loaders Scenario.two_loads !! k = Some ld →
       is_Some (w_dom Scenario.two_loads !! ld_image ld) →
       load_completes Scenario.two_loads k = Some w' →
       wf_world Scenario.paged w')
  ∧ (∀ k w', load_fails Scenario.two_loads k = Some w' →
       wf_world Scenario.paged w').
Proof.
  apply (image_loading_keeps_well_formed Scenario.paged Scenario.two_loads).
  split; [vm_compute; reflexivity|]. split; [|vm_compute; reflexivity].
  apply lookup_above. vm_compute. reflexivity.
Defined.

End AttributeInvariant.

(* ================================================================== *)
(** * Facts for the creation of elements *)
(* ================================================================== *)

Section CreateFacts.

Import Dom Element.

Implicit Types d : gmap nat node.

(** Above a node with an identity below [k] there are only such nodes,
    when every parent of such a node is one. *)
Lemma ancestor_among_old d (k f a x : nat) :
  (∀ y q, (y < k)%nat → parent d y = Some q → (q < k)%nat) →
  (x < k)%nat → (k ≤ a)%nat → is_ancestor_upto f d a x = false.
Proof.
  intros Hold. revert x. induction f as [|f IH]; intros x Hx Ha; simpl.
  - destruct (decide (a = x)); [lia|done].
  - destruct (decide (a = x)); [lia|].
    destruct (parent d x) as [q|] eqn:Hq; [|done].
    apply IH; [|done]. by apply (Hold x q).
Qed.

(** Two stores agree at a node when its data, its parent and its
    children are the same. *)
Lemma node_agrees d d' (y : nat) :
  node_data <$> d' !! y = node_data <$> d !! y →
  parent d' y = parent d y → children d' y = children d y →
  d' !! y = d !! y.
Proof.
  unfold node_data, parent, children.
  destruct (d' !! y) as [[t1 g1 a1 v1 p1 c1]|], (d !! y) as [[t2 g2 a2 v2 p2 c2]|];
    simpl; try done.
  intros [= -> -> -> ->] -> ->. done.
Qed.

Lemma hasClass_classList_add_iff d (x : nat) (c c' : list N) :
  is_token c → is_Some (d !! x) →
  hasClass (classList_add d x c) x c' = true
  ↔ hasClass d x c' = true ∨ c' = c.
Proof.
  intros Hc Hx. unfold hasClass. rewrite !bool_decide_eq_true.
  destruct (classList_classList_add d x c Hc Hx) as [-> _].
  case_bool_decide as Hin.
  - split; [auto|]. by intros [?| ->].
  - by rewrite elem_of_app, list_elem_of_singleton.
Qed.

End CreateFacts.

(* ================================================================== *)
(** * Nodes made and appended *)
(* ================================================================== *)

Section NewNodes.

Import Dom Element.

Implicit Types d : gmap nat node.

(** A new node, with its attributes set, in a well-formed document. *)
Lemma wf_new_node d (k : nat) (n : node) :
  wf_dom d → d !! k = None → parentNode n = None → childNodes n = [] →
  wf_dom (<[k := n]> d)
  ∧ parent (<[k := n]> d) k = None
  ∧ children (<[k := n]> d) k = []
  ∧ (∀ y, y ≠ k → <[k := n]> d !! y = d !! y).
Proof.
  intros Hwf Hk Hp Hc. split; [by apply wf_insert_fresh|].
  unfold parent, children. rewrite !lookup_insert_eq. simpl.
  split; [done|]. split; [done|]. intros y Hy. by rewrite lookup_insert_ne.
Qed.

(** [appendChild] of a node without a parent to another one. *)
Lemma appendChild_new d (p x : nat) :
  wf_dom d → can_parent d p = true → parent d p = None →
  parent d x = None → is_Some (d !! x) → x ≠ p →
  ∃ d', appendChild d p x = Some d'
    ∧ wf_dom d'
    ∧ children d' p = children d p ++ [x]
    ∧ parent d' x = Some p
    ∧ (∀ y, y ≠ p → children d' y = children d y)
    ∧ (∀ y, y ≠ x → parent d' y = parent d y)
    ∧ (∀ y, node_data <$> d' !! y = node_data <$> d !! y)
    ∧ (∀ y, y ≠ p → y ≠ x → d' !! y = d !! y).
Proof.
  intros Hwf Hc Hpp Hpx Hx Hne.
  assert (Ha : contains d x p = false) by (by apply unparented_not_contained).
  destruct (insertBefore_succeeds d p x None Hc Ha) as [d' Hd']; [done|].
  assert (Hch : ∀ y, y ≠ p → children d' y = children d y).
  { intros y Hy. rewrite (insertBefore_children_ne _ _ _ _ _ _ Hd') by done.
    by rewrite detach_unparented. }
  assert (Hpar : ∀ y, y ≠ x → parent d' y = parent d y).
  { intros y Hy. apply (insertBefore_parent_ne _ _ _ _ _ _ Hd'). congruence. }
  assert (Hnd : ∀ y, node_data <$> d' !! y = node_data <$> d !! y).
  { intros y. by apply (insertBefore_node_data _ _ _ _ _ _ Hd'). }
  exists d'. split; [exact Hd'|]. split.
  { by apply (wf_insertBefore d p x None). }
  split.
  { rewrite (insertBefore_children _ _ _ _ _ Hd'). unfold placed. simpl.
    by rewrite detach_unparented. }
  split; [by apply (insertBefore_parent _ _ _ _ _ Hd')|].
  split; [exact Hch|]. split; [exact Hpar|]. split; [exact Hnd|].
  intros y Hyp Hyx. apply node_agrees; auto.
Qed.

(** [classList.add] to a node other than [y] leaves [y] alone. *)
Lemma classList_add_lookup_ne d (x y : nat) (c : list N) :
  x ≠ y → classList_add d x c !! y = d !! y.
Proof. intros H. unfold classList_add, setAttribute. by rewrite lookup_alter_ne. Qed.

Lemma is_element_lookup d (x : nat) (n : node) :
  d !! x = Some n → is_element d x = (nodeType n =? 1).
Proof. intros H. unfold is_element. by rewrite H. Qed.

End NewNodes.

(* ================================================================== *)
(** * The common end of the creation *)
(* ================================================================== *)

Section CreateFinish.

Import Dom Element.

Implicit Types d : gmap nat node.

(** What [createElement] does with the element a creation method has
    made: [w1] is the world after that method, in which the element is
    a new node without a parent. *)
Lemma createElement_finish (E : Collab) (w w1 : world) (el : nat)
    (type : list N) (style : gmap (list N) (list N)) :
  let container :=
    default (body_getBodyElement E)
      (head (getElementsByClass (w_dom w) (Stage_BACKGROUND_CLASS_NAME E)
               (body_getBodyElement E))) in
  let W5 :=
    emit (BodySetEditable el true)
      (property_setStyle el style
         (emit (PropertyInitSilexId el)
            (set_dom (classList_add (w_dom w1) el (Body_EDITABLE_CLASS_NAME E))
               w1))) in
  let W6 :=
    set_dom (classList_add (w_dom W5) el (type ++ Js.lit "-element")) W5 in
  wf_world E w →
  is_token (Body_EDITABLE_CLASS_NAME E) →
  is_token (type ++ Js.lit "-element") →
  (w_fresh w ≤ el)%nat →
  wf_dom (w_dom w1) →
  can_parent (w_dom w1) el = true →
  parent (w_dom w1) el = None →
  (∀ y, (y < w_fresh w)%nat → w_dom w1 !! y = w_dom w !! y) →
  (∀ y, (w_fresh w1 ≤ y)%nat → w_dom w1 !! y = None) →
  ∃ w', addElement W6 container el = Some w'
    ∧ wf_world E w'
    ∧ w_fresh w' = w_fresh w1
    ∧ parent (w_dom w') el = Some container
    ∧ children (w_dom w') container = children (w_dom w) container ++ [el]
    ∧ (∀ y, y ≠ container → children (w_dom w') y = children (w_dom w1) y)
    ∧ (∀ y, y ≠ el → parent (w_dom w') y = parent (w_dom w1) y)
    ∧ (∀ y, y ≠ el →
         node_data <$> w_dom w' !! y = node_data <$> w_dom w1 !! y)
    ∧ (∀ name, name ≠ class_attr →
         getAttribute (w_dom w') el name = getAttribute (w_dom w1) el name)
    ∧ (∀ c, hasClass (w_dom w') el c = true
            ↔ hasClass (w_dom w1) el c = true
              ∨ c = Body_EDITABLE_CLASS_NAME E
              ∨ c = type ++ Js.lit "-element"
              ∨ c = JUST_ADDED_CLASS_NAME)
    ∧ is_element (w_dom w') el = is_element (w_dom w1) el
    ∧ w_styles w' = <[el := style]> (w_styles w1)
    ∧ w_loaders w' = w_loaders w1
    ∧ w_trace w'
      = BodySetEditable el true :: PropertySetStyle el style
        :: PropertyInitSilexId el :: w_trace w1.
Proof.
  intros container W5 W6 Hw Hed Hte Hel Hwf1 Hcp1 Hp1 Hold Hfresh1.
  pose proof (container_can_parent E w Hw) as Hcont. fold container in Hcont.
  pose proof (parent_in_use E w) as Huse.
  pose proof Hw as (Hwf & Hfresh & Hbody).
  assert (Hcold : (container < w_fresh w)%nat).
  { apply can_parent_is_Some in Hcont as [n Hn].
    destruct (decide (container < w_fresh w)%nat); [done|].
    rewrite Hfresh in Hn by lia. done. }
  assert (Hne : container ≠ el) by lia.
  set (d1 := w_dom w1) in *.
  set (d2 := classList_add d1 el (Body_EDITABLE_CLASS_NAME E)).
  set (d3 := classList_add d2 el (type ++ Js.lit "-element")).
  assert (Hel1 : is_Some (d1 !! el)) by (by apply can_parent_is_Some).
  assert (Hel2 : is_Some (d2 !! el)) by (by apply classList_add_lookup).
  assert (Hel3 : is_Some (d3 !! el)) by (by apply classList_add_lookup).
  assert (Ht13 : same_tree d1 d3).
  { eapply same_tree_trans; apply same_tree_classList_add. }
  assert (Hk13 : ∀ y, nodeType <$> d3 !! y = nodeType <$> d1 !! y).
  { intros y. unfold d3, d2, classList_add, setAttribute.
    by rewrite !kinds_attributes. }
  assert (Hwf3 : wf_dom d3) by (by apply (wf_same_tree d1)).
  assert (Hc3 : can_parent d3 container = true).
  { rewrite (kinds_can_parent d1) by done. unfold can_parent.
    rewrite Hold by done. exact Hcont. }
  assert (Ha3 : contains d3 el container = false).
  { unfold contains. apply (ancestor_among_old d3 (w_fresh w)); [|done|done].
    intros y q Hy Hq. destruct Ht13 as [_ Ht13].
    destruct (Ht13 y) as (Hpy & _). rewrite Hpy in Hq.
    unfold parent in Hq. rewrite Hold in Hq by done. by apply (Huse y q). }
  destruct (insertBefore_succeeds d3 container el None Hc3 Ha3) as [d4 Hd4];
    [done|].
  set (d5 := classList_add d4 el JUST_ADDED_CLASS_NAME).
  assert (Hel4 : is_Some (d4 !! el))
    by (by apply (insertBefore_lookup_is_Some _ _ _ el _ _ Hd4)).
  assert (Hwf4 : wf_dom d4) by (by apply (wf_insertBefore d3 container el None)).
  destruct (same_tree_classList_add d4 el JUST_ADDED_CLASS_NAME) as [Hs5 Ht5].
  fold d5 in Hs5, Ht5.
  assert (Hp3 : parent d3 el = None).
  { destruct Ht13 as [_ Ht13]. by destruct (Ht13 el) as (-> & _). }
  exists (set_dom d5 W6). split.
  { unfold addElement, appendChild. cbn [w_dom set_dom W6]. unfold W5.
    cbn [w_dom emit property_setStyle set_dom]. fold d1 d2 d3.
    rewrite Hd4. done. }
  cbn [w_dom w_fresh w_styles w_loaders w_trace set_dom emit property_setStyle
       W6 W5].
  assert (Hk5 : ∀ y, nodeType <$> d5 !! y = nodeType <$> d1 !! y).
  { intros y. unfold d5, classList_add, setAttribute.
    rewrite kinds_attributes, <- Hk13. apply kinds_node_data.
    by apply (insertBefore_node_data _ _ _ _ _ _ Hd4). }
  destruct Ht13 as [_ Ht13].
  split.
  { split; [|split]; cbn [w_dom w_fresh set_dom].
    - by apply (wf_same_tree d4); [apply same_tree_classList_add|].
    - intros y Hy. apply (kinds_None d1); [done|]. by apply Hfresh1.
    - rewrite (kinds_can_parent d1) by done. unfold can_parent.
      assert (Hb : (body_getBodyElement E < w_fresh w)%nat).
      { apply can_parent_is_Some in Hbody as [n Hn].
        destruct (decide (body_getBodyElement E < w_fresh w)%nat); [done|].
        rewrite Hfresh in Hn by lia. done. }
      rewrite Hold by done. exact Hbody. }
  split; [done|]. split.
  { destruct (Ht5 el) as (-> & _).
    by apply (insertBefore_parent _ _ _ _ _ Hd4). }
  split.
  { destruct (Ht5 container) as (_ & -> & _).
    rewrite (insertBefore_children _ _ _ _ _ Hd4). unfold placed. simpl.
    rewrite (detach_unparented d3 el Hp3).
    destruct (Ht13 container) as (_ & -> & _).
    unfold children. by rewrite Hold. }
  split.
  { intros y Hy. destruct (Ht5 y) as (_ & -> & _).
    rewrite (insertBefore_children_ne _ _ _ _ _ _ Hd4) by done.
    rewrite (detach_unparented d3 el Hp3).
    by destruct (Ht13 y) as (_ & -> & _). }
  split.
  { intros y Hy. destruct (Ht5 y) as (-> & _).
    rewrite (insertBefore_parent_ne _ _ _ _ _ _ Hd4) by done.
    by destruct (Ht13 y) as (-> & _). }
  split.
  { intros y Hy. unfold d5, classList_add, setAttribute.
    rewrite lookup_alter_ne by done.
    rewrite (insertBefore_node_data _ _ _ _ _ _ Hd4).
    unfold d3, d2, classList_add, setAttribute.
    by rewrite !lookup_alter_ne. }
  split.
  { intros name Hname. unfold d5.
    rewrite getAttribute_classList_add_ne by (right; congruence).
    rewrite (node_data_getAttribute d3)
      by apply (insertBefore_node_data _ _ _ _ _ _ Hd4).
    unfold d3, d2.
    by rewrite !getAttribute_classList_add_ne by (right; congruence). }
  split.
  { intros c. unfold d5.
    rewrite hasClass_classList_add_iff by (done || apply is_token_just_added).
    rewrite (node_data_hasClass d3)
      by apply (insertBefore_node_data _ _ _ _ _ _ Hd4).
    unfold d3. rewrite hasClass_classList_add_iff by done.
    unfold d2. rewrite hasClass_classList_add_iff by done. tauto. }
  split; [|done].
  unfold is_element. pose proof (Hk5 el) as Hk.
  destruct (d5 !! el), (d1 !! el); simpl in Hk; try done. by injection Hk as ->.
Qed.

End CreateFinish.

(* ================================================================== *)
(** * The text box *)
(* ================================================================== *)

Section CreateText.

Import Dom Element.

Implicit Types d : gmap nat node.

Lemma createContainerElement_eq (w : world) :
  createContainerElement w
  = (w_fresh w,
     World (<[w_fresh w := Node 1 (Js.lit "div") [(TYPE_ATTR, TYPE_CONTAINER)]
                             [] None []]> (w_dom w))
       (S (w_fresh w)) (w_styles w) (w_loaders w) (w_trace w)).
Proof.
  unfold createContainerElement, alloc, set_dom, setAttribute.
  cbn [w_dom w_fresh w_styles w_loaders w_trace]. by rewrite alter_insert_eq.
Qed.

Lemma createImageElement_eq (w : world) :
  createImageElement w
  = (w_fresh w,
     World (<[w_fresh w := Node 1 (Js.lit "div") [(TYPE_ATTR, TYPE_IMAGE)]
                             [] None []]> (w_dom w))
       (S (w_fresh w)) (w_styles w) (w_loaders w) (w_trace w)).
Proof.
  unfold createImageElement, alloc, set_dom, setAttribute.
  cbn [w_dom w_fresh w_styles w_loaders w_trace]. by rewrite alter_insert_eq.
Qed.

(** [createTextElement] in a well-formed document: the element is the
    first unused identity, its content the next one and the text node
    the one after. *)
Lemma createTextElement_spec (w : world) :
  wf_dom (w_dom w) →
  (∀ y, (w_fresh w ≤ y)%nat → w_dom w !! y = None) →
  let el := w_fresh w in
  let tc := S el in
  let tx := S tc in
  ∃ w1, createTextElement w = Some (el, w1)
    ∧ wf_dom (w_dom w1)
    ∧ w_fresh w1 = S tx
    ∧ (∀ y, y ≠ el → y ≠ tc → y ≠ tx → w_dom w1 !! y = w_dom w !! y)
    ∧ can_parent (w_dom w1) el = true
    ∧ parent (w_dom w1) el = None
    ∧ getAttribute (w_dom w1) el TYPE_ATTR = Some TYPE_TEXT
    ∧ getAttribute (w_dom w1) el class_attr = None
    ∧ children (w_dom w1) el = [tc]
    ∧ children (w_dom w1) tc = [tx]
    ∧ children (w_dom w1) tx = []
    ∧ is_element (w_dom w1) tc = true
    ∧ is_element (w_dom w1) tx = false
    ∧ (∀ c, hasClass (w_dom w1) tc c = true
            ↔ c = ELEMENT_CONTENT_CLASS_NAME ∨ c = Js.lit "normal")
    ∧ w_styles w1 = w_styles w
    ∧ w_loaders w1 = w_loaders w
    ∧ w_trace w1 = w_trace w.
Proof.
  intros Hwf Hfresh el tc tx.
  unfold createTextElement, alloc, set_dom, setAttribute.
  cbn [w_dom w_fresh w_styles w_loaders w_trace].
  rewrite alter_insert_eq. fold el tc tx.
  set (Nel := set_attributes (attr_set TYPE_ATTR TYPE_TEXT)
                (new_element (Js.lit "div"))).
  set (dA := <[el := Nel]> (w_dom w)).
  set (dB := <[tc := new_element (Js.lit "div")]> dA).
  set (dC := <[tx := new_text (Js.lit "New text box")]> dB).
  assert (HA0 : w_dom w !! el = None) by (apply Hfresh; lia).
  assert (HB0 : dA !! tc = None).
  { unfold dA. rewrite lookup_insert_ne by (unfold tc; lia).
    apply Hfresh. unfold tc, el. lia. }
  assert (HC0 : dB !! tx = None).
  { unfold dB, dA. rewrite !lookup_insert_ne by (unfold tx, tc; lia).
    apply Hfresh. unfold tx, tc, el. lia. }
  destruct (wf_new_node (w_dom w) el Nel Hwf HA0 eq_refl eq_refl)
    as (HwfA & _ & _ & _).
  destruct (wf_new_node dA tc (new_element (Js.lit "div")) HwfA HB0 eq_refl
              eq_refl) as (HwfB & _ & _ & _).
  destruct (wf_new_node dB tx (new_text (Js.lit "New text box")) HwfB HC0
              eq_refl eq_refl) as (HwfC & _ & _ & _).
  assert (Hel : dC !! el = Some Nel).
  { unfold dC, dB, dA. rewrite !lookup_insert_ne by (unfold tx, tc; lia).
    by rewrite lookup_insert_eq. }
  assert (Htc : dC !! tc = Some (new_element (Js.lit "div"))).
  { unfold dC, dB. rewrite lookup_insert_ne by (unfold tx; lia).
    by rewrite lookup_insert_eq. }
  assert (Htx : dC !! tx = Some (new_text (Js.lit "New text box"))).
  { unfold dC. by rewrite lookup_insert_eq. }
  destruct (appendChild_new dC tc tx HwfC)
    as (dD & HdD & HwfD & HchD & HpD & HchD' & HpD' & HndD & HD).
  { unfold can_parent. by rewrite Htc. }
  { unfold parent. by rewrite Htc. }
  { unfold parent. by rewrite Htx. }
  { by rewrite Htx. }
  { unfold tx. lia. }
  rewrite HdD. cbn [mbind option_bind].
  destruct (appendChild_new dD el tc HwfD)
    as (dE & HdE & HwfE & HchE & HpE & HchE' & HpE' & HndE & HE).
  { rewrite (node_data_can_parent dC) by apply HndD.
    unfold can_parent. by rewrite Hel. }
  { rewrite HpD' by (unfold tx, tc; lia). unfold parent. by rewrite Hel. }
  { rewrite HpD' by (unfold tx; lia). unfold parent. by rewrite Htc. }
  { pose proof (HndD tc) as H. rewrite Htc in H. by destruct (dD !! tc). }
  { unfold tc. lia. }
  rewrite HdE. cbn [mbind option_bind].
  set (dF := classList_add dE tc ELEMENT_CONTENT_CLASS_NAME).
  set (dG := classList_add dF tc (Js.lit "normal")).
  eexists. split; [reflexivity|].
  cbn [w_dom w_fresh w_styles w_loaders w_trace].
  assert (Hsame : same_tree dE dG).
  { eapply same_tree_trans; apply same_tree_classList_add. }
  destruct Hsame as [Hsize Hsame].
  assert (Hnd : ∀ y, node_data <$> dE !! y = node_data <$> dC !! y).
  { intros y. by rewrite HndE, HndD. }
  assert (HtcE : is_Some (dE !! tc)).
  { pose proof (Hnd tc) as H. rewrite Htc in H. by destruct (dE !! tc). }
  split; [by apply (wf_same_tree dE dG)|]. split; [done|]. split.
  { intros y H1 H2 H3. unfold dG, dF.
    rewrite !classList_add_lookup_ne by done. rewrite HE, HD by done.
    unfold dC, dB, dA. by rewrite !lookup_insert_ne. }
  split.
  { destruct (Hsame el) as (_ & _ & -> & _).
    rewrite (node_data_can_parent dC) by apply Hnd.
    unfold can_parent. by rewrite Hel. }
  split.
  { destruct (Hsame el) as (-> & _).
    rewrite HpE', HpD' by (unfold tx, tc; lia). unfold parent. by rewrite Hel. }
  assert (Hattr : ∀ name, getAttribute dG el name = attr_get name (attributes Nel)).
  { intros name. unfold dG, dF.
    rewrite !getAttribute_classList_add_ne by (left; unfold tc; lia).
    rewrite (node_data_getAttribute dC) by apply Hnd.
    unfold getAttribute. by rewrite Hel. }
  split; [by rewrite Hattr|]. split; [by rewrite Hattr|]. split.
  { destruct (Hsame el) as (_ & -> & _). rewrite HchE.
    rewrite HchD' by (unfold tc; lia). unfold children. by rewrite Hel. }
  split.
  { destruct (Hsame tc) as (_ & -> & _). rewrite HchE' by (unfold tc; lia).
    rewrite HchD. unfold children. by rewrite Htc. }
  split.
  { destruct (Hsame tx) as (_ & -> & _).
    rewrite HchE', HchD' by (unfold tx, tc; lia). unfold children.
    by rewrite Htx. }
  split.
  { destruct (Hsame tc) as (_ & _ & _ & -> & _).
    rewrite (node_data_is_element dC) by apply Hnd.
    by rewrite (is_element_lookup _ _ _ Htc). }
  split.
  { destruct (Hsame tx) as (_ & _ & _ & -> & _).
    rewrite (node_data_is_element dC) by apply Hnd.
    by rewrite (is_element_lookup _ _ _ Htx). }
  split; [|done].
  intros c. unfold dG.
  rewrite hasClass_classList_add_iff;
    [|by split; [|repeat constructor]|by apply classList_add_lookup].
  unfold dF. rewrite hasClass_classList_add_iff;
    [|apply is_token_content|done].
  rewrite (node_data_hasClass dC) by apply Hnd.
  assert (Hno : hasClass dC tc c = false).
  { unfold hasClass, classList, className, getAttribute. by rewrite Htc. }
  rewrite Hno. split; [intros [[?|?]|?]; auto; done|intros [?|?]; auto].
Qed.

End CreateText.

(* ================================================================== *)
(** * The HTML box *)
(* ================================================================== *)

Section CreateHtml.

Import Dom Element.

Implicit Types d : gmap nat node.

(** [createHtmlElement] in a well-formed document: the element is the
    first unused identity, then come its content, the paragraph and the
    text node. *)
Lemma createHtmlElement_spec (w : world) :
  wf_dom (w_dom w) →
  (∀ y, (w_fresh w ≤ y)%nat → w_dom w !! y = None) →
  let el := w_fresh w in
  let hc := S el in
  let pa := S hc in
  let tx := S pa in
  ∃ w1, createHtmlElement w = Some (el, w1)
    ∧ wf_dom (w_dom w1)
    ∧ w_fresh w1 = S tx
    ∧ (∀ y, y ≠ el → y ≠ hc → y ≠ pa → y ≠ tx → w_dom w1 !! y = w_dom w !! y)
    ∧ can_parent (w_dom w1) el = true
    ∧ parent (w_dom w1) el = None
    ∧ getAttribute (w_dom w1) el TYPE_ATTR = Some TYPE_HTML
    ∧ getAttribute (w_dom w1) el class_attr = None
    ∧ children (w_dom w1) el = [hc]
    ∧ children (w_dom w1) hc = [pa]
    ∧ children (w_dom w1) pa = [tx]
    ∧ children (w_dom w1) tx = []
    ∧ is_element (w_dom w1) hc = true
    ∧ (∀ c, hasClass (w_dom w1) hc c = true ↔ c = ELEMENT_CONTENT_CLASS_NAME)
    ∧ (∀ c, hasClass (w_dom w1) pa c = false)
    ∧ is_element (w_dom w1) tx = false
    ∧ w_styles w1 = w_styles w
    ∧ w_loaders w1 = w_loaders w
    ∧ w_trace w1 = w_trace w.
Proof.
  intros Hwf Hfresh el hc pa tx.
  unfold createHtmlElement, alloc, set_dom, setAttribute.
  cbn [w_dom w_fresh w_styles w_loaders w_trace].
  rewrite alter_insert_eq. fold el hc pa tx.
  set (Nel := set_attributes (attr_set TYPE_ATTR TYPE_HTML)
                (new_element (Js.lit "div"))).
  set (dA := <[el := Nel]> (w_dom w)).
  set (dB := <[hc := new_element (Js.lit "div")]> dA).
  set (dC := <[pa := new_element (Js.lit "p")]> dB).
  set (dC' := <[tx := new_text (Js.lit "New HTML box")]> dC).
  assert (HA0 : w_dom w !! el = None) by (apply Hfresh; lia).
  assert (HB0 : dA !! hc = None).
  { unfold dA. rewrite lookup_insert_ne by (unfold hc; lia).
    apply Hfresh. unfold hc, el. lia. }
  assert (HC0 : dB !! pa = None).
  { unfold dB, dA. rewrite !lookup_insert_ne by (unfold pa, hc; lia).
    apply Hfresh. unfold pa, hc, el. lia. }
  assert (HC0' : dC !! tx = None).
  { unfold dC, dB, dA. rewrite !lookup_insert_ne by (unfold tx, pa, hc; lia).
    apply Hfresh. unfold tx, pa, hc, el. lia. }
  destruct (wf_new_node (w_dom w) el Nel Hwf HA0 eq_refl eq_refl)
    as (HwfA & _ & _ & _).
  destruct (wf_new_node dA hc (new_element (Js.lit "div")) HwfA HB0 eq_refl
              eq_refl) as (HwfB & _ & _ & _).
  destruct (wf_new_node dB pa (new_element (Js.lit "p")) HwfB HC0 eq_refl
              eq_refl) as (HwfC & _ & _ & _).
  destruct (wf_new_node dC tx (new_text (Js.lit "New HTML box")) HwfC HC0'
              eq_refl eq_refl) as (HwfC' & _ & _ & _).
  assert (Hel : dC' !! el = Some Nel).
  { unfold dC', dC, dB, dA.
    rewrite !lookup_insert_ne by (unfold tx, pa, hc; lia).
    by rewrite lookup_insert_eq. }
  assert (Hhc : dC' !! hc = Some (new_element (Js.lit "div"))).
  { unfold dC', dC, dB. rewrite !lookup_insert_ne by (unfold tx, pa; lia).
    by rewrite lookup_insert_eq. }
  assert (Hpa : dC' !! pa = Some (new_element (Js.lit "p"))).
  { unfold dC', dC. rewrite lookup_insert_ne by (unfold tx; lia).
    by rewrite lookup_insert_eq. }
  assert (Htx : dC' !! tx = Some (new_text (Js.lit "New HTML box"))).
  { unfold dC'. by rewrite lookup_insert_eq. }
  destruct (appendChild_new dC' pa tx HwfC')
    as (d1 & Hd1 & Hwf1 & Hch1 & Hp1 & Hch1' & Hp1' & Hnd1 & H1).
  { unfold can_parent. by rewrite Hpa. }
  { unfold parent. by rewrite Hpa. }
  { unfold parent. by rewrite Htx. }
  { by rewrite Htx. }
  { unfold tx. lia. }
  rewrite Hd1. cbn [mbind option_bind].
  destruct (appendChild_new d1 hc pa Hwf1)
    as (d2 & Hd2 & Hwf2 & Hch2 & Hp2 & Hch2' & Hp2' & Hnd2 & H2).
  { rewrite (node_data_can_parent dC') by apply Hnd1.
    unfold can_parent. by rewrite Hhc. }
  { rewrite Hp1' by (unfold tx, pa; lia). unfold parent. by rewrite Hhc. }
  { rewrite Hp1' by (unfold tx; lia). unfold parent. by rewrite Hpa. }
  { pose proof (Hnd1 pa) as H. rewrite Hpa in H. by destruct (d1 !! pa). }
  { unfold pa. lia. }
  rewrite Hd2. cbn [mbind option_bind].
  assert (Hnd12 : ∀ y, node_data <$> d2 !! y = node_data <$> dC' !! y).
  { intros y. by rewrite Hnd2, Hnd1. }
  destruct (appendChild_new d2 el hc Hwf2)
    as (d3 & Hd3 & Hwf3 & Hch3 & Hp3 & Hch3' & Hp3' & Hnd3 & H3).
  { rewrite (node_data_can_parent dC') by apply Hnd12.
    unfold can_parent. by rewrite Hel. }
  { rewrite Hp2', Hp1' by (unfold tx, pa, hc; lia). unfold parent.
    by rewrite Hel. }
  { rewrite Hp2', Hp1' by (unfold tx, pa; lia). unfold parent.
    by rewrite Hhc. }
  { pose proof (Hnd12 hc) as H. rewrite Hhc in H. by destruct (d2 !! hc). }
  { unfold hc. lia. }
  rewrite Hd3. cbn [mbind option_bind].
  set (dG := classList_add d3 hc ELEMENT_CONTENT_CLASS_NAME).
  eexists. split; [reflexivity|].
  cbn [w_dom w_fresh w_styles w_loaders w_trace].
  destruct (same_tree_classList_add d3 hc ELEMENT_CONTENT_CLASS_NAME)
    as [Hsize Hsame]. fold dG in Hsame.
  assert (Hnd : ∀ y, node_data <$> d3 !! y = node_data <$> dC' !! y).
  { intros y. by rewrite Hnd3, Hnd12. }
  assert (Hhc3 : is_Some (d3 !! hc)).
  { pose proof (Hnd hc) as H. rewrite Hhc in H. by destruct (d3 !! hc). }
  split.
  { apply (wf_same_tree d3 dG); [|done].
    apply same_tree_classList_add. }
  split; [done|]. split.
  { intros y Y1 Y2 Y3 Y4. unfold dG.
    rewrite classList_add_lookup_ne by done. rewrite H3, H2, H1 by done.
    unfold dC', dC, dB, dA. by rewrite !lookup_insert_ne. }
  split.
  { destruct (Hsame el) as (_ & _ & -> & _).
    rewrite (node_data_can_parent dC') by apply Hnd.
    unfold can_parent. by rewrite Hel. }
  split.
  { destruct (Hsame el) as (-> & _).
    rewrite Hp3', Hp2', Hp1' by (unfold tx, pa, hc; lia). unfold parent.
    by rewrite Hel. }
  assert (Hattr : ∀ name, getAttribute dG el name = attr_get name (attributes Nel)).
  { intros name. unfold dG.
    rewrite getAttribute_classList_add_ne by (left; unfold hc; lia).
    rewrite (node_data_getAttribute dC') by apply Hnd.
    unfold getAttribute. by rewrite Hel. }
  split; [by rewrite Hattr|]. split; [by rewrite Hattr|]. split.
  { destruct (Hsame el) as (_ & -> & _). rewrite Hch3.
    rewrite Hch2', Hch1' by (unfold pa, hc; lia). unfold children.
    by rewrite Hel. }
  split.
  { destruct (Hsame hc) as (_ & -> & _). rewrite Hch3' by (unfold hc; lia).
    rewrite Hch2, Hch1' by (unfold pa; lia). unfold children. by rewrite Hhc. }
  split.
  { destruct (Hsame pa) as (_ & -> & _).
    rewrite Hch3', Hch2' by (unfold pa, hc; lia).
    rewrite Hch1. unfold children. by rewrite Hpa. }
  split.
  { destruct (Hsame tx) as (_ & -> & _).
    rewrite Hch3', Hch2', Hch1' by (unfold tx, pa, hc; lia). unfold children.
    by rewrite Htx. }
  split.
  { destruct (Hsame hc) as (_ & _ & _ & -> & _).
    rewrite (node_data_is_element dC') by apply Hnd.
    by rewrite (is_element_lookup _ _ _ Hhc). }
  split.
  { intros c. unfold dG.
    rewrite hasClass_classList_add_iff; [|apply is_token_content|done].
    rewrite (node_data_hasClass dC') by apply Hnd.
    assert (Hno : hasClass dC' hc c = false).
    { unfold hasClass, classList, className, getAttribute. by rewrite Hhc. }
    rewrite Hno. split; [by intros [?|?]|auto]. }
  split.
  { intros c. unfold dG.
    rewrite (node_data_hasClass d3).
    - rewrite (node_data_hasClass dC') by apply Hnd.
      unfold hasClass, classList, className, getAttribute. by rewrite Hpa.
    - by rewrite classList_add_lookup_ne by (unfold pa; lia). }
  split; [|done].
  destruct (Hsame tx) as (_ & _ & _ & -> & _).
  rewrite (node_data_is_element dC') by apply Hnd.
  by rewrite (is_element_lookup _ _ _ Htx).
Qed.

End CreateHtml.

(* ================================================================== *)
(** * After the node is made *)
(* ================================================================== *)

Section CreateAfter.

Import Dom Element.

Implicit Types d : gmap nat node.

(** The container of new elements is a node of the document. *)
Lemma container_is_old (E : Collab) (w : world) :
  wf_world E w →
  (default (body_getBodyElement E)
     (head (getElementsByClass (w_dom w) (Stage_BACKGROUND_CLASS_NAME E)
              (body_getBodyElement E))) < w_fresh w)%nat.
Proof.
  intros Hw. pose proof (container_can_parent E w Hw) as Hcont.
  destruct Hw as (_ & Hfresh & _).
  set (container := default _ _) in *.
  apply can_parent_is_Some in Hcont as [n Hn].
  destruct (decide (container < w_fresh w)%nat); [done|].
  rewrite Hfresh in Hn by lia. done.
Qed.

(** What [createElement] does with the node one of the four creation
    functions has made: [w1] is the state after the creation. *)
Lemma createElement_after (E : Collab) (w w1 : world) (type : list N)
    (style : gmap (list N) (list N)) :
  let el := w_fresh w in
  let container :=
    default (body_getBodyElement E)
      (head (getElementsByClass (w_dom w) (Stage_BACKGROUND_CLASS_NAME E)
               (body_getBodyElement E))) in
  let W5 :=
    emit (BodySetEditable el true)
      (property_setStyle el style
         (emit (PropertyInitSilexId el)
            (set_dom (classList_add (w_dom w1) el
                        (Body_EDITABLE_CLASS_NAME E)) w1))) in
  let W6 :=
    set_dom (classList_add (w_dom W5) el (type ++ Js.lit "-element")) W5 in
  wf_world E w →
  is_token (Body_EDITABLE_CLASS_NAME E) →
  is_token (type ++ Js.lit "-element") →
  wf_dom (w_dom w1) →
  can_parent (w_dom w1) el = true →
  parent (w_dom w1) el = None →
  (∀ y, (y < w_fresh w)%nat → w_dom w1 !! y = w_dom w !! y) →
  (∀ y, (w_fresh w1 ≤ y)%nat → w_dom w1 !! y = None) →
  getAttribute (w_dom w1) el TYPE_ATTR = Some type →
  getAttribute (w_dom w1) el class_attr = None →
  w_styles w1 = w_styles w → w_loaders w1 = w_loaders w →
  w_trace w1 = w_trace w →
  ∃ w', addElement W6 container el = Some w'
    ∧ wf_world E w'
    ∧ w_fresh w' = w_fresh w1
    ∧ getType (w_dom w') el = Some type
    ∧ (∀ c, hasClass (w_dom w') el c = true
            ↔ c = Body_EDITABLE_CLASS_NAME E
              ∨ c = type ++ Js.lit "-element"
              ∨ c = JUST_ADDED_CLASS_NAME)
    ∧ parent (w_dom w') el = Some container
    ∧ children (w_dom w') container = children (w_dom w) container ++ [el]
    ∧ (∀ y, (y < w_fresh w)%nat → y ≠ container →
            w_dom w' !! y = w_dom w !! y)
    ∧ w_styles w' = <[el := style]> (w_styles w)
    ∧ w_loaders w' = w_loaders w
    ∧ w_trace w'
      = BodySetEditable el true :: PropertySetStyle el style
        :: PropertyInitSilexId el :: w_trace w
    ∧ (∀ y, (w_fresh w < y)%nat → w_dom w' !! y = w_dom w1 !! y)
    ∧ children (w_dom w') el = children (w_dom w1) el.
Proof.
  intros el container W5 W6 Hw Hed Hte Hwf1 Hcp1 Hp1 Hold Hfresh1 Hty Hcl
    Hst Hld Htr.
  pose proof (container_is_old E w Hw) as Hcold. fold container in Hcold.
  destruct (createElement_finish E w w1 el type style Hw Hed Hte (le_n _)
              Hwf1 Hcp1 Hp1 Hold Hfresh1)
    as (w' & Hadd & Hw' & Hf' & Hpar & Hchc & Hch & Hp & Hnd & Hattr & Hcls
        & _ & Hst' & Hld' & Htr').
  fold container in Hadd, Hpar, Hchc, Hch.
  exists w'. split; [exact Hadd|]. split; [exact Hw'|]. split; [exact Hf'|].
  split.
  { unfold getType. rewrite Hattr by done. exact Hty. }
  split.
  { intros c. rewrite Hcls.
    assert (Hno : hasClass (w_dom w1) el c = false).
    { unfold hasClass, classList, className. by rewrite Hcl. }
    rewrite Hno. split; [intros [?|?]; [done|auto]|auto]. }
  split; [exact Hpar|]. split; [exact Hchc|]. split.
  { intros y Hy Hyc. rewrite <- Hold by done.
    apply node_agrees; [apply Hnd|apply Hp|apply Hch]; first [done | unfold el; lia]. }
  split; [by rewrite Hst', Hst|]. split; [by rewrite Hld', Hld|].
  split; [by rewrite Htr', Htr|]. split.
  { intros y Hy.
    apply node_agrees; [apply Hnd|apply Hp|apply Hch]; unfold el; lia. }
  apply Hch. unfold el. lia.
Qed.

End CreateAfter.

(* ================================================================== *)
(** * The content node of what was made *)
(* ================================================================== *)

Section ContentOfNew.

Import Dom Element.

Implicit Types d : gmap nat node.

Lemma lookup_children d d' (y : nat) :
  d' !! y = d !! y → children d' y = children d y.
Proof. intros H. unfold children. by rewrite H. Qed.

Lemma lookup_is_element d d' (y : nat) :
  d' !! y = d !! y → is_element d' y = is_element d y.
Proof. intros H. unfold is_element. by rewrite H. Qed.

Lemma lookup_hasClass d d' (y : nat) c :
  d' !! y = d !! y → hasClass d' y c = hasClass d y c.
Proof. intros H. apply node_data_hasClass. by rewrite H. Qed.

(** The content node of an element without children is the element. *)
Lemma content_of_leaf d (el : nat) :
  children d el = [] → getContentNode d el = el.
Proof.
  intros H. unfold getContentNode, getElementsByClass.
  by rewrite descendants_leaf.
Qed.

(** The content node of an element whose only child is an element with
    the content class, over a text node. *)
Lemma content_of_text d (el tc tx : nat) :
  is_Some (d !! el) → children d el = [tc] → children d tc = [tx] →
  children d tx = [] → is_element d tc = true →
  hasClass d tc ELEMENT_CONTENT_CLASS_NAME = true →
  is_element d tx = false →
  getContentNode d el = tc.
Proof.
  intros [n Hn] Hel Htc Htx Ie Hc It.
  unfold getContentNode, getElementsByClass, descendants.
  assert (Hstep : ∀ f x, descendants_upto (S f) d x
            = flat_map (λ c, c :: descendants_upto f d c) (children d x))
    by done.
  destruct (size d) as [|[|f]] eqn:Hs.
  - apply map_size_empty_iff in Hs. subst. by rewrite lookup_empty in Hn.
  - rewrite Hstep, Hel. cbn [flat_map descendants_upto app].
    rewrite filter_cons_True by (by rewrite Ie, Hc). done.
  - rewrite Hstep, Hel. cbn [flat_map app]. rewrite Hstep, Htc.
    cbn [flat_map app]. rewrite descendants_upto_leaf by done.
    rewrite filter_cons_True by (by rewrite Ie, Hc).
    rewrite filter_cons_False by (by rewrite It). done.
Qed.

(** The same over a paragraph and its text node. *)
Lemma content_of_html d (el hc pa tx : nat) :
  is_Some (d !! el) → children d el = [hc] → children d hc = [pa] →
  children d pa = [tx] → children d tx = [] → is_element d hc = true →
  hasClass d hc ELEMENT_CONTENT_CLASS_NAME = true →
  hasClass d pa ELEMENT_CONTENT_CLASS_NAME = false →
  is_element d tx = false →
  getContentNode d el = hc.
Proof.
  intros [n Hn] Hel Hhc Hpa Htx Ie Hc Hp It.
  unfold getContentNode, getElementsByClass, descendants.
  assert (Hstep : ∀ f x, descendants_upto (S f) d x
            = flat_map (λ c, c :: descendants_upto f d c) (children d x))
    by done.
  assert (Hpa' : filter (λ x, is_element d x && hasClass d x ELEMENT_CONTENT_CLASS_NAME = true) [pa] = []).
  { rewrite filter_cons_False; [done|]. rewrite Hp.
    by destruct (is_element d pa). }
  destruct (size d) as [|[|[|f]]] eqn:Hs.
  - apply map_size_empty_iff in Hs. subst. by rewrite lookup_empty in Hn.
  - rewrite Hstep, Hel. cbn [flat_map descendants_upto app].
    rewrite filter_cons_True by (by rewrite Ie, Hc). done.
  - rewrite Hstep, Hel. cbn [flat_map app]. rewrite Hstep, Hhc.
    cbn [flat_map descendants_upto app].
    rewrite filter_cons_True by (by rewrite Ie, Hc). by rewrite Hpa'.
  - rewrite Hstep, Hel. cbn [flat_map app]. rewrite Hstep, Hhc.
    cbn [flat_map app]. rewrite Hstep, Hpa. cbn [flat_map app].
    rewrite descendants_upto_leaf by done.
    rewrite filter_cons_True by (by rewrite Ie, Hc).
    rewrite filter_cons_False.
    + rewrite filter_cons_False by (by rewrite It). done.
    + rewrite Hp. by destruct (is_element d pa).
Qed.

End ContentOfNew.

(* ================================================================== *)
(** * The four types *)
(* ================================================================== *)

Section CreateCases.

Import Dom Element.

Implicit Types d : gmap nat node.

Lemma type_tests :
  Js.eqs TYPE_CONTAINER TYPE_CONTAINER = true
  ∧ Js.eqs TYPE_TEXT TYPE_CONTAINER = false
  ∧ Js.eqs TYPE_TEXT TYPE_TEXT = true
  ∧ Js.eqs TYPE_HTML TYPE_CONTAINER = false
  ∧ Js.eqs TYPE_HTML TYPE_TEXT = false
  ∧ Js.eqs TYPE_HTML TYPE_HTML = true.
Proof. vm_compute. done. Qed.

Lemma type_list_tests :
  bool_decide (TYPE_CONTAINER ∈ [TYPE_CONTAINER; TYPE_HTML]) = true
  ∧ bool_decide (TYPE_TEXT ∈ [TYPE_CONTAINER; TYPE_HTML]) = false
  ∧ bool_decide (TYPE_HTML ∈ [TYPE_CONTAINER; TYPE_HTML]) = true
  ∧ bool_decide (TYPE_IMAGE ∈ [TYPE_CONTAINER; TYPE_HTML]) = false
  ∧ bool_decide (TYPE_CONTAINER ∈ [TYPE_TEXT; TYPE_HTML]) = false
  ∧ bool_decide (TYPE_TEXT ∈ [TYPE_TEXT; TYPE_HTML]) = true
  ∧ bool_decide (TYPE_HTML ∈ [TYPE_TEXT; TYPE_HTML]) = true
  ∧ bool_decide (TYPE_IMAGE ∈ [TYPE_TEXT; TYPE_HTML]) = false.
Proof. vm_compute. done. Qed.

Lemma createElement_new (E : Collab) (w : world) (type : list N) :
  let el := w_fresh w in
  let container :=
    default (body_getBodyElement E)
      (head (getElementsByClass (w_dom w) (Stage_BACKGROUND_CLASS_NAME E)
               (body_getBodyElement E))) in
  let styleObject : gmap (list N) (list N) :=
    <[Js.lit "height" := Js.lit "100px"]>
      (<[Js.lit "width" := Js.lit "100px"]>
         (<[Js.lit "top" := px (100 + stage_getScrollY E)]>
            (<[Js.lit "left" := px (100 + stage_getScrollX E)]> ∅))) in
  let style :=
    if bool_decide (type ∈ [TYPE_CONTAINER; TYPE_HTML])
    then <[Js.lit "backgroundColor" := Js.lit "#FFFFFF"]> styleObject
    else styleObject in
  let inner := bool_decide (type ∈ [TYPE_TEXT; TYPE_HTML]) in
  wf_world E w →
  is_token (Body_EDITABLE_CLASS_NAME E) →
  type ∈ [TYPE_CONTAINER; TYPE_TEXT; TYPE_HTML; TYPE_IMAGE] →
  ∃ w', createElement E w type = Some (el, w')
    ∧ wf_world E w'
    ∧ getType (w_dom w') el = Some type
    ∧ (∀ c, hasClass (w_dom w') el c = true
            ↔ c = Body_EDITABLE_CLASS_NAME E
              ∨ c = type ++ Js.lit "-element"
              ∨ c = JUST_ADDED_CLASS_NAME)
    ∧ parent (w_dom w') el = Some container
    ∧ children (w_dom w') container = children (w_dom w) container ++ [el]
    ∧ (∀ y, (y < w_fresh w)%nat → y ≠ container →
            w_dom w' !! y = w_dom w !! y)
    ∧ w_styles w' = <[el := style]> (w_styles w)
    ∧ w_loaders w' = w_loaders w
    ∧ w_trace w'
      = BodySetEditable el true :: PropertySetStyle el style
        :: PropertyInitSilexId el :: w_trace w
    ∧ children (w_dom w') el = (if inner then [S el] else [])
    ∧ getContentNode (w_dom w') el = (if inner then S el else el)
    ∧ (inner = true →
       is_element (w_dom w') (S el) = true
       ∧ hasClass (w_dom w') (S el) ELEMENT_CONTENT_CLASS_NAME = true).
Proof.
  intros el container styleObject style inner Hw Hed Hin.
  subst el container. set (el := w_fresh w).
  pose proof Hw as (Hwf & Hfresh & Hbody).
  destruct type_tests as (Tc & Ttc & Tt & Thc & Tht & Th).
  destruct type_image_tests as (Tic & Tit & Tih & Ti).
  destruct type_list_tests as (Sc & St & Sh & Si & Ic & It & Ih & Ii).
  assert (HA0 : w_dom w !! el = None) by (apply Hfresh; unfold el; lia).
  apply elem_of_cons in Hin as [->|Hin].
  { assert (Hs : style = <[Js.lit "backgroundColor" := Js.lit "#FFFFFF"]>
                           styleObject) by (unfold style; by rewrite Sc).
    assert (Hi : inner = false) by (unfold inner; by rewrite Ic).
    clearbody style inner. subst style inner.
    unfold createElement. rewrite Tc, createContainerElement_eq.
    cbn [mbind option_bind].
    set (Nel := Node 1 (Js.lit "div") [(TYPE_ATTR, TYPE_CONTAINER)]
                  [] None []).
    set (w1 := World (<[el := Nel]> (w_dom w)) (S el) (w_styles w)
                 (w_loaders w) (w_trace w)).
    destruct (wf_new_node (w_dom w) el Nel Hwf HA0 eq_refl eq_refl)
      as (Hwf1 & Hp1 & Hch1 & Hold1).
    destruct (createElement_after E w w1 TYPE_CONTAINER
                (<[Js.lit "backgroundColor" := Js.lit "#FFFFFF"]> styleObject)
                Hw Hed)
      as (w' & Hadd & Hw' & Hf' & Hty & Hcls & Hpar & Hchc & Hold & Hst
          & Hld & Htr & Hnew & Hch); try done.
    { by split; [|repeat constructor]. }
    { unfold can_parent, w1. cbn [w_dom]. by rewrite lookup_insert_eq. }
    { intros y Hy. apply Hold1. unfold el. lia. }
    { intros y Hy. unfold w1 in *. cbn [w_dom w_fresh] in *.
      rewrite Hold1 by lia. apply Hfresh. unfold el in Hy. lia. }
    { unfold getAttribute, w1. cbn [w_dom]. by rewrite lookup_insert_eq. }
    { unfold getAttribute, w1. cbn [w_dom]. by rewrite lookup_insert_eq. }
    exists w'. split.
    { exact (f_equal (λ o : option world, w0 ← o; Some (el, w0)) Hadd). }
    split; [exact Hw'|].
    split; [exact Hty|]. split; [exact Hcls|]. split; [exact Hpar|].
    split; [exact Hchc|]. split; [exact Hold|]. split; [exact Hst|].
    split; [exact Hld|]. split; [exact Htr|].
    assert (Hch' : children (w_dom w') el = []).
    { unfold el. rewrite Hch. unfold children, w1. cbn [w_dom].
      by rewrite lookup_insert_eq. }
    split; [exact Hch'|]. split; [by apply content_of_leaf|done]. }
  apply elem_of_cons in Hin as [->|Hin].
  { assert (Hs : style = styleObject) by (unfold style; by rewrite St).
    assert (Hi : inner = true) by (unfold inner; by rewrite It).
    clearbody style inner. subst style inner.
    unfold createElement. rewrite Ttc, Tt.
    destruct (createTextElement_spec w Hwf Hfresh)
      as (w1 & Hc & Hwf1 & Hf1 & Hsame1 & Hcp1 & Hp1 & Hty1 & Hcl1 & Hch_el
          & Hch_tc & Hch_tx & Ie_tc & Ie_tx & Hcls_tc & Hst1 & Hld1 & Htr1).
    rewrite Hc. cbn [mbind option_bind].
    destruct (createElement_after E w w1 TYPE_TEXT styleObject Hw Hed)
      as (w' & Hadd & Hw' & Hf' & Hty & Hcls & Hpar & Hchc & Hold & Hst
          & Hld & Htr & Hnew & Hch); try done.
    { by split; [|repeat constructor]. }
    { intros y Hy. apply Hsame1; lia. }
    { intros y Hy. rewrite Hf1 in Hy. rewrite Hsame1 by lia.
      apply Hfresh. lia. }
    exists w'. split.
    { exact (f_equal (λ o : option world, w0 ← o; Some (el, w0)) Hadd). }
    split; [exact Hw'|].
    split; [exact Hty|]. split; [exact Hcls|]. split; [exact Hpar|].
    split; [exact Hchc|]. split; [exact Hold|]. split; [exact Hst|].
    split; [exact Hld|]. split; [exact Htr|].
    assert (Hch' : children (w_dom w') el = [S el]).
    { unfold el. by rewrite Hch. }
    assert (Hie : is_element (w_dom w') (S el) = true).
    { rewrite (lookup_is_element (w_dom w1)); [done|]. apply Hnew.
      unfold el. lia. }
    assert (Hhc : hasClass (w_dom w') (S el) ELEMENT_CONTENT_CLASS_NAME = true).
    { rewrite (lookup_hasClass (w_dom w1)) by (apply Hnew; unfold el; lia).
      apply Hcls_tc. by left. }
    split; [exact Hch'|]. split; [|done].
    apply (content_of_text _ el (S el) (S (S el))); try done.
    - unfold parent in Hpar. fold el in Hpar.
      by destruct (w_dom w' !! el).
    - rewrite (lookup_children (w_dom w1)); [done|]. apply Hnew.
      unfold el. lia.
    - rewrite (lookup_children (w_dom w1)); [done|]. apply Hnew.
      unfold el. lia.
    - rewrite (lookup_is_element (w_dom w1)); [done|]. apply Hnew.
      unfold el. lia. }
  apply elem_of_cons in Hin as [->|Hin].
  { assert (Hs : style = <[Js.lit "backgroundColor" := Js.lit "#FFFFFF"]>
                           styleObject) by (unfold style; by rewrite Sh).
    assert (Hi : inner = true) by (unfold inner; by rewrite Ih).
    clearbody style inner. subst style inner.
    unfold createElement. rewrite Thc, Tht, Th.
    destruct (createHtmlElement_spec w Hwf Hfresh)
      as (w1 & Hc & Hwf1 & Hf1 & Hsame1 & Hcp1 & Hp1 & Hty1 & Hcl1 & Hch_el
          & Hch_hc & Hch_pa & Hch_tx & Ie_hc & Hcls_hc & Hcls_pa & Ie_tx
          & Hst1 & Hld1 & Htr1).
    rewrite Hc. cbn [mbind option_bind].
    destruct (createElement_after E w w1 TYPE_HTML
                (<[Js.lit "backgroundColor" := Js.lit "#FFFFFF"]> styleObject)
                Hw Hed)
      as (w' & Hadd & Hw' & Hf' & Hty & Hcls & Hpar & Hchc & Hold & Hst
          & Hld & Htr & Hnew & Hch); try done.
    { by split; [|repeat constructor]. }
    { intros y Hy. apply Hsame1; lia. }
    { intros y Hy. rewrite Hf1 in Hy. rewrite Hsame1 by lia.
      apply Hfresh. lia. }
    exists w'. split.
    { exact (f_equal (λ o : option world, w0 ← o; Some (el, w0)) Hadd). }
    split; [exact Hw'|].
    split; [exact Hty|]. split; [exact Hcls|]. split; [exact Hpar|].
    split; [exact Hchc|]. split; [exact Hold|]. split; [exact Hst|].
    split; [exact Hld|]. split; [exact Htr|].
    assert (Hch' : children (w_dom w') el = [S el]).
    { unfold el. by rewrite Hch. }
    assert (Hie : is_element (w_dom w') (S el) = true).
    { rewrite (lookup_is_element (w_dom w1)); [done|]. apply Hnew.
      unfold el. lia. }
    assert (Hhc : hasClass (w_dom w') (S el) ELEMENT_CONTENT_CLASS_NAME = true).
    { rewrite (lookup_hasClass (w_dom w1)) by (apply Hnew; unfold el; lia).
      by apply Hcls_hc. }
    split; [exact Hch'|]. split; [|done].
    apply (content_of_html _ el (S el) (S (S el)) (S (S (S el)))); try done.
    - unfold parent in Hpar. fold el in Hpar.
      by destruct (w_dom w' !! el).
    - rewrite (lookup_children (w_dom w1)); [done|]. apply Hnew.
      unfold el. lia.
    - rewrite (lookup_children (w_dom w1)); [done|]. apply Hnew.
      unfold el. lia.
    - rewrite (lookup_children (w_dom w1)); [done|]. apply Hnew.
      unfold el. lia.
    - rewrite (lookup_hasClass (w_dom w1)) by (apply Hnew; unfold el; lia).
      apply Hcls_pa.
    - rewrite (lookup_is_element (w_dom w1)); [done|]. apply Hnew.
      unfold el. lia. }
  apply list_elem_of_singleton in Hin as ->.
  assert (Hs : style = styleObject) by (unfold style; by rewrite Si).
  assert (Hi : inner = false) by (unfold inner; by rewrite Ii).
  clearbody style inner. subst style inner.
  unfold createElement. rewrite Tic, Tit, Tih, Ti, createImageElement_eq.
  cbn [mbind option_bind].
  set (Nel := Node 1 (Js.lit "div") [(TYPE_ATTR, TYPE_IMAGE)] [] None []).
  set (w1 := World (<[el := Nel]> (w_dom w)) (S el) (w_styles w)
               (w_loaders w) (w_trace w)).
  destruct (wf_new_node (w_dom w) el Nel Hwf HA0 eq_refl eq_refl)
    as (Hwf1 & Hp1 & Hch1 & Hold1).
  destruct (createElement_after E w w1 TYPE_IMAGE styleObject Hw Hed)
    as (w' & Hadd & Hw' & Hf' & Hty & Hcls & Hpar & Hchc & Hold & Hst
        & Hld & Htr & Hnew & Hch); try done.
  { by split; [|repeat constructor]. }
  { unfold can_parent, w1. cbn [w_dom]. by rewrite lookup_insert_eq. }
  { intros y Hy. apply Hold1. unfold el. lia. }
  { intros y Hy. unfold w1 in *. cbn [w_dom w_fresh] in *.
    rewrite Hold1 by lia. apply Hfresh. unfold el in Hy. lia. }
  { unfold getAttribute, w1. cbn [w_dom]. by rewrite lookup_insert_eq. }
  { unfold getAttribute, w1. cbn [w_dom]. by rewrite lookup_insert_eq. }
  exists w'. split.
  { exact (f_equal (λ o : option world, w0 ← o; Some (el, w0)) Hadd). }
  split; [exact Hw'|].
  split; [exact Hty|]. split; [exact Hcls|]. split; [exact Hpar|].
  split; [exact Hchc|]. split; [exact Hold|]. split; [exact Hst|].
  split; [exact Hld|]. split; [exact Htr|].
  assert (Hch' : children (w_dom w') el = []).
  { unfold el. rewrite Hch. unfold children, w1. cbn [w_dom].
    by rewrite lookup_insert_eq. }
  split; [exact Hch'|]. split; [by apply content_of_leaf|done].
Qed.

End CreateCases.

(* ================================================================== *)
(** * Creating an element *)
(* ================================================================== *)

Section CreateElement.

Import Dom Element.

Implicit Types d : gmap nat node.

(** With a type that is none of the four no element is created, and the
    first use of the element throws. *)
Lemma createElement_unknown (E : Collab) (w : world) (type : list N) :
  type ∉ [TYPE_CONTAINER; TYPE_TEXT; TYPE_HTML; TYPE_IMAGE] →
  createElement E w type = None.
Proof.
  intros Hno. unfold createElement, Js.eqs.
  rewrite !bool_decide_eq_false_2; [done| | | |];
    intros ->; apply Hno; set_solver.
Qed.



(** X27: the content node of a new element. In a well-formed editor
    whose editable class is one class name, a text box and an HTML box
    made by [createElement] have one child, the node made right after
    them, an element with the content class, and [getContentNode]
    returns it; a container and an image made by [createElement] have
    no child and are their own content node. *)
Theorem createElement_content_node (E : Collab) (w w' : world)
    (type : list N) (element : nat) :
  wf_world E w →
  is_token (Body_EDITABLE_CLASS_NAME E) →
  createElement E w type = Some (element, w') →
  if bool_decide (type ∈ [TYPE_TEXT; TYPE_HTML])
  then children (w_dom w') element = [S element]
       ∧ is_element (w_dom w') (S element) = true
       ∧ hasClass (w_dom w') (S element) ELEMENT_CONTENT_CLASS_NAME = true
       ∧ getContentNode (w_dom w') element = S element
  else children (w_dom w') element = []
       ∧ getContentNode (w_dom w') element = element.
Proof.
  intros Hw Hed Hc.
  destruct (decide (type ∈ [TYPE_CONTAINER; TYPE_TEXT; TYPE_HTML; TYPE_IMAGE]))
    as [Hin|Hno]; [|by rewrite createElement_unknown in Hc].
  destruct (createElement_new E w type Hw Hed Hin)
    as (w'' & H1 & _ & _ & _ & _ & _ & _ & _ & _ & _ & Hch & Hcont & Hinner).
  rewrite H1 in Hc. injection Hc as <- <-.
  destruct (bool_decide (type ∈ [TYPE_TEXT; TYPE_HTML])); [|done].
  destruct (Hinner eq_refl) as [Hie Hcl]. done.
Qed.

(** The HTML box made in the scenario of the four siblings. *)
Lemma createElement_content_node_witness :
  ∃ w', createElement Scenario.paged Scenario.four_siblings_world TYPE_HTML
        = Some (6%nat, w')
    ∧ children (w_dom w') 6%nat = [7%nat]
    ∧ is_element (w_dom w') 7%nat = true
    ∧ hasClass (w_dom w') 7%nat ELEMENT_CONTENT_CLASS_NAME = true
    ∧ getContentNode (w_dom w') 6%nat = 7%nat.
Proof.
  assert (Hw : wf_world Scenario.paged Scenario.four_siblings_world).
  { split; [vm_compute; reflexivity|]. split; [|vm_compute; reflexivity].
    apply lookup_above. vm_compute. reflexivity. }
  assert (Hed : is_token (Body_EDITABLE_CLASS_NAME Scenario.paged)).
  { split; [done|]. vm_compute. repeat constructor. }
  destruct (createElement Scenario.paged Scenario.four_siblings_world
              TYPE_HTML) as [[el w']|] eqn:Hc;
    [|vm_compute in Hc; discriminate].
  assert (Hel : el = 6%nat).
  { vm_compute in Hc. by injection Hc as <- _. }
  subst el. exists w'. split; [reflexivity|].
  exact (createElement_content_node Scenario.paged
           Scenario.four_siblings_world w' TYPE_HTML 6 Hw Hed Hc).
Defined.

End CreateElement.
